(** * AI News Aggregator: the article store, the ingestion pipeline and the
    enrichment pipeline of [app.py], embedded in Rocq.

    The embedding follows [app.py] function by function.  Python values are
    an inductive type, a [str] is a [string] (one [ascii] per code point, so
    code points below 256), exceptions are the [Raise] results of a small
    state-and-exception monad over the process state, and the SQLite table
    [articles] is the list of its rows in rowid order.

    What lies outside the repository is a field of the record [Platform]:
    the feeds' contents, the clock, the classification service and the
    constructor of its client, the JSON decoder, the HTML parser, what SQLite
    does to a value whose storage class differs from the affinity of its
    column, and what it does with an UPDATE whose target is not the name of
    one of the six columns the program itself updates.  Every theorem holds
    for every platform. *)

From Stdlib Require Import ZArith List String Ascii Bool Lia Floats.
From Stdlib Require Import DecimalString Sorting.Sorted Permutation.
Import ListNotations.

Local Open Scope Z_scope.
Local Open Scope list_scope.

Set Implicit Arguments.
Set Warnings "-register-all".

(* ================================================================== *)
(** * Python values *)
(* ================================================================== *)

Module Py.

(** The exceptions the modelled functions can let escape. *)
Inductive exn : Type :=
| TypeError        (* [None[:2500]] *)
| AttributeError   (* [.get] on a value that is not a dict *)
| OverflowError    (* an int outside 64 bits handed to sqlite3 *)
| InterfaceError   (* a list or dict handed to sqlite3 as a parameter
                      (ProgrammingError in later versions of the module) *)
| OperationalError (* a statement SQLite cannot prepare: no such column *)
| IntegrityError   (* a constraint of the table that a statement breaks *)
| LibraryError.    (* any other exception of a library *)

Inductive result (A : Type) : Type :=
| Ok (a : A)
| Raise (e : exn).
Arguments Ok {A} a.
Arguments Raise {A} e.

(** What [json.loads] builds, which is also all that reaches the store.
    The keys of a dict are distinct. *)
Inductive value : Type :=
| PNone
| PBool (b : bool)
| PInt (z : Z)
| PFloat (f : float)
| PStr (s : string)
| PList (l : list value)
| PDict (kv : list (string * value)).

(** [bool(v)], the test of [if v:]. *)
Definition truthy (v : value) : bool :=
  match v with
  | PNone => false
  | PBool b => b
  | PInt z => negb (z =? 0)
  | PFloat f => negb (PrimFloat.eqb f 0%float)
  | PStr s => negb (String.eqb s EmptyString)
  | PList l => match l with [] => false | _ => true end
  | PDict kv => match kv with [] => false | _ => true end
  end.

Definition isinstance_list (v : value) : bool :=
  match v with PList _ => true | _ => false end.

Fixpoint lookup (k : string) (kv : list (string * value)) : option value :=
  match kv with
  | [] => None
  | (k', v) :: rest => if String.eqb k k' then Some v else lookup k rest
  end.

(** [d.get(k, default)]; [d.get(k)] is [get d k PNone]. *)
Definition get (d : value) (k : string) (default : value) : result value :=
  match d with
  | PDict kv => Ok (match lookup k kv with Some v => v | None => default end)
  | _ => Raise AttributeError
  end.

(** ** Strings *)

(** [s.find(c)] for a one-character [c]: the first index, or -1. *)
Fixpoint find (c : ascii) (s : string) : Z :=
  match s with
  | EmptyString => -1
  | String a rest =>
      if Ascii.eqb a c then 0
      else let i := find c rest in if i <? 0 then -1 else i + 1
  end.

(** [s.rfind(c)]: the last index, or -1. *)
Fixpoint rfind (c : ascii) (s : string) : Z :=
  match s with
  | EmptyString => -1
  | String a rest =>
      let i := rfind c rest in
      if 0 <=? i then i + 1 else if Ascii.eqb a c then 0 else -1
  end.

Definition len (s : string) : Z := Z.of_nat (String.length s).

(** A slice bound as Python reads it: negative counts from the end, and
    the result is clamped to the string. *)
Definition clamp (n : Z) (i : Z) : Z :=
  let j := if i <? 0 then i + n else i in
  Z.max 0 (Z.min n j).

(** [s[i:j]]. *)
Definition slice (s : string) (i j : Z) : string :=
  let lo := clamp (len s) i in
  let hi := clamp (len s) j in
  substring (Z.to_nat lo) (Z.to_nat (hi - lo)) s.

(** [s[:n]] for a literal [n >= 0]. *)
Definition prefix_to (n : nat) (s : string) : string := substring 0 n s.

(** [c.isspace()] on the code points below 256. *)
Definition isspace (c : ascii) : bool :=
  let n := nat_of_ascii c in
  (((9 <=? n) && (n <=? 13)) || ((28 <=? n) && (n <=? 32))
   || (n =? 133) || (n =? 160))%nat.

Fixpoint lstrip (s : string) : string :=
  match s with
  | String a rest => if isspace a then lstrip rest else s
  | EmptyString => EmptyString
  end.

Fixpoint rstrip (s : string) : string :=
  match s with
  | EmptyString => EmptyString
  | String a rest =>
      match rstrip rest with
      | EmptyString => if isspace a then EmptyString else String a EmptyString
      | r => String a r
      end
  end.

(** [s.strip()]. *)
Definition strip (s : string) : string := rstrip (lstrip s).

(** ** [json.dumps] with its defaults ([ensure_ascii], [", "] and [": "]) *)

Definition dquote : string := String (ascii_of_nat 34) EmptyString.
Definition backslash : string := String (ascii_of_nat 92) EmptyString.

Definition hex_digit (n : nat) : ascii :=
  if (n <? 10)%nat then ascii_of_nat (48 + n) else ascii_of_nat (87 + n).

(** One character of a string literal: the short escapes, [\u00xx] for the
    rest outside [' '..'~']. *)
Definition escape_char (c : ascii) : string :=
  let n := nat_of_ascii c in
  if (n =? 34)%nat then append backslash dquote
  else if (n =? 92)%nat then append backslash backslash
  else if (n =? 10)%nat then append backslash "n"
  else if (n =? 13)%nat then append backslash "r"
  else if (n =? 9)%nat then append backslash "t"
  else if (n =? 8)%nat then append backslash "b"
  else if (n =? 12)%nat then append backslash "f"
  else if ((32 <=? n) && (n <=? 126))%nat then String c EmptyString
  else append backslash
         (String "u" (String "0" (String "0"
           (String (hex_digit (n / 16)) (String (hex_digit (n mod 16)) EmptyString))))).

Fixpoint escape (s : string) : string :=
  match s with
  | EmptyString => EmptyString
  | String c rest => append (escape_char c) (escape rest)
  end.

Definition encode_str (s : string) : string :=
  append dquote (append (escape s) dquote).

Definition repr_int (z : Z) : string := NilZero.string_of_int (Z.to_int z).

Section Dumps.

(** [float.__repr__] on a finite float: the shortest decimal that reads
    back as the same float.  It belongs to the interpreter. *)
Variable float_repr : float -> string.

Definition dumps_float (f : float) : string :=
  if PrimFloat.is_nan f then "NaN"%string
  else if PrimFloat.is_infinity f
       then (if PrimFloat.ltb f 0%float then "-Infinity" else "Infinity")%string
       else float_repr f.

Fixpoint dumps (v : value) : string :=
  match v with
  | PNone => "null"%string
  | PBool true => "true"%string
  | PBool false => "false"%string
  | PInt z => repr_int z
  | PFloat f => dumps_float f
  | PStr s => encode_str s
  | PList l =>
      append "[" (append (concat ", " (map dumps l)) "]")
  | PDict kv =>
      append "{"
        (append
           (concat ", "
              (map (fun p => append (encode_str (fst p)) (append ": " (dumps (snd p)))) kv))
           "}")
  end.

End Dumps.

End Py.

(* ================================================================== *)
(** * The table [articles] *)
(* ================================================================== *)

Module Sql.

(** A stored value that is not NULL, by storage class. *)
Inductive storage : Type :=
| VInt (z : Z)
| VReal (f : float)
| VText (s : string).

(** A column value; [None] is NULL. *)
Definition sqlval : Type := option storage.

Inductive affinity : Type := TEXT | REAL | INTEGER.

Definition int64 (z : Z) : bool :=
  (-9223372036854775808 <=? z) && (z <=? 9223372036854775807).

(** How the [sqlite3] module turns a statement parameter into a value.
    Lists and dicts have no adapter; SQLite stores a NaN as NULL. *)
Definition bind_param (v : Py.value) : Py.result sqlval :=
  match v with
  | Py.PNone => Py.Ok None
  | Py.PBool b => Py.Ok (Some (VInt (if b then 1 else 0)))
  | Py.PInt z => if int64 z then Py.Ok (Some (VInt z)) else Py.Raise Py.OverflowError
  | Py.PFloat f => Py.Ok (if PrimFloat.is_nan f then None else Some (VReal f))
  | Py.PStr s => Py.Ok (Some (VText s))
  | Py.PList _ | Py.PDict _ => Py.Raise Py.InterfaceError
  end.

(** What a row hands back to Python. *)
Definition to_py (v : sqlval) : Py.value :=
  match v with
  | None => Py.PNone
  | Some (VInt z) => Py.PInt z
  | Some (VReal f) => Py.PFloat f
  | Some (VText s) => Py.PStr s
  end.

(** The double nearest to a 64-bit integer. *)
Definition real_of_int (z : Z) : float :=
  if z =? -9223372036854775808 then (-9223372036854775808)%float
  else if z <? 0 then PrimFloat.opp (PrimFloat.of_uint63 (Uint63.of_Z (- z)))
  else PrimFloat.of_uint63 (Uint63.of_Z z).

Section Affinity.

(** SQLite's conversion of a value on its way into a column of another
    affinity (a number into a TEXT column, text that looks like a number
    into a numeric column, ...). *)
Variable convert : affinity -> storage -> storage.

(** A value as the column keeps it: NULL stays NULL, a value already of the
    column's class is kept as it is, an integer in a REAL column becomes a
    float.  A REAL column writes a float that is a whole number as an
    integer and reads it back as a float, which is the same float but for
    the negative zero: -0.0 is read back as 0.0. *)
Definition apply_affinity (a : affinity) (v : sqlval) : sqlval :=
  match v with
  | None => None
  | Some x =>
      Some match a, x with
           | TEXT, VText _ => x
           | REAL, VReal f => VReal (if PrimFloat.eqb f 0%float then 0%float else f)
           | REAL, VInt z => VReal (real_of_int z)
           | INTEGER, VInt _ => x
           | _, _ => convert a x
           end
  end.

End Affinity.

(** One row.  [title], [url], [source] and [fetched_date] are NOT NULL and
    written by [add_article] alone, from strings; [published_date] and
    [content] are written by [add_article] alone, from a string or None.
    The other six columns are the ones [update_article] is called on. *)
Record Row : Type := mkRow {
  id : Z;
  title : string;
  url : string;
  source : string;
  published_date : option string;
  fetched_date : string;
  content : option string;
  summary : sqlval;
  category : sqlval;
  sentiment : sqlval;
  sentiment_score : sqlval;
  bubble_indicators : sqlval;
  is_read : sqlval
}.

(** The six columns the program itself names in an UPDATE: the keys of the
    two dict literals it hands to [update_article]. *)
Inductive field : Type :=
| Summary | Category | Sentiment | Sentiment_score | Bubble_indicators | Is_read.

(** The name of a column, which is also the key of the result of the
    analysis that the column is filled from. *)
Definition key_of (k : field) : string :=
  match k with
  | Summary => "summary"
  | Category => "category"
  | Sentiment => "sentiment"
  | Sentiment_score => "sentiment_score"
  | Bubble_indicators => "bubble_indicators"
  | Is_read => "is_read"
  end.

Definition updatable : list field :=
  [Summary; Category; Sentiment; Sentiment_score; Bubble_indicators; Is_read].

(** The column that the key of a field map names, when the key is,
    letter for letter, one of the six names. *)
Definition column_of (key : string) : option field :=
  List.find (fun k => String.eqb (key_of k) key) updatable.

Definition field_affinity (k : field) : affinity :=
  match k with
  | Sentiment_score => REAL
  | Is_read => INTEGER
  | _ => TEXT
  end.

Definition get_field (k : field) (r : Row) : sqlval :=
  match k with
  | Summary => summary r
  | Category => category r
  | Sentiment => sentiment r
  | Sentiment_score => sentiment_score r
  | Bubble_indicators => bubble_indicators r
  | Is_read => is_read r
  end.

Definition set_field (k : field) (v : sqlval) (r : Row) : Row :=
  match k with
  | Summary =>
      mkRow (id r) (title r) (url r) (source r) (published_date r) (fetched_date r)
        (content r) v (category r) (sentiment r) (sentiment_score r)
        (bubble_indicators r) (is_read r)
  | Category =>
      mkRow (id r) (title r) (url r) (source r) (published_date r) (fetched_date r)
        (content r) (summary r) v (sentiment r) (sentiment_score r)
        (bubble_indicators r) (is_read r)
  | Sentiment =>
      mkRow (id r) (title r) (url r) (source r) (published_date r) (fetched_date r)
        (content r) (summary r) (category r) v (sentiment_score r)
        (bubble_indicators r) (is_read r)
  | Sentiment_score =>
      mkRow (id r) (title r) (url r) (source r) (published_date r) (fetched_date r)
        (content r) (summary r) (category r) (sentiment r) v
        (bubble_indicators r) (is_read r)
  | Bubble_indicators =>
      mkRow (id r) (title r) (url r) (source r) (published_date r) (fetched_date r)
        (content r) (summary r) (category r) (sentiment r) (sentiment_score r)
        v (is_read r)
  | Is_read =>
      mkRow (id r) (title r) (url r) (source r) (published_date r) (fetched_date r)
        (content r) (summary r) (category r) (sentiment r) (sentiment_score r)
        (bubble_indicators r) v
  end.

(** The database: the rows in rowid order and the AUTOINCREMENT counter
    (the largest id ever given out). *)
Record Store : Type := mkStore {
  rows : list Row;
  last_id : Z
}.

Definition empty : Store := mkStore [] 0.

(** [UPDATE articles SET k = v WHERE id = i]. *)
Definition update_where_id (k : field) (v : sqlval) (i : Z) (rs : list Row) : list Row :=
  map (fun r => if id r =? i then set_field k v r else r) rs.

(** [SELECT * FROM articles WHERE id = i], first row. *)
Definition select_id (i : Z) (rs : list Row) : option Row :=
  List.find (fun r => id r =? i) rs.

(** ** ORDER BY ... DESC and LIMIT *)

Section OrderBy.
Variable A : Type.
(** [before a b]: [a] may come before [b] in the result. *)
Variable before : A -> A -> bool.

Fixpoint insert_sorted (a : A) (l : list A) : list A :=
  match l with
  | [] => [a]
  | b :: rest => if before a b then a :: l else b :: insert_sorted a rest
  end.

(** Insertion sort, stable: rows that tie keep their rowid order (SQL
    leaves the order of ties to the engine). *)
Fixpoint order_by (l : list A) : list A :=
  match l with
  | [] => []
  | a :: rest => insert_sorted a (order_by rest)
  end.

End OrderBy.

(** Text under the BINARY collation, descending. *)
Definition text_desc (a b : string) : bool := String.leb b a.

(** A nullable text column, descending: NULL sorts below every text. *)
Definition nullable_desc (a b : option string) : bool :=
  match a, b with
  | _, None => true
  | None, Some _ => false
  | Some x, Some y => String.leb y x
  end.

(** [LIMIT n]: a negative [n] is no limit. *)
Definition limit_rows (A : Type) (n : Z) (l : list A) : list A :=
  if n <? 0 then l else firstn (Z.to_nat n) l.

End Sql.

(* ================================================================== *)
(** * What the program runs on *)
(* ================================================================== *)

(** One entry of a parsed feed, as [fetch_feed] reads it. *)
Record Entry : Type := mkEntry {
  entry_title : option string;            (* [entry.get('title')] *)
  entry_link : option string;             (* [entry.get('link')] *)
  published_parsed : option (list Z);     (* None: absent or falsy *)
  updated_parsed : option (list Z);
  entry_content : list (option string);   (* the ['value'] of each content block *)
  entry_summary : option string           (* None: no such attribute *)
}.

Record Platform : Type := mkPlatform {
  (** [float.__repr__] on finite floats. *)
  float_repr : float -> string;
  (** SQLite's conversion between storage classes. *)
  sqlite_convert : Sql.affinity -> Sql.storage -> Sql.storage;
  (** [json.loads]; None when it raises. *)
  json_loads : string -> option Py.value;
  (** The strings of [BeautifulSoup(content, 'html.parser')] that
      [get_text] visits, in document order; None when the parser raises. *)
  soup_strings : string -> option (list string);
  (** [datetime( *t[:6]).isoformat()]; None when [datetime] raises. *)
  datetime_isoformat : list Z -> option string;
  (** Whether [import anthropic] succeeded. *)
  HAS_ANTHROPIC : bool;
  (** [datetime.now().isoformat()] at the n-th step of the process. *)
  clock : nat -> string;
  (** [feedparser.parse(url).entries] at the n-th step; None when it raises. *)
  feedparser_parse : nat -> string -> option (list Entry);
  (** [client.messages.create(...).content[0].text] for the prompt, at the
      n-th step; None when the call or the access raises. *)
  messages_create : nat -> string -> option string;
  (** [anthropic.Anthropic(api_key=key)]: None when it returns the client,
      the exception when it raises. *)
  Anthropic : string -> option Py.exn;
  (** [conn.execute(f"UPDATE articles SET {key} = ? WHERE id = ?", (value,
      article_id))] for a key that is not one of the six names of
      [Sql.column_of], on the table as the open transaction has it.  The
      key is spliced into the statement, so it may name another column, no
      column at all, or be a longer piece of SQL. *)
  sqlite_update : string -> Py.value -> Z -> Sql.Store -> Py.result Sql.Store
}.

(** The state of the process: the database as committed, the global
    [API_KEY], the steps taken so far, and the prompts sent out, latest
    first.  Connections are not part of it: every function opens its own,
    and one that a raise leaves open (with the lock it may hold until it is
    collected) is not recorded. *)
Record World : Type := mkWorld {
  db : Sql.Store;
  API_KEY : string;
  ticks : nat;
  outbound : list string
}.

Definition set_db (d : Sql.Store) (w : World) : World :=
  mkWorld d (API_KEY w) (ticks w) (outbound w).

Definition set_key (k : string) (w : World) : World :=
  mkWorld (db w) k (ticks w) (outbound w).

Definition tick (w : World) : World :=
  mkWorld (db w) (API_KEY w) (S (ticks w)) (outbound w).

Definition sent (prompt : string) (w : World) : World :=
  mkWorld (db w) (API_KEY w) (S (ticks w)) (prompt :: outbound w).

(** ** Computations that read and write the world and may raise *)

Definition M (A : Type) : Type := World -> World * Py.result A.

Definition ret (A : Type) (a : A) : M A := fun w => (w, Py.Ok a).

Definition raise (A : Type) (e : Py.exn) : M A := fun w => (w, Py.Raise e).

Definition bind (A B : Type) (m : M A) (k : A -> M B) : M B :=
  fun w =>
    match m w with
    | (w', Py.Ok a) => k a w'
    | (w', Py.Raise e) => (w', Py.Raise e)
    end.

Definition lift (A : Type) (r : Py.result A) : M A := fun w => (w, r).

Declare Scope py_scope.
Delimit Scope py_scope with py.
Notation "x <- m ;; k" := (bind m (fun x => k))
  (at level 100, m at next level, right associativity) : py_scope.
Notation "m ;;; k" := (bind m (fun _ => k))
  (at level 100, right associativity) : py_scope.

(* ================================================================== *)
(** * config.py *)
(* ================================================================== *)

Record Feed : Type := mkFeed {
  feed_name : string;
  feed_url : string;
  feed_category : string
}.

Definition FEEDS : list Feed :=
  [ mkFeed "TechCrunch AI"
      "https://techcrunch.com/category/artificial-intelligence/feed/" "AI Industry";
    mkFeed "MIT Technology Review"
      "https://www.technologyreview.com/feed/" "AI Research";
    mkFeed "The Verge AI"
      "https://www.theverge.com/rss/ai-artificial-intelligence/index.xml" "AI Industry";
    mkFeed "Ars Technica"
      "https://feeds.arstechnica.com/arstechnica/technology-lab" "AI Industry";
    mkFeed "VentureBeat AI"
      "https://venturebeat.com/category/ai/feed/" "AI Business";
    mkFeed "Hacker News AI"
      "https://hnrss.org/newest?q=AI+OR+artificial+intelligence+OR+LLM+OR+OpenAI"
      "AI Community" ].

Definition MAX_ARTICLES_PER_FEED : nat := 15.

Definition ANTHROPIC_API_KEY : string := "".

(* ================================================================== *)
(** * app.py *)
(* ================================================================== *)

Import Sql.
Local Open Scope py_scope.

(** The payload of [add_article]: [{title, url, source, published_date?,
    content?}], each a string or None.  For the two optional keys an absent
    key and None are the same to [article.get]. *)
Record Article : Type := mkArticle {
  a_title : option string;
  a_url : option string;
  a_source : option string;
  a_published_date : option string;
  a_content : option string
}.

Section App.

Variable P : Platform.

(** ** Database *)

(** [datetime.now().isoformat()]. *)
Definition now : M string := fun w => (tick w, Py.Ok (clock P (ticks w))).

(** The INSERT of [add_article]: the three NOT NULL columns and the UNIQUE
    url are checked, and nothing is written when a check fails.  None is
    the [sqlite3.IntegrityError].  Ids are unbounded here, so the
    AUTOINCREMENT counter never runs out. *)
Definition insert_article (a : Article) (fetched : string) (d : Store) : option (Store * Z) :=
  match a_title a, a_url a, a_source a with
  | Some t, Some u, Some s =>
      if existsb (fun r => String.eqb (url r) u) (rows d) then None
      else
        let i := last_id d + 1 in
        Some (mkStore
                (rows d ++ [mkRow i t u s (a_published_date a) fetched (a_content a)
                              None None None None None (Some (VInt 0))])
                i,
              i)
  | _, _, _ => None
  end.

(** [add_article(article)]: the new id, or None. *)
Definition add_article (a : Article) : M (option Z) :=
  fetched <- now ;;
  fun w =>
    match insert_article a fetched (db w) with
    | Some (d, i) => (set_db d w, Py.Ok (Some i))
    | None => (w, Py.Ok None)
    end.

(** A Python int as a statement parameter. *)
Definition bind_int (z : Z) : Py.result Z :=
  if int64 z then Py.Ok z else Py.Raise Py.OverflowError.

(** [if s:] on a string or None. *)
Definition nonempty (s : option string) : bool :=
  match s with
  | Some x => negb (String.eqb x EmptyString)
  | None => false
  end.

(** [column = ?] against a string parameter. *)
Definition equals_text (v : sqlval) (s : string) : bool :=
  match v with
  | Some (VText t) => String.eqb t s
  | _ => false
  end.

(** The WHERE clause [get_articles] builds. *)
Definition matches (sentiment_filter category_filter : option string) (r : Row) : bool :=
  (match sentiment_filter with
   | Some s => if String.eqb s EmptyString then true else equals_text (sentiment r) s
   | None => true
   end)
  &&
  (match category_filter with
   | Some c => if String.eqb c EmptyString then true else equals_text (category r) c
   | None => true
   end).

(** [get_articles(limit, sentiment, category)]. *)
Definition get_articles (limit : Z) (sentiment_filter category_filter : option string)
  : M (list Row) :=
  n <- lift (bind_int limit) ;;
  fun w =>
    (w, Py.Ok (limit_rows n
                 (order_by (fun a b => nullable_desc (published_date a) (published_date b))
                    (filter (matches sentiment_filter category_filter) (rows (db w)))))).

(** [get_article(article_id)]. *)
Definition get_article (article_id : Z) : M (option Row) :=
  i <- lift (bind_int article_id) ;;
  fun w => (w, Py.Ok (select_id i (rows (db w)))).

(** One turn of the loop of [update_article], on the table as the open
    transaction has it.  The key is spliced into the statement.  For the
    name of one of the six columns the statement sets that column in the
    rows of that id, after the value and the id were bound; for any other
    key it is the platform's. *)
Definition update_one (article_id : Z) (kv : string * Py.value) (d : Store)
  : Py.result Store :=
  let value :=
    if Py.isinstance_list (snd kv) then Py.PStr (Py.dumps (float_repr P) (snd kv))
    else snd kv in
  match column_of (fst kv) with
  | Some k =>
      match bind_param value with
      | Py.Raise e => Py.Raise e
      | Py.Ok v =>
          match bind_int article_id with
          | Py.Raise e => Py.Raise e
          | Py.Ok i =>
              Py.Ok (mkStore
                       (update_where_id k
                          (apply_affinity (sqlite_convert P) (field_affinity k) v) i (rows d))
                       (last_id d))
          end
      end
  | None => sqlite_update P (fst kv) value article_id d
  end.

Fixpoint update_all (article_id : Z) (updates : list (string * Py.value)) (d : Store)
  : Py.result Store :=
  match updates with
  | [] => Py.Ok d
  | kv :: rest =>
      match update_one article_id kv d with
      | Py.Ok d' => update_all article_id rest d'
      | Py.Raise e => Py.Raise e
      end
  end.

(** [update_article(article_id, updates)]; [updates] is the items of the
    dict, each key as the f-string writes it.  The statements run in one
    transaction, committed after the loop: when one of them raises, the
    commit is not reached and none of them is kept. *)
Definition update_article (article_id : Z) (updates : list (string * Py.value)) : M unit :=
  fun w =>
    match update_all article_id updates (db w) with
    | Py.Ok d => (set_db d w, Py.Ok tt)
    | Py.Raise e => (w, Py.Raise e)
    end.

Definition summary_is_null (r : Row) : bool :=
  match summary r with None => true | Some _ => false end.

(** [get_unprocessed_articles(limit)]. *)
Definition get_unprocessed_articles (limit : Z) : M (list Row) :=
  n <- lift (bind_int limit) ;;
  fun w =>
    (w, Py.Ok (limit_rows n
                 (order_by (fun a b => text_desc (fetched_date a) (fetched_date b))
                    (filter summary_is_null (rows (db w)))))).

(** [dict(row)], the article a read hands to its caller. *)
Definition dict_row (r : Row) : list (string * Py.value) :=
  let text s := Py.PStr s in
  let opt s := match s with Some x => Py.PStr x | None => Py.PNone end in
  [ ("id", Py.PInt (id r)); ("title", text (title r)); ("url", text (url r));
    ("source", text (source r)); ("published_date", opt (published_date r));
    ("fetched_date", text (fetched_date r)); ("content", opt (content r));
    ("summary", to_py (summary r)); ("category", to_py (category r));
    ("sentiment", to_py (sentiment r)); ("sentiment_score", to_py (sentiment_score r));
    ("bubble_indicators", to_py (bubble_indicators r)); ("is_read", to_py (is_read r)) ]%string.

End App.

(* ================================================================== *)
(** * Feed fetching *)
(* ================================================================== *)

Section Feeds.

Variable P : Platform.

(** [soup.get_text(separator=' ', strip=True)] on the strings of the
    document: each is stripped, the empty ones are dropped, the rest are
    joined by one space. *)
Definition get_text (strings : list string) : string :=
  concat " "
    (filter (fun s => negb (String.eqb s EmptyString)) (map Py.strip strings)).

(** The "Clean HTML" step of [fetch_feed], for a non-empty [content];
    None when the parser raises. *)
Definition clean_html (content : string) : option string :=
  match soup_strings P content with
  | Some strings => Some (Py.prefix_to 3000 (get_text strings))
  | None => None
  end.

(** [published]: the first of the two parsed dates that is there, as an
    ISO string.  The outer None is an exception raised by [datetime]. *)
Definition published_of (e : Entry) : option (option string) :=
  match published_parsed e with
  | Some t =>
      match datetime_isoformat P (firstn 6 t) with
      | Some iso => Some (Some iso)
      | None => None
      end
  | None =>
      match updated_parsed e with
      | Some t =>
          match datetime_isoformat P (firstn 6 t) with
          | Some iso => Some (Some iso)
          | None => None
          end
      | None => Some None
      end
  end.

(** The raw content of an entry: the first content block, else the
    summary, else the empty string. *)
Definition raw_content (e : Entry) : string :=
  match entry_content e with
  | block :: _ => match block with Some v => v | None => EmptyString end
  | [] => match entry_summary e with Some s => s | None => EmptyString end
  end.

(** The body of the loop of [fetch_feed] for one entry; None when it
    raises.  The clock is read only when no date was parsed. *)
Definition article_of_entry (feed : Feed) (e : Entry) (w : World) : World * option Article :=
  match published_of e with
  | None => (w, None)
  | Some published =>
      let raw := raw_content e in
      match (if String.eqb raw EmptyString then Some raw else clean_html raw) with
      | None => (w, None)
      | Some content =>
          let title := match entry_title e with Some t => t | None => "Untitled"%string end in
          let link := match entry_link e with Some u => u | None => EmptyString end in
          let dated :=
            if nonempty published then (w, published)
            else (tick w, Some (clock P (ticks w))) in
          (fst dated,
           Some (mkArticle (Some title) (Some link) (Some (feed_name feed))
                   (snd dated) (Some content)))
      end
  end.

(** The loop over the entries; None as soon as one entry raises. *)
Fixpoint articles_of_entries (feed : Feed) (es : list Entry) (w : World)
  : World * option (list Article) :=
  match es with
  | [] => (w, Some [])
  | e :: rest =>
      match article_of_entry feed e w with
      | (w1, None) => (w1, None)
      | (w1, Some a) =>
          match articles_of_entries feed rest w1 with
          | (w2, Some l) => (w2, Some (a :: l))
          | (w2, None) => (w2, None)
          end
      end
  end.

(** [fetch_feed(feed_config)]: every exception ends in the empty list. *)
Definition fetch_feed (feed : Feed) : M (list Article) :=
  fun w =>
    match feedparser_parse P (ticks w) (feed_url feed) with
    | None => (tick w, Py.Ok [])
    | Some entries =>
        match articles_of_entries feed (firstn MAX_ARTICLES_PER_FEED entries) (tick w) with
        | (w', Some l) => (w', Py.Ok l)
        | (w', None) => (w', Py.Ok [])
        end
    end.

Fixpoint fetch_feeds (feeds : list Feed) : M (list Article) :=
  match feeds with
  | [] => ret []
  | feed :: rest =>
      articles <- fetch_feed feed ;;
      more <- fetch_feeds rest ;;
      ret (articles ++ more)
  end.

(** [fetch_all_feeds()]. *)
Definition fetch_all_feeds : M (list Article) := fetch_feeds FEEDS.

(** [if v:] on what [add_article] returns. *)
Definition truthy_id (r : option Z) : bool :=
  match r with
  | Some i => negb (i =? 0)
  | None => false
  end.

(** The loop of [refresh_feeds], with the count so far. *)
Fixpoint add_new (articles : list Article) (new_count : Z) : M Z :=
  match articles with
  | [] => ret new_count
  | article :: rest =>
      if nonempty (a_url article) then
        r <- add_article P article ;;
        add_new rest (if truthy_id r then new_count + 1 else new_count)
      else add_new rest new_count
  end.

(** [refresh_feeds()]. *)
Definition refresh_feeds : M Z :=
  articles <- fetch_all_feeds ;;
  add_new articles 0.

End Feeds.

(* ================================================================== *)
(** * AI processing *)
(* ================================================================== *)

Definition nl : string := String (ascii_of_nat 10) EmptyString.

(** A double-quoted word of the prompt. *)
Definition quoted (s : string) : string := append Py.dquote (append s Py.dquote).

(** The prompt of [analyze_article] up to the title.  The prompt is text
    for the service and nothing in the program reads it back. *)
Definition prompt_head : string :=
  concat ""
    [ "Analyze this AI news article from an INVESTMENT perspective, focusing on AI bubble indicators.";
      nl; nl; "ARTICLE TITLE: " ]%string.

(** The three characters of the literal after "bullet character": a
    circumflexed a, a euro sign and a cent sign.  The euro sign is a code
    point above 255 and is held as the three bytes of its UTF-8 form, so
    this text is two characters longer than the one of the program. *)
Definition bullet_character : string :=
  String (ascii_of_nat 226)
    (String (ascii_of_nat 226) (String (ascii_of_nat 130) (String (ascii_of_nat 172)
       (String (ascii_of_nat 162) EmptyString)))).

(** The prompt after the content. *)
Definition prompt_tail : string :=
  concat ""
    [ nl; nl; "Provide analysis in JSON format:"; nl; "{"; nl;
      "    "; quoted "summary"; ": ";
      quoted (append "2-3 bullet points summarizing key points (use bullet character "
                (append bullet_character ")")); ","; nl;
      "    "; quoted "category"; ": ";
      quoted "One of: AI Funding | AI Valuations | AI Layoffs | AI Products | AI Research | AI Regulation | AI Market";
      ","; nl;
      "    "; quoted "sentiment"; ": ";
      quoted "Bullish (positive for AI investment), Neutral, or Bearish (bubble warning signs)";
      ","; nl;
      "    "; quoted "sentiment_score"; ": -1.0 to 1.0 (bearish to bullish),"; nl;
      "    "; quoted "bubble_indicators"; ": [";
      quoted "list"; ", "; quoted "of"; ", "; quoted "bubble"; ", "; quoted "warning"; ", ";
      quoted "signs"; ", "; quoted "if"; ", "; quoted "any"; "],"; nl;
      "    "; quoted "investment_relevance"; ": ";
      quoted "Brief note on why this matters for AI investors"; nl;
      "}"; nl; nl;
      "Focus on identifying:"; nl;
      "- Overvaluation signals (excessive funding, unrealistic valuations)"; nl;
      "- Market correction signs (layoffs, funding pullback, failed products)"; nl;
      "- Hype vs reality gaps"; nl;
      "- Sustainable growth indicators" ]%string.

Definition build_prompt (title content : string) : string :=
  concat "" [ prompt_head; title; nl; "CONTENT: "; content; prompt_tail ]%string.

Section Enrichment.

Variable P : Platform.

(** The reply handling of [analyze_article]: the text from the first
    opening brace to the last closing brace, when there is one. *)
Definition json_span (response : string) : option string :=
  let start := Py.find "{" response in
  let end_ := Py.rfind "}" response + 1 in
  if (0 <=? start) && (start <? end_) then Some (Py.slice response start end_)
  else None.

(** What [analyze_article] returns for a reply: the decoded span, or None
    when there is no span or [json.loads] raises. *)
Definition parse_reply (response : string) : Py.value :=
  match json_span response with
  | Some span =>
      match json_loads P span with
      | Some v => v
      | None => Py.PNone
      end
  | None => Py.PNone
  end.

(** [analyze_article(article)].  The client is made and the prompt is
    built before the [try]: an exception of the constructor escapes, and so
    does the TypeError of slicing a NULL content.  Inside the [try] every
    exception ends in None. *)
Definition analyze_article (article : Row) : M Py.value :=
  fun w =>
    if String.eqb (API_KEY w) EmptyString || negb (HAS_ANTHROPIC P) then (w, Py.Ok Py.PNone)
    else
      match Anthropic P (API_KEY w) with
      | Some e => (w, Py.Raise e)
      | None =>
          match content article with
          | None => (w, Py.Raise Py.TypeError)
          | Some c =>
              let prompt := build_prompt (title article) (Py.prefix_to 2500 c) in
              match messages_create P (ticks w) prompt with
              | Some response => (sent prompt w, Py.Ok (parse_reply response))
              | None => (sent prompt w, Py.Ok Py.PNone)
              end
          end
      end.

(** The field map [process_unanalyzed] hands to [update_article]. *)
Definition analysis_fields (result : Py.value) : Py.result (list (string * Py.value)) :=
  match Py.get result "bubble_indicators" (Py.PList []) with
  | Py.Raise e => Py.Raise e
  | Py.Ok bubble0 =>
      let bubble :=
        if Py.isinstance_list bubble0 then Py.PStr (Py.dumps (float_repr P) bubble0)
        else bubble0 in
      match Py.get result "summary" Py.PNone, Py.get result "category" Py.PNone,
            Py.get result "sentiment" Py.PNone, Py.get result "sentiment_score" Py.PNone with
      | Py.Ok s, Py.Ok c, Py.Ok se, Py.Ok sc =>
          Py.Ok [ ("summary", s); ("category", c); ("sentiment", se);
                  ("sentiment_score", sc); ("bubble_indicators", bubble) ]%string
      | _, _, _, _ => Py.Raise Py.AttributeError
      end
  end.

(** The body of the loop of [process_unanalyzed] for one article: whether
    it was processed. *)
Definition process_one (article : Row) : M bool :=
  result <- analyze_article article ;;
  if Py.truthy result then
    updates <- lift (analysis_fields result) ;;
    update_article P (id article) updates ;;;
    ret true
  else ret false.

Fixpoint process_each (articles : list Row) (processed : Z) : M Z :=
  match articles with
  | [] => ret processed
  | article :: rest =>
      done <- process_one article ;;
      process_each rest (if done then processed + 1 else processed)
  end.

(** [process_unanalyzed()]. *)
Definition process_unanalyzed : M Z :=
  articles <- get_unprocessed_articles 5 ;;
  process_each articles 0.

(** ** Routes *)

Inductive request : Type :=
| ApiArticles (limit : Z) (sentiment_filter category_filter : option string)
| ApiArticle (article_id : Z)
| ApiRefresh
| ApiAnalyze
| ApiConfig (api_key : option string).

(** What a request does to the process; the response is left out.  The
    two routes that only read, the index page and [/api/stats], are left
    out with it.  [ApiConfig None] is a GET, or a POST without the key. *)
Definition handle (req : request) : M unit :=
  match req with
  | ApiArticles limit s c => get_articles limit s c ;;; ret tt
  | ApiArticle article_id =>
      article <- get_article article_id ;;
      match article with
      | Some _ => update_article P article_id [("is_read"%string, Py.PInt 1)]
      | None => ret tt
      end
  | ApiRefresh => refresh_feeds P ;;; ret tt
  | ApiAnalyze =>
      fun w =>
        if String.eqb (API_KEY w) EmptyString then (w, Py.Ok tt)
        else (process_unanalyzed ;;; ret tt) w
  | ApiConfig (Some key) => fun w => (set_key key w, Py.Ok tt)
  | ApiConfig None => ret tt
  end.

(** The states the process goes through: it starts on an empty database
    with the configured key, and serves one request after another. *)
Inductive reachable : World -> Prop :=
| reach_start : forall key, reachable (mkWorld Sql.empty key 0 [])
| reach_step : forall w req, reachable w -> reachable (fst (handle req w)).

End Enrichment.

(* ================================================================== *)
(** * More of app.py: statistics and the detail view *)
(* ================================================================== *)

Section Reads.

Variable P : Platform.

(** The order of two stored numbers, an integer and a float, by value. *)
Definition compare_int_real (z : Z) (f : float) : comparison :=
  match Prim2SF f with
  | S754_zero _ => Z.compare z 0
  | S754_infinity negative => if negative then Gt else Lt
  | S754_nan => Lt
  | S754_finite negative m e =>
      let v := if negative then Z.neg m else Z.pos m in
      if 0 <=? e then Z.compare z (v * 2 ^ e) else Z.compare (z * 2 ^ (- e)) v
  end.

(** SQLite's order of two values that are not NULL: numbers by value and
    before text, text byte by byte. *)
Definition compare_storage (a b : storage) : comparison :=
  match a, b with
  | VInt x, VInt y => Z.compare x y
  | VInt x, VReal g => compare_int_real x g
  | VReal f, VInt y => CompOpp (compare_int_real y f)
  | VReal f, VReal g =>
      match PrimFloat.compare f g with
      | FLt => Lt
      | FGt => Gt
      | _ => Eq
      end
  | VText s, VText t => String.compare s t
  | VText _, _ => Gt
  | _, VText _ => Lt
  end.

(** One more row for a group: its count goes up, or the group is opened
    at its place in the order of the keys. *)
Fixpoint count_in (k : storage) (groups : list (storage * Z)) : list (storage * Z) :=
  match groups with
  | [] => [(k, 1)]
  | (k', n) :: rest =>
      match compare_storage k k' with
      | Eq => (k', n + 1) :: rest
      | Lt => (k, 1) :: groups
      | Gt => (k', n) :: count_in k rest
      end
  end.

(** [SELECT c, COUNT( * ) FROM articles WHERE c IS NOT NULL GROUP BY c]:
    the groups with their counts, in the order of their keys. *)
Fixpoint group_counts (column : Row -> sqlval) (rs : list Row) : list (storage * Z) :=
  match rs with
  | [] => []
  | r :: rest =>
      match column r with
      | Some k => count_in k (group_counts column rest)
      | None => group_counts column rest
      end
  end.

(** [ORDER BY count DESC].  SQL leaves the order of groups of equal count
    to the engine; SQLite's sorter hands them out in the reverse of the
    order they came in, so the later key first. *)
Definition by_count_desc (groups : list (storage * Z)) : list (storage * Z) :=
  order_by (fun a b => snd b <=? snd a) (rev groups).

(** The dict a loop [d[row[key]] = row['count']] builds from the rows of a
    grouped query, as its items in order. *)
Definition stats_dict (groups : list (storage * Z)) : list (Py.value * Z) :=
  map (fun g => (to_py (Some (fst g)), snd g)) groups.

(** What [get_stats] returns. *)
Record Stats : Type := mkStats {
  stats_sentiment : list (Py.value * Z);
  stats_categories : list (Py.value * Z);
  stats_total : Z
}.

(** [get_stats()]. *)
Definition get_stats : M Stats :=
  fun w =>
    (w, Py.Ok (mkStats
                 (stats_dict (group_counts sentiment (rows (db w))))
                 (stats_dict (by_count_desc (group_counts category (rows (db w)))))
                 (Z.of_nat (List.length (rows (db w)))))).

(** [api_article(article_id)], with its response: the article, or None
    for the 404. *)
Definition api_article (article_id : Z) : M (option Row) :=
  article <- get_article article_id ;;
  match article with
  | Some r => update_article P article_id [("is_read"%string, Py.PInt 1)] ;;; ret (Some r)
  | None => ret None
  end.

(** [api_analyze()], with the count of its response. *)
Definition api_analyze : M Z :=
  fun w =>
    if String.eqb (API_KEY w) EmptyString then (w, Py.Ok 0)
    else process_unanalyzed P w.

End Reads.

(* ================================================================== *)
(** * A platform to run the program on *)
(* ================================================================== *)

(** The concrete runs below need a platform.  This one has a feed with one
    entry, a clock that advances by a microsecond per step, a parser for
    documents made of text and tags, and a service that always sends the
    same reply and whose client is always made; it prints no float and
    moves no value to another storage class.  Of the keys that are not one
    of the six names its SQLite is asked about one only, nosuchcolumn, which
    is no column of the table and which it refuses. *)
Module Demo.

Local Open Scope string_scope.

(** The strings of a document made of text and tags only: what lies
    outside the angle brackets, cut at every tag. *)
Fixpoint text_nodes (in_tag : bool) (acc : string) (s : string) : list string :=
  let flush := if String.eqb acc EmptyString then [] else [acc] in
  match s with
  | EmptyString => flush
  | String c rest =>
      if in_tag then text_nodes (negb (Ascii.eqb c ">")) EmptyString rest
      else if Ascii.eqb c "<" then (flush ++ text_nodes true EmptyString rest)%list
      else text_nodes false (append acc (String c EmptyString)) rest
  end.

(** [n] copies of a character. *)
Fixpoint replicate (n : nat) (c : ascii) : string :=
  match n with
  | O => EmptyString
  | S m => String c (replicate m c)
  end.

(** Three replies of the classification service, with their decodings. *)
Definition reply_summary_only : string :=
  concat "" [ "{"; quoted "summary"; ": "; quoted "s"; "}" ].

Definition reply_off_label : string :=
  concat ""
    [ "{"; quoted "summary"; ": "; quoted "s"; ", ";
      quoted "category"; ": "; quoted "Crypto"; ", ";
      quoted "sentiment"; ": "; quoted "Happy"; ", ";
      quoted "sentiment_score"; ": 5, ";
      quoted "bubble_indicators"; ": []}" ].

Definition scenario_members : string :=
  concat ""
    [ quoted "summary"; ":"; quoted "s"; ",";
      quoted "category"; ":"; quoted "AI Market"; ",";
      quoted "sentiment"; ":"; quoted "Bullish"; ",";
      quoted "sentiment_score"; ":0.5,";
      quoted "bubble_indicators"; ":["; quoted "x"; "]" ].

Definition reply_scenario : string :=
  append "{" (append scenario_members "}").

Definition decoded_scenario : Py.value :=
  Py.PDict [ ("summary", Py.PStr "s"); ("category", Py.PStr "AI Market");
             ("sentiment", Py.PStr "Bullish"); ("sentiment_score", Py.PFloat 0.5);
             ("bubble_indicators", Py.PList [Py.PStr "x"]) ].

(** [json.loads] on the three replies; it is not asked about another
    text in the runs below. *)
Definition loads (s : string) : option Py.value :=
  if String.eqb s reply_summary_only then
    Some (Py.PDict [ ("summary", Py.PStr "s") ])
  else if String.eqb s reply_off_label then
    Some (Py.PDict [ ("summary", Py.PStr "s"); ("category", Py.PStr "Crypto");
                     ("sentiment", Py.PStr "Happy"); ("sentiment_score", Py.PInt 5);
                     ("bubble_indicators", Py.PList []) ])
  else if String.eqb s reply_scenario then Some decoded_scenario
  else None.

(** The entry of the scenario of the specification. *)
Definition entry1 : Entry :=
  mkEntry (Some "T1") (Some "http://a/1") None None []
    (Some "<p>Hello <b>world</b></p>").

Definition microseconds (n : nat) : string :=
  let digits := NilZero.string_of_uint (Nat.to_uint n) in
  append (substring 0 (6 - String.length digits) "000000") digits.

Definition platform (reply : string) : Platform :=
  mkPlatform
    (fun _ => "0.0")
    (fun _ x => x)
    loads
    (fun s => Some (text_nodes false EmptyString s))
    (fun _ => None)
    true
    (fun n => append "2026-01-01T00:00:00." (microseconds n))
    (fun _ u =>
       if String.eqb u "https://www.technologyreview.com/feed/" then Some [entry1]
       else None)
    (fun _ _ => Some reply)
    (fun _ => None)
    (fun _ _ _ _ => Py.Raise Py.OperationalError).

(** The process at its start, without a key. *)
Definition start : World := mkWorld Sql.empty ANTHROPIC_API_KEY 0 [].

(** After one refresh: the entry of the feed is article 1. *)
Definition fetched : World := fst (handle (platform "") ApiRefresh start).

(** ... and with a key configured. *)
Definition keyed : World :=
  fst (handle (platform "") (ApiConfig (Some "sk-test")) fetched).

Definition article1 : Sql.Row :=
  Sql.mkRow 1 "T1" "http://a/1" "MIT Technology Review"
    (Some "2026-01-01T00:00:00.000002") "2026-01-01T00:00:00.000007"
    (Some "Hello world") None None None None None (Some (Sql.VInt 0)).

(** What three requests lead to: a refresh, a key, an analysis. *)
Definition analyzed (P : Platform) : World :=
  fst (handle P ApiAnalyze
         (fst (handle P (ApiConfig (Some "sk-test")) (fst (handle P ApiRefresh start))))).

(** Article 1 with the analysis columns given. *)
Definition analyzed1 (s c se sc b : Sql.sqlval) : Sql.Row :=
  Sql.mkRow 1 "T1" "http://a/1" "MIT Technology Review"
    (Some "2026-01-01T00:00:00.000002") "2026-01-01T00:00:00.000007"
    (Some "Hello world") s c se sc b (Some (Sql.VInt 0)).

(** The payload of the scenario, a second time. *)
Definition payload1 : Article :=
  mkArticle (Some "T1") (Some "http://a/1") (Some "MIT Technology Review") None
    (Some "Hello world").

(** The JSON text of the sequence of the scenario. *)
Definition text_x_y : string :=
  concat "" [ "["; quoted "x"; ", "; quoted "y"; "]" ].

End Demo.

(* ================================================================== *)
(** * The vocabulary of the properties *)
(* ================================================================== *)

Import Py.

Unset Implicit Arguments.

(** ** Rows and stores *)

(** The number of rows that hold a url. *)
Definition url_count (u : string) (d : Store) : nat :=
  List.length (filter (fun r => String.eqb (url r) u) (rows d)).

(** The UNIQUE constraint, as a property of the table. *)
Definition urls_unique (d : Store) : Prop := NoDup (map url (rows d)).

(** A payload that breaks a constraint of the table: a NOT NULL column
    left null, or a url that is already stored. *)
Definition violates (d : Store) (a : Article) : Prop :=
  a_title a = None \/ a_url a = None \/ a_source a = None \/
  (exists u, a_url a = Some u /\ In u (map url (rows d))).

(** The rows [get_unprocessed_articles] selects, before the limit. *)
Definition unprocessed (d : Store) : list Row :=
  order_by (fun a b => text_desc (fetched_date a) (fetched_date b))
    (filter summary_is_null (rows d)).

(** Most recently fetched first: each article was fetched no earlier than
    every article after it. *)
Definition fetched_descending (l : list Row) : Prop :=
  StronglySorted (fun a b => String.leb (fetched_date b) (fetched_date a) = true) l.

(** Two rows that differ at most in the five analysis columns. *)
Definition same_article (r r' : Row) : Prop :=
  id r' = id r /\ title r' = title r /\ url r' = url r /\ source r' = source r /\
  published_date r' = published_date r /\ fetched_date r' = fetched_date r /\
  content r' = content r /\ is_read r' = is_read r.

(** The five columns of the analysis. *)
Definition analysis_columns : list field :=
  [Summary; Category; Sentiment; Sentiment_score; Bubble_indicators].

(** An article with all five set. *)
Definition enriched (r : Row) : Prop :=
  forall k, In k analysis_columns -> get_field k r <> None.

(** The bound of C8 on one row. *)
Definition content_bounded (r : Row) : Prop :=
  forall c, content r = Some c -> (String.length c <= 3000)%nat.

(** ** Updates *)

(** Equality of column names. *)
Definition field_eqb (a b : field) : bool :=
  match a, b with
  | Summary, Summary | Category, Category | Sentiment, Sentiment
  | Sentiment_score, Sentiment_score | Bubble_indicators, Bubble_indicators
  | Is_read, Is_read => true
  | _, _ => false
  end.

(** The assignments of one call of [update_article], applied to a row. *)
Fixpoint assign (svs : list (field * sqlval)) (r : Row) : Row :=
  match svs with
  | [] => r
  | (k, v) :: rest => assign rest (set_field k v r)
  end.

(** ... and to the rows of one id, as UPDATE ... WHERE id = ? does. *)
Definition assign_where (i : Z) (svs : list (field * sqlval)) (rs : list Row) : list Row :=
  map (fun r => if id r =? i then assign svs r else r) rs.

(** A value the [sqlite3] module takes as a parameter of [update_article]:
    anything but a dict or an int outside 64 bits (a list is a string by
    the time it is bound).  A str is bound as its UTF-8 form, which every
    string of this development has: its code points are below 256. *)
Definition bindable (v : value) : bool :=
  match v with
  | PDict _ => false
  | PInt z => int64 z
  | _ => true
  end.

(** The names of the six columns. *)
Definition column_names : list string := map key_of updatable.

(** A field map of the six columns as the dict [update_article] is given:
    each value under the name of its column. *)
Definition named (updates : list (field * value)) : list (string * value) :=
  map (fun kv => (key_of (fst kv), snd kv)) updates.

Section Stored.

Variable P : Platform.

(** What [update_article] makes of a value: a list becomes its JSON text,
    the result is bound, and the column applies its affinity. *)
Definition stored (k : field) (v : value) : result sqlval :=
  match bind_param (if isinstance_list v then PStr (dumps (float_repr P) v) else v) with
  | Ok sv => Ok (apply_affinity (sqlite_convert P) (field_affinity k) sv)
  | Raise e => Raise e
  end.

(** The same of a whole field map, in its order; the first value that
    cannot be bound raises. *)
Fixpoint stored_all (updates : list (field * value)) : result (list (field * sqlval)) :=
  match updates with
  | [] => Ok []
  | (k, v) :: rest =>
      match stored k v, stored_all rest with
      | Ok sv, Ok svs => Ok ((k, sv) :: svs)
      | Raise e, _ => Raise e
      | _, Raise e => Raise e
      end
  end.

(** The text [update_article] stores for a sequence of strings. *)
Definition encoded (seq : list string) : string :=
  dumps (float_repr P) (PList (map PStr seq)).

End Stored.

(** ** Results of the analysis *)

(** What [process_unanalyzed] reads in a result under the key of a column:
    the value of the key, and for a missing key None, or the empty list
    for bubble_indicators. *)
Definition held (result : value) (k : field) : value :=
  match result with
  | PDict kv =>
      match lookup (key_of k) kv with
      | Some v => v
      | None => match k with Bubble_indicators => PList [] | _ => PNone end
      end
  | _ => PNone
  end.

(** The values that are stored as NULL. *)
Definition held_null (v : value) : bool :=
  match v with
  | PNone => true
  | PFloat f => PrimFloat.is_nan f
  | _ => false
  end.

(** The five columns with what the result holds for each. *)
Definition held_updates (result : value) : list (field * value) :=
  map (fun k => (k, held result k)) analysis_columns.

(** The labels the prompt asks for. *)
Definition SENTIMENTS : list string := [ "Bullish"; "Neutral"; "Bearish" ]%string.

Definition CATEGORIES : list string :=
  [ "AI Funding"; "AI Valuations"; "AI Layoffs"; "AI Products"; "AI Research";
    "AI Regulation"; "AI Market" ]%string.

(** [-1.0 <= f <= 1.0]. *)
Definition in_unit_range (f : float) : bool :=
  PrimFloat.leb (-1)%float f && PrimFloat.leb f 1%float.

(** A stored label, or NULL; a stored score in the range, or NULL. *)
Definition label_or_null (labels : list string) (v : sqlval) : Prop :=
  v = None \/ exists s, v = Some (VText s) /\ In s labels.

Definition score_or_null (v : sqlval) : Prop :=
  v = None \/ exists f, v = Some (VReal f) /\ in_unit_range f = true.

(** The invariant of C4 on one row. *)
Definition labelled (r : Row) : Prop :=
  label_or_null SENTIMENTS (sentiment r) /\
  label_or_null CATEGORIES (category r) /\
  (sentiment r <> None -> score_or_null (sentiment_score r)).

(** The same of a decoded reply: under each of the three keys a label (a
    number from -1 to 1), None, or nothing. *)
Definition label_value (labels : list string) (v : value) : Prop :=
  v = PNone \/ exists s, v = PStr s /\ In s labels.

(** A float in the range, or one of the integers -1, 0 and 1. *)
Definition score_value (v : value) : Prop :=
  v = PNone \/
  (exists f, v = PFloat f /\ in_unit_range f = true) \/
  (exists z, v = PInt z /\ -1 <= z <= 1).

(** A result that keeps to the labels and the range. *)
Definition conforming (result : value) : Prop :=
  label_value SENTIMENTS (held result Sentiment) /\
  label_value CATEGORIES (held result Category) /\
  score_value (held result Sentiment_score).

(** ** Fetched content and strings *)

(** What [fetch_feed] makes the content of an article: a text of at most
    3000 characters. *)
Definition fetched_article (a : Article) : Prop :=
  exists c, a_content a = Some c /\ (String.length c <= 3000)%nat.

(** Whether a character occurs in a string. *)
Fixpoint contains (c : ascii) (s : string) : bool :=
  match s with
  | EmptyString => false
  | String a rest => Ascii.eqb a c || contains c rest
  end.

(** A reply with a brace pair: [pre], an opening brace, [mid], a closing
    brace, [post]. *)
Definition braces (pre mid post : string) : string :=
  append pre (String "{" (append mid (String "}" post))).

(** The span of the specification, from the first opening brace to the
    last closing brace: the braces around [mid], when [pre] has no opening
    brace and [post] no closing one. *)
Definition span_of (mid : string) : string :=
  String "{" (append mid (String "}" EmptyString)).

(** No whitespace at the start. *)
Definition head_ok (s : string) : bool :=
  match s with
  | EmptyString => true
  | String a _ => negb (isspace a)
  end.

(** No whitespace at the end. *)
Fixpoint last_ok (s : string) : bool :=
  match s with
  | EmptyString => true
  | String a EmptyString => negb (isspace a)
  | String _ rest => last_ok rest
  end.

(** The strings [get_text] joins: stripped and not empty. *)
Definition clean (s : string) : Prop :=
  s <> EmptyString /\ head_ok s = true /\ last_ok s = true.

(** ** How the store changes *)

(** A row as [add_article] writes it. *)
Definition new_row (i : Z) (t u s : string) (pd : option string) (fd : string)
  (c : option string) : Row :=
  mkRow i t u s pd fd c None None None None None (Some (VInt 0)).

(** The histories of a store: rows are appended under the next id and a
    url that is not stored yet, and the six updatable columns of the rows
    of one id are assigned.  Nothing else happens to a store when the
    program runs. *)
Inductive evolves : Store -> Store -> Prop :=
| evolves_refl : forall d, evolves d d
| evolves_insert : forall d d' t u s pd fd c,
    evolves d d' -> ~ In u (map url (rows d')) ->
    evolves d (mkStore (rows d' ++ [new_row (last_id d' + 1) t u s pd fd c])
                 (last_id d' + 1))
| evolves_update : forall d d' i svs,
    evolves d d' ->
    evolves d (mkStore (assign_where i svs (rows d')) (last_id d')).

(** The ids of a store: increasing along the rows, from 1 to the counter. *)
Definition ids_ok (d : Store) : Prop :=
  StronglySorted Z.lt (map id (rows d)) /\
  Forall (fun i => 1 <= i <= last_id d) (map id (rows d)).

(** Two rows that are the same article: all that [add_article] wrote but
    the read flag. *)
Definition same_identity (r r' : Row) : Prop :=
  id r' = id r /\ title r' = title r /\ url r' = url r /\ source r' = source r /\
  published_date r' = published_date r /\ fetched_date r' = fetched_date r /\
  content r' = content r.

(** The read flag set on the rows of one id. *)
Definition mark_read (i : Z) (rs : list Row) : list Row :=
  map (fun r => if id r =? i then set_field Is_read (Some (VInt 1)) r else r) rs.

(** ** Listing *)

(** The filters of [get_articles] on one row: a filter that is given and
    not empty asks for exactly that text in its column. *)
Definition passes (sentiment_filter category_filter : option string) (r : Row) : Prop :=
  (forall x, sentiment_filter = Some x -> x <> EmptyString -> sentiment r = Some (VText x)) /\
  (forall x, category_filter = Some x -> x <> EmptyString -> category r = Some (VText x)).

(** Latest published first, the articles without a date last. *)
Definition published_descending (l : list Row) : Prop :=
  StronglySorted
    (fun a b => nullable_desc (published_date a) (published_date b) = true) l.

(** ** Fetching *)

(** An article as [fetch_feed] makes it: title, url and date are there,
    the source is the name of the feed, the content has at most 3000
    characters. *)
Definition feed_article (feed : Feed) (a : Article) : Prop :=
  a_title a <> None /\ a_url a <> None /\ a_source a = Some (feed_name feed) /\
  a_published_date a <> None /\ fetched_article a.

Section EntryVocabulary.

Variable P : Platform.

(** An entry on which the body of the loop of [fetch_feed] raises: a parsed
    date that [datetime] refuses, or a content that the HTML parser
    refuses. *)
Definition entry_raises (e : Entry) : Prop :=
  published_of P e = None \/
  (raw_content e <> EmptyString /\ clean_html P (raw_content e) = None).

(** The article of an entry: the title or "Untitled", the link or the
    empty string, the name of the feed, the parsed date when there is one,
    and the content, cleaned unless it is empty. *)
Definition describes (feed : Feed) (e : Entry) (a : Article) : Prop :=
  a_title a = Some (match entry_title e with Some t => t | None => "Untitled"%string end) /\
  a_url a = Some (match entry_link e with Some u => u | None => EmptyString end) /\
  a_source a = Some (feed_name feed) /\
  (forall iso, published_of P e = Some (Some iso) -> iso <> EmptyString ->
     a_published_date a = Some iso) /\
  (raw_content e = EmptyString -> a_content a = Some EmptyString) /\
  (raw_content e <> EmptyString -> a_content a = clean_html P (raw_content e)).

End EntryVocabulary.

(** ** A second platform *)

(** The demo platform with a service whose reply is decoded to an object
    that holds a category and nothing else. *)
Definition category_only : Platform :=
  let D := Demo.platform "{}" in
  mkPlatform (float_repr D) (sqlite_convert D)
    (fun _ => Some (PDict [ ("category", PStr "AI Market") ]%string))
    (soup_strings D) (datetime_isoformat D) (HAS_ANTHROPIC D) (clock D)
    (feedparser_parse D) (messages_create D) (Anthropic D) (sqlite_update D).

(** The feed of the demo platform, and one that it cannot parse. *)
Definition demo_feed : Feed :=
  mkFeed "MIT Technology Review" "https://www.technologyreview.com/feed/" "AI Research".

Definition dead_feed : Feed :=
  mkFeed "TechCrunch AI"
    "https://techcrunch.com/category/artificial-intelligence/feed/" "AI Industry".

(** ** Statistics *)

(** The number of rows whose column is not NULL. *)
Definition nonnull_rows (column : Row -> sqlval) (rs : list Row) : Z :=
  Z.of_nat (List.length (filter (fun r => match column r with
                                          | Some _ => true
                                          | None => false
                                          end) rs)).

(** The number of rows whose column holds the text [s]. *)
Definition labelled_rows (column : Row -> sqlval) (s : string) (rs : list Row) : Z :=
  Z.of_nat (List.length (filter (fun r => match column r with
                                          | Some (VText t) => String.eqb t s
                                          | _ => false
                                          end) rs)).

(** The sum of the counts of a dict of counts. *)
Definition sum_counts (A : Type) (items : list (A * Z)) : Z :=
  fold_right (fun item acc => snd item + acc) 0 items.

(** The counts of a dict come in descending order. *)
Definition counts_descending (A : Type) (items : list (A * Z)) : Prop :=
  StronglySorted (fun a b => snd b <= snd a) items.

(** The counts kept for the text [s]. *)
Fixpoint text_sum (s : string) (g : list (storage * Z)) : Z :=
  match g with
  | [] => 0
  | (VText t, n) :: rest => (if String.eqb t s then n else 0) + text_sum s rest
  | _ :: rest => text_sum s rest
  end.

(** What a row with the key [k] adds to the count of the text [s]. *)
Definition adds (s : string) (k : storage) : Z :=
  match k with
  | VText t => if String.eqb t s then 1 else 0
  | _ => 0
  end.

(** After a text key come only greater texts. *)
Definition above (t : string) (e : storage * Z) : Prop :=
  exists u, fst e = VText u /\ String.compare t u = Lt.

Fixpoint texts_ascend (g : list (storage * Z)) : Prop :=
  match g with
  | [] => True
  | (k, _) :: rest =>
      (forall t, k = VText t -> Forall (above t) rest) /\ texts_ascend rest
  end.

(** ** Where the rows come from *)

(** A row that a refresh wrote: its url is not empty, its source is the
    name of a configured feed, and it has a date of publication. *)
Definition from_the_feeds (r : Row) : Prop :=
  url r <> EmptyString /\ In (source r) (map feed_name FEEDS) /\
  published_date r <> None.

(* ================================================================== *)
(** * Properties *)
(* ================================================================== *)

(** ** The runs of the demo platform *)

Lemma demo_fetched_rows : rows (db Demo.fetched) = [Demo.article1].
Proof. vm_compute. reflexivity. Qed.

Lemma demo_keyed_rows : rows (db Demo.keyed) = [Demo.article1].
Proof. vm_compute. reflexivity. Qed.

(** ** Running the monad *)

Ltac run :=
  unfold bind, ret, lift, raise in *; cbn beta iota in *.

Lemma bind_ok (A B : Type) (m : M A) (k : A -> M B) w w' a :
  m w = (w', Ok a) -> bind m k w = k a w'.
Proof. intros H. unfold bind. rewrite H. reflexivity. Qed.

Lemma bind_raise (A B : Type) (m : M A) (k : A -> M B) w w' e :
  m w = (w', Raise e) -> bind m k w = (w', Raise e).
Proof. intros H. unfold bind. rewrite H. reflexivity. Qed.

Arguments bind_ok {A B m} k {w w' a} _.
Arguments bind_raise {A B m} k {w w' e} _.

Lemma get_unprocessed_5 w :
  exists l, get_unprocessed_articles 5 w = (w, Ok l).
Proof. unfold get_unprocessed_articles. run. simpl. eauto. Qed.

(** ** No credential, no enrichment *)

Section NoCredential.

Variable P : Platform.

Lemma analyze_without_key article w :
  API_KEY w = EmptyString -> analyze_article P article w = (w, Ok PNone).
Proof. intros H. unfold analyze_article. rewrite H. reflexivity. Qed.

Lemma process_one_without_key article w :
  API_KEY w = EmptyString -> process_one P article w = (w, Ok false).
Proof.
  intros H. unfold process_one.
  rewrite (bind_ok _ (analyze_without_key article w H)). reflexivity.
Qed.

Lemma process_each_without_key articles :
  forall n w, API_KEY w = EmptyString -> process_each P articles n w = (w, Ok n).
Proof.
  induction articles as [|article rest IH]; intros n w H; simpl.
  - reflexivity.
  - rewrite (bind_ok _ (process_one_without_key article w H)). apply IH, H.
Qed.

(** C7.  With an empty API key the client returns None for every article
    without sending anything, and [process_unanalyzed] returns 0 and leaves
    the whole state as it was: every row of the store, and the list of
    outbound calls. *)
Theorem no_credential_no_enrichment (w : World) :
  API_KEY w = EmptyString ->
  (forall article, analyze_article P article w = (w, Ok PNone)) /\
  process_unanalyzed P w = (w, Ok 0) /\
  rows (db (fst (process_unanalyzed P w))) = rows (db w) /\
  outbound (fst (process_unanalyzed P w)) = outbound w.
Proof.
  intros H.
  assert (Hrun : process_unanalyzed P w = (w, Ok 0)).
  { unfold process_unanalyzed.
    destruct (get_unprocessed_5 w) as [l Hl].
    rewrite (bind_ok _ Hl). apply process_each_without_key, H. }
  split; [intros article; apply analyze_without_key, H|].
  rewrite Hrun. auto.
Qed.

End NoCredential.

(** C7 on the demo platform: article 1 is waiting, the key is empty. *)
Lemma no_credential_no_enrichment_witness :
  API_KEY Demo.fetched = EmptyString /\
  process_unanalyzed (Demo.platform Demo.reply_scenario) Demo.fetched = (Demo.fetched, Ok 0).
Proof.
  split; [reflexivity|].
  apply (no_credential_no_enrichment (Demo.platform Demo.reply_scenario) Demo.fetched).
  reflexivity.
Defined.

(** ** Inserting *)

Lemma existsb_url u rs :
  existsb (fun r => String.eqb (url r) u) rs = true <-> In u (map url rs).
Proof.
  rewrite existsb_exists, in_map_iff. split.
  - intros [r [Hin Heq]]. apply String.eqb_eq in Heq. eauto.
  - intros [r [Heq Hin]]. exists r. split; [assumption|]. now apply String.eqb_eq.
Qed.

Lemma existsb_url_false u rs :
  existsb (fun r => String.eqb (url r) u) rs = false <-> ~ In u (map url rs).
Proof.
  rewrite <- existsb_url. destruct (existsb _ rs); split; congruence.
Qed.

Lemma insert_article_violates d a fetched :
  violates d a -> insert_article a fetched d = None.
Proof.
  unfold violates, insert_article.
  intros [H | [H | [H | [u [Hu Hin]]]]]; try rewrite H.
  - reflexivity.
  - now destruct (a_title a).
  - now destruct (a_title a), (a_url a).
  - rewrite Hu. apply existsb_url in Hin. rewrite Hin.
    now destruct (a_title a), (a_source a).
Qed.

Section Insert.

Variable P : Platform.

Lemma add_article_run a w :
  add_article P a w =
  match insert_article a (clock P (ticks w)) (db w) with
  | Some (d, i) => (set_db d (tick w), Ok (Some i))
  | None => (tick w, Ok None)
  end.
Proof. reflexivity. Qed.

Lemma add_article_violates a w :
  violates (db w) a -> add_article P a w = (tick w, Ok None).
Proof.
  intros H. rewrite add_article_run, (insert_article_violates _ _ _ H). reflexivity.
Qed.

Lemma add_article_fresh a w t u s :
  a_title a = Some t -> a_url a = Some u -> a_source a = Some s ->
  ~ In u (map url (rows (db w))) ->
  add_article P a w =
  (set_db
     (mkStore
        (rows (db w) ++
         [mkRow (last_id (db w) + 1) t u s (a_published_date a) (clock P (ticks w))
            (a_content a) None None None None None (Some (VInt 0))])
        (last_id (db w) + 1))
     (tick w),
   Ok (Some (last_id (db w) + 1))).
Proof.
  intros Ht Hu Hs Hfresh. rewrite add_article_run. unfold insert_article.
  rewrite Ht, Hu, Hs. apply existsb_url_false in Hfresh. rewrite Hfresh. reflexivity.
Qed.

Lemma url_count_unique u rs :
  NoDup (map url rs) -> In u (map url rs) ->
  List.length (filter (fun r => String.eqb (url r) u) rs) = 1%nat.
Proof.
  induction rs as [|r rs IH]; simpl; intros Hnd Hin; [contradiction|].
  inversion Hnd as [|x l Hnotin Hnd']; subst.
  destruct (String.eqb_spec (url r) u) as [Heq | Hne].
  - simpl. f_equal. subst u.
    assert (Hnone : forall l', ~ In (url r) (map url l') ->
                       filter (fun r0 => String.eqb (url r0) (url r)) l' = []).
    { induction l' as [|r' l' IH']; simpl; intros Hn; [reflexivity|].
      destruct (String.eqb_spec (url r') (url r)) as [E | _].
      - exfalso. apply Hn. now left.
      - apply IH'. intros Hc. apply Hn. now right. }
    rewrite (Hnone rs Hnotin). reflexivity.
  - apply IH; [assumption|]. destruct Hin; [contradiction | assumption].
Qed.

Lemma add_article_keeps_unique a w :
  urls_unique (db w) -> urls_unique (db (fst (add_article P a w))).
Proof.
  intros Hu. rewrite add_article_run. unfold insert_article.
  destruct (a_title a) as [t|]; [|exact Hu].
  destruct (a_url a) as [u|]; [|exact Hu].
  destruct (a_source a) as [s|]; [|exact Hu].
  destruct (existsb _ (rows (db w))) eqn:E; [exact Hu|].
  apply existsb_url_false in E.
  unfold urls_unique in *. simpl. rewrite map_app. simpl.
  apply NoDup_rev in Hu. rewrite <- (rev_involutive (map url (rows (db w)) ++ [u])).
  apply NoDup_rev. rewrite rev_app_distr. simpl. constructor; [|assumption].
  rewrite <- in_rev. assumption.
Qed.

(** C3.  On a table whose urls are unique, inserting a payload whose url
    is already stored returns None without raising and leaves the store as
    it was, with exactly one row of that url; and after inserting two
    payloads of one url in succession (the first with a title and a source)
    exactly one row holds the url, the second insert having returned None. *)
Theorem duplicate_insert_is_noop (w : World) (a : Article) (u : string) :
  urls_unique (db w) ->
  a_url a = Some u ->
  (In u (map url (rows (db w))) ->
   snd (add_article P a w) = Ok None /\
   db (fst (add_article P a w)) = db w /\
   url_count u (db (fst (add_article P a w))) = 1%nat) /\
  (a_title a <> None -> a_source a <> None ->
   forall a', a_url a' = Some u ->
     let w1 := fst (add_article P a w) in
     snd (add_article P a' w1) = Ok None /\
     db (fst (add_article P a' w1)) = db w1 /\
     url_count u (db (fst (add_article P a' w1))) = 1%nat).
Proof.
  intros Huniq Hu.
  assert (Hdup : forall w0 a0, urls_unique (db w0) -> a_url a0 = Some u ->
            In u (map url (rows (db w0))) ->
            snd (add_article P a0 w0) = Ok None /\
            db (fst (add_article P a0 w0)) = db w0 /\
            url_count u (db (fst (add_article P a0 w0))) = 1%nat).
  { intros w0 a0 Hq Hu0 Hin.
    rewrite add_article_violates by (right; right; right; eauto).
    repeat split. apply url_count_unique; assumption. }
  split; [apply Hdup; assumption|].
  intros Ht Hs a' Hu' w1.
  apply Hdup; [apply add_article_keeps_unique, Huniq | assumption |].
  subst w1.
  destruct (in_dec string_dec u (map url (rows (db w)))) as [Hin | Hfresh].
  - rewrite add_article_violates by (right; right; right; eauto). exact Hin.
  - destruct (a_title a) as [t|] eqn:Et; [|congruence].
    destruct (a_source a) as [s|] eqn:Es; [|congruence].
    rewrite (add_article_fresh a w t u s Et Hu Es Hfresh). simpl.
    rewrite map_app. apply in_or_app. right. now left.
Qed.

(** C10.  A payload that breaks any constraint of the table (a null title,
    url or source as much as a stored url) gets the one answer None from
    [add_article], which leaves the store as it was; and the loop of
    [refresh_feeds] goes on with its count unchanged. *)
Theorem constraint_violations_share_sentinel (w : World) (a : Article) :
  violates (db w) a ->
  snd (add_article P a w) = Ok None /\
  db (fst (add_article P a w)) = db w /\
  forall rest n, exists w',
    db w' = db w /\ add_new P (a :: rest) n w = add_new P rest n w'.
Proof.
  intros Hv. rewrite (add_article_violates _ _ Hv). repeat split.
  intros rest n. simpl.
  destruct (nonempty (a_url a)).
  - exists (tick w). split; [reflexivity|].
    rewrite (bind_ok _ (add_article_violates _ _ Hv)). reflexivity.
  - exists w. split; reflexivity.
Qed.

End Insert.

Lemma demo_urls_unique : urls_unique (db Demo.fetched).
Proof.
  unfold urls_unique. rewrite demo_fetched_rows. simpl.
  constructor; [simpl; tauto | constructor].
Qed.

(** C3 on the demo platform: article 1 is stored, its payload comes again. *)
Lemma duplicate_insert_is_noop_witness :
  snd (add_article (Demo.platform EmptyString) Demo.payload1 Demo.fetched) = Ok None /\
  db (fst (add_article (Demo.platform EmptyString) Demo.payload1 Demo.fetched)) = db Demo.fetched /\
  url_count "http://a/1"
    (db (fst (add_article (Demo.platform EmptyString) Demo.payload1 Demo.fetched))) = 1%nat.
Proof.
  apply (duplicate_insert_is_noop (Demo.platform EmptyString) Demo.fetched Demo.payload1
           "http://a/1" demo_urls_unique eq_refl).
  rewrite demo_fetched_rows. simpl. now left.
Defined.

(** C10 on the demo platform: a payload without a title. *)
Lemma constraint_violations_share_sentinel_witness :
  snd (add_article (Demo.platform EmptyString)
         (mkArticle None (Some "http://a/2"%string) (Some "s"%string) None None)
         Demo.fetched) = Ok None.
Proof.
  apply (constraint_violations_share_sentinel (Demo.platform EmptyString) Demo.fetched
           (mkArticle None (Some "http://a/2"%string) (Some "s"%string) None None)).
  left. reflexivity.
Defined.

(** ** Ordering and limits *)

Lemma ascii_compare_eq c1 c2 : Ascii.compare c1 c2 = Eq -> c1 = c2.
Proof.
  unfold Ascii.compare. intros H. apply N.compare_eq in H.
  rewrite <- (ascii_N_embedding c1), <- (ascii_N_embedding c2). now f_equal.
Qed.

Lemma string_leb_trans a : forall b c,
  String.leb a b = true -> String.leb b c = true -> String.leb a c = true.
Proof.
  unfold String.leb.
  induction a as [|x a IH]; intros [|y b] [|z c]; simpl; try congruence.
  unfold Ascii.compare.
  destruct (N.compare_spec (N_of_ascii x) (N_of_ascii y)) as [Exy | Lxy | Gxy];
    destruct (N.compare_spec (N_of_ascii y) (N_of_ascii z)) as [Eyz | Lyz | Gyz];
    try congruence; intros Hab Hbc.
  - rewrite Exy, Eyz, N.compare_refl. now apply IH with b.
  - rewrite Exy. apply N.compare_lt_iff in Lyz. now rewrite Lyz.
  - rewrite <- Eyz. apply N.compare_lt_iff in Lxy. now rewrite Lxy.
  - assert (L : (N_of_ascii x < N_of_ascii z)%N) by (etransitivity; eassumption).
    apply N.compare_lt_iff in L. now rewrite L.
Qed.

Section Ordering.

Variable A : Type.
Variable before : A -> A -> bool.
Hypothesis before_total : forall a b, before a b = true \/ before b a = true.
Hypothesis before_trans :
  forall a b c, before a b = true -> before b c = true -> before a c = true.

Lemma insert_sorted_perm a l : Permutation (a :: l) (insert_sorted before a l).
Proof.
  induction l as [|b l IH]; simpl; [reflexivity|].
  destruct (before a b); [reflexivity|].
  rewrite perm_swap. now constructor.
Qed.

Lemma order_by_perm l : Permutation l (order_by before l).
Proof.
  induction l as [|a l IH]; simpl; [constructor|].
  rewrite <- insert_sorted_perm. now constructor.
Qed.

Lemma insert_sorted_sorted a l :
  StronglySorted (fun x y => before x y = true) l ->
  StronglySorted (fun x y => before x y = true) (insert_sorted before a l).
Proof.
  induction l as [|b l IH]; simpl; intros Hs.
  - repeat constructor.
  - inversion Hs as [|x l' Hs' Hall]; subst.
    destruct (before a b) eqn:E.
    + constructor; [assumption|]. constructor; [assumption|].
      eapply Forall_impl; [|exact Hall]. intros c Hc. now apply before_trans with b.
    + constructor; [now apply IH|].
      assert (Hba : before b a = true) by (destruct (before_total a b); congruence).
      eapply Permutation_Forall; [apply insert_sorted_perm|].
      constructor; assumption.
Qed.

Lemma order_by_sorted l :
  StronglySorted (fun x y => before x y = true) (order_by before l).
Proof.
  induction l as [|a l IH]; simpl; [constructor | now apply insert_sorted_sorted].
Qed.

End Ordering.

Lemma firstn_In (A : Type) n : forall (l : list A) x, In x (firstn n l) -> In x l.
Proof.
  induction n as [|n IH]; intros [|a l] x; simpl; try tauto.
  intros [H | H]; [now left | right; now apply IH].
Qed.

Lemma firstn_sorted (A : Type) (R : A -> A -> Prop) n : forall l,
  StronglySorted R l -> StronglySorted R (firstn n l).
Proof.
  induction n as [|n IH]; intros [|a l] Hs; simpl; try constructor.
  - inversion Hs; subst. now apply IH.
  - inversion Hs as [|x l' Hs' Hall]; subst.
    rewrite Forall_forall in *. intros b Hb. apply Hall.
    now apply (firstn_In A n).
Qed.

Lemma limit_rows_In (A : Type) n (l : list A) x : In x (limit_rows n l) -> In x l.
Proof. unfold limit_rows. destruct (n <? 0); [tauto | apply firstn_In]. Qed.

Lemma limit_rows_sorted (A : Type) (R : A -> A -> Prop) n (l : list A) :
  StronglySorted R l -> StronglySorted R (limit_rows n l).
Proof. unfold limit_rows. destruct (n <? 0); [tauto | apply firstn_sorted]. Qed.

Lemma limit_rows_length (A : Type) n (l : list A) :
  0 <= n -> Z.of_nat (List.length (limit_rows n l)) <= n.
Proof.
  intros Hn. unfold limit_rows. destruct (Z.ltb_spec n 0) as [Hlt | _]; [lia|].
  pose proof (firstn_le_length (Z.to_nat n) l). lia.
Qed.

Lemma unprocessed_sorted d : fetched_descending (unprocessed d).
Proof.
  unfold fetched_descending, unprocessed.
  apply (order_by_sorted Row (fun a b => text_desc (fetched_date a) (fetched_date b))).
  - intros a b. unfold text_desc.
    destruct (String.leb_total (fetched_date a) (fetched_date b)); tauto.
  - intros a b c. unfold text_desc. intros Hab Hbc.
    now apply string_leb_trans with (fetched_date b).
Qed.

Lemma unprocessed_In d r :
  In r (unprocessed d) <-> In r (rows d) /\ summary r = None.
Proof.
  unfold unprocessed. split.
  - intros H. apply (Permutation_in r (Permutation_sym (order_by_perm Row _ _))) in H.
    apply filter_In in H. destruct H as [Hin Hs]. split; [assumption|].
    unfold summary_is_null in Hs. now destruct (summary r).
  - intros [Hin Hs]. apply (Permutation_in r (order_by_perm Row _ _)).
    apply filter_In. split; [assumption|]. unfold summary_is_null. now rewrite Hs.
Qed.

Lemma get_unprocessed_run limit w :
  int64 limit = true ->
  get_unprocessed_articles limit w = (w, Ok (limit_rows limit (unprocessed (db w)))).
Proof.
  intros H. unfold get_unprocessed_articles, bind, lift, bind_int. rewrite H. reflexivity.
Qed.

Lemma get_unprocessed_overflow limit w :
  int64 limit = false -> get_unprocessed_articles limit w = (w, Raise OverflowError).
Proof.
  intros H. unfold get_unprocessed_articles, bind, lift, bind_int. rewrite H. reflexivity.
Qed.

(** C5, as the code has it.  For a limit from 0 up to the largest 64-bit
    integer [get_unprocessed_articles] returns, without touching the state,
    at most [limit] articles; and whatever it returns for a limit that is
    not negative are rows of the store with a null summary, most recently
    fetched first.  (A negative limit is no limit to SQLite.) *)
Theorem unprocessed_bounded_null_descending (w : World) (limit : Z) :
  0 <= limit ->
  (limit <= 9223372036854775807 ->
   exists l, get_unprocessed_articles limit w = (w, Ok l)) /\
  (forall l, snd (get_unprocessed_articles limit w) = Ok l ->
     Z.of_nat (List.length l) <= limit /\
     (forall r, In r l -> In r (rows (db w)) /\ summary r = None) /\
     fetched_descending l).
Proof.
  intros Hpos. split.
  - intros Hmax. eexists. apply get_unprocessed_run.
    unfold int64. apply andb_true_intro. split; apply Z.leb_le; lia.
  - intros l Hl. destruct (int64 limit) eqn:E.
    + rewrite (get_unprocessed_run limit w E) in Hl. simpl in Hl.
      injection Hl as <-. split; [|split].
      * apply limit_rows_length, Hpos.
      * intros r Hr. apply unprocessed_In. eapply limit_rows_In, Hr.
      * apply limit_rows_sorted, unprocessed_sorted.
    + rewrite (get_unprocessed_overflow limit w E) in Hl. discriminate.
Qed.

(** C5 on the demo platform, with the limit the program uses. *)
Lemma unprocessed_bounded_null_descending_witness :
  0 <= 5 /\
  exists l, get_unprocessed_articles 5 Demo.fetched = (Demo.fetched, Ok l).
Proof.
  split; [lia|].
  apply (unprocessed_bounded_null_descending Demo.fetched 5); lia.
Defined.

(** C5 as stated fails for a negative limit: with limit -1 the one
    unprocessed article of the demo store is returned, and one is more
    than -1. *)
Lemma negative_limit_returns_all :
  get_unprocessed_articles (-1) Demo.fetched = (Demo.fetched, Ok [Demo.article1]) /\
  (Z.of_nat (List.length [Demo.article1]) <=? -1) = false.
Proof. split; [vm_compute; reflexivity | reflexivity]. Qed.

(** ** Updating *)

Lemma get_set_field k k' v r :
  get_field k' (set_field k v r) = if field_eqb k k' then v else get_field k' r.
Proof. destruct k, k'; reflexivity. Qed.

Lemma set_field_frame k v r :
  id (set_field k v r) = id r /\ title (set_field k v r) = title r /\
  url (set_field k v r) = url r /\ source (set_field k v r) = source r /\
  published_date (set_field k v r) = published_date r /\
  fetched_date (set_field k v r) = fetched_date r /\
  content (set_field k v r) = content r.
Proof. destruct k; repeat split. Qed.

Lemma assign_frame svs : forall r,
  id (assign svs r) = id r /\ title (assign svs r) = title r /\
  url (assign svs r) = url r /\ source (assign svs r) = source r /\
  published_date (assign svs r) = published_date r /\
  fetched_date (assign svs r) = fetched_date r /\
  content (assign svs r) = content r.
Proof.
  induction svs as [|[k v] rest IH]; intros r; simpl; [repeat split|].
  destruct (IH (set_field k v r)) as (H1 & H2 & H3 & H4 & H5 & H6 & H7).
  destruct (set_field_frame k v r) as (G1 & G2 & G3 & G4 & G5 & G6 & G7).
  repeat split; congruence.
Qed.

Section Update.

Variable P : Platform.

Lemma assign_where_cons i k v svs rs :
  assign_where i svs (update_where_id k v i rs) = assign_where i ((k, v) :: svs) rs.
Proof.
  unfold assign_where, update_where_id. rewrite map_map. apply map_ext.
  intros r. destruct (id r =? i) eqn:E; simpl.
  - destruct (set_field_frame k v r) as (Hid & _). rewrite Hid, E. reflexivity.
  - rewrite E. reflexivity.
Qed.

Lemma assign_where_nil i rs : assign_where i [] rs = rs.
Proof.
  unfold assign_where. rewrite <- (map_id rs) at 2. apply map_ext.
  intros r. now destruct (id r =? i).
Qed.

Lemma column_of_key_of k : column_of (key_of k) = Some k.
Proof. destruct k; reflexivity. Qed.

Lemma column_of_some key k : column_of key = Some k -> key = key_of k.
Proof.
  unfold column_of. intros H. apply find_some in H. destruct H as [_ H].
  apply String.eqb_eq in H. now subst.
Qed.

Lemma column_of_names key : In key column_names -> exists k, key = key_of k.
Proof.
  unfold column_names. intros H. apply in_map_iff in H. destruct H as [k [<- _]]. eauto.
Qed.

(** A field map whose keys are names of the six columns. *)
Lemma named_of_columns updates :
  Forall (fun kv : string * value => In (fst kv) column_names) updates ->
  exists fields, updates = named fields.
Proof.
  induction 1 as [|[key v] rest Hk _ [fields ->]]; [exists []; reflexivity|].
  destruct (column_of_names key Hk) as [k ->]. exists ((k, v) :: fields). reflexivity.
Qed.

Lemma named_keys fields : map fst (named fields) = map key_of (map fst fields).
Proof. unfold named. rewrite !map_map. reflexivity. Qed.

Lemma named_values fields :
  Forall (fun kv => bindable (snd kv) = true) (named fields) ->
  Forall (fun kv => bindable (snd kv) = true) fields.
Proof.
  unfold named. intros H. rewrite Forall_map in H. exact H.
Qed.

(** A successful run of the statements is the assignment of the stored
    values to the rows of that id. *)
Lemma update_all_ok i updates : forall d d',
  update_all P i (named updates) d = Ok d' ->
  exists svs, stored_all P updates = Ok svs /\
              d' = mkStore (assign_where i svs (rows d)) (last_id d).
Proof.
  induction updates as [|[k v] rest IH]; simpl; intros d d' H.
  - injection H as <-. exists []. split; [reflexivity|].
    rewrite assign_where_nil. now destruct d.
  - unfold update_one, stored in *. cbn [fst snd] in *. rewrite column_of_key_of in H.
    destruct (bind_param _) as [sv|e]; [|discriminate].
    destruct (bind_int i) as [i'|e] eqn:Ei; [|discriminate].
    assert (i' = i) as ->.
    { unfold bind_int in Ei. destruct (int64 i); congruence. }
    destruct (IH _ _ H) as [svs [Hs Hr]]. rewrite Hs.
    eexists. split; [reflexivity|]. rewrite Hr. cbn [rows last_id].
    now rewrite assign_where_cons.
Qed.

Lemma update_all_run i updates : forall d svs,
  int64 i = true -> stored_all P updates = Ok svs ->
  update_all P i (named updates) d = Ok (mkStore (assign_where i svs (rows d)) (last_id d)).
Proof.
  induction updates as [|[k v] rest IH]; simpl; intros d svs Hi H.
  - injection H as <-. rewrite assign_where_nil. now destruct d.
  - unfold update_one, stored in *. cbn [fst snd] in *. rewrite column_of_key_of.
    destruct (bind_param _) as [sv|e]; [|destruct (stored_all P rest); discriminate].
    unfold bind_int. rewrite Hi.
    destruct (stored_all P rest) as [svs'|e]; [|discriminate].
    injection H as <-. rewrite (IH _ svs' Hi eq_refl). cbn [rows last_id].
    now rewrite assign_where_cons.
Qed.


(** Given a field map of the six columns, [update_article] returns without
    raising or commits nothing. *)
Lemma update_article_cases i updates w :
  (exists svs, stored_all P updates = Ok svs /\
     update_article P i (named updates) w =
       (set_db (mkStore (assign_where i svs (rows (db w))) (last_id (db w))) w, Ok tt)) \/
  (exists e, update_article P i (named updates) w = (w, Raise e)).
Proof.
  unfold update_article.
  destruct (update_all P i (named updates) (db w)) as [d|e] eqn:E.
  - left. destruct (update_all_ok _ _ _ _ E) as [svs [Hs ->]]. eauto.
  - right. eauto.
Qed.

(** Whatever it is given, when [update_article] raises it commits
    nothing. *)
Lemma update_article_raise i updates w e :
  snd (update_article P i updates w) = Raise e -> fst (update_article P i updates w) = w.
Proof.
  unfold update_article. destruct (update_all P i updates (db w)); [discriminate|].
  reflexivity.
Qed.

End Update.

Section UpdateAbsent.

Variable P : Platform.

Lemma stored_bindable k v :
  bindable v = true -> exists sv, stored P k v = Ok sv.
Proof.
  unfold stored. destruct v; simpl; intros H; try discriminate; try rewrite H; eauto.
Qed.

Lemma stored_all_bindable updates :
  Forall (fun kv => bindable (snd kv) = true) updates ->
  exists svs, stored_all P updates = Ok svs.
Proof.
  induction 1 as [|[k v] rest Hv _ [svs IH]]; simpl; [eauto|].
  destruct (stored_bindable k v Hv) as [sv ->]. rewrite IH. eauto.
Qed.



End UpdateAbsent.



(** ** Storing and reading back a sequence *)

Lemma order_by_In (A : Type) (before : A -> A -> bool) l x :
  In x (order_by before l) -> In x l.
Proof.
  intros H. exact (Permutation_in x (Permutation_sym (order_by_perm A before l)) H).
Qed.

Lemma get_articles_In limit s c w l r :
  snd (get_articles limit s c w) = Ok l -> In r l -> In r (rows (db w)).
Proof.
  unfold get_articles, bind, lift. destruct (bind_int limit) as [n|e]; simpl; [|discriminate].
  intros H Hr. injection H as <-.
  apply limit_rows_In, order_by_In, filter_In in Hr. tauto.
Qed.

Lemma get_unprocessed_In limit w l r :
  snd (get_unprocessed_articles limit w) = Ok l -> In r l -> In r (rows (db w)).
Proof.
  unfold get_unprocessed_articles, bind, lift.
  destruct (bind_int limit) as [n|e]; simpl; [|discriminate].
  intros H Hr. injection H as <-.
  apply limit_rows_In, order_by_In, filter_In in Hr. tauto.
Qed.

Lemma dict_row_bubble r :
  lookup "bubble_indicators" (dict_row r) = Some (to_py (bubble_indicators r)).
Proof. reflexivity. Qed.

Section RoundTrip.

Variable P : Platform.

Lemma assign_where_bubble i text rs r :
  In r (assign_where i [(Bubble_indicators, Some (VText text))] rs) ->
  id r = i -> bubble_indicators r = Some (VText text).
Proof.
  unfold assign_where. intros Hin Hid. apply in_map_iff in Hin.
  destruct Hin as [r0 [Hr _]]. destruct (Z.eqb_spec (id r0) i) as [E | Hne].
  - subst r. reflexivity.
  - subst r. contradiction.
Qed.

(** C2, as the code has it.  After a sequence of strings was stored as the
    bubble_indicators of a stored article, [get_article] returns that
    article, and in its dict, as in the dict of that article in any result
    of [get_articles] or [get_unprocessed_articles], bubble_indicators is
    the JSON text of the sequence, a string: the reads do not decode it. *)
Theorem stored_sequence_reads_back_as_text (w : World) (i : Z) (seq : list string) :
  int64 i = true ->
  In i (map id (rows (db w))) ->
  exists w',
    update_article P i [("bubble_indicators"%string, PList (map PStr seq))] w = (w', Ok tt) /\
    (exists r, get_article i w' = (w', Ok (Some r)) /\ id r = i /\
       lookup "bubble_indicators" (dict_row r) = Some (PStr (encoded P seq))) /\
    (forall limit s c l r,
       snd (get_articles limit s c w') = Ok l -> In r l -> id r = i ->
       lookup "bubble_indicators" (dict_row r) = Some (PStr (encoded P seq))) /\
    (forall limit l r,
       snd (get_unprocessed_articles limit w') = Ok l -> In r l -> id r = i ->
       lookup "bubble_indicators" (dict_row r) = Some (PStr (encoded P seq))).
Proof.
  intros Hi Hin.
  set (svs := [(Bubble_indicators, Some (VText (encoded P seq)))]).
  assert (Hs : stored_all P [(Bubble_indicators, PList (map PStr seq))] = Ok svs)
    by reflexivity.
  eexists. split.
  { change [("bubble_indicators"%string, PList (map PStr seq))]
      with (named [(Bubble_indicators, PList (map PStr seq))]).
    unfold update_article. rewrite (update_all_run P i _ _ svs Hi Hs). reflexivity. }
  assert (Hrow : forall r, In r (assign_where i svs (rows (db w))) -> id r = i ->
            lookup "bubble_indicators" (dict_row r) = Some (PStr (encoded P seq))).
  { intros r Hr Hid. rewrite dict_row_bubble.
    now rewrite (assign_where_bubble i (encoded P seq) _ r Hr Hid). }
  split; [|split].
  - unfold get_article, bind, lift, bind_int. rewrite Hi. simpl. unfold select_id.
    destruct (List.find _ _) as [r|] eqn:E.
    + apply find_some in E. destruct E as [Hr Hid]. apply Z.eqb_eq in Hid.
      exists r. repeat split; [assumption | now apply Hrow].
    + exfalso. apply in_map_iff in Hin. destruct Hin as [r0 [Hid0 Hr0]].
      assert (Hr1 : In (if id r0 =? i then assign svs r0 else r0)
                      (assign_where i svs (rows (db w)))).
      { unfold assign_where. apply in_map_iff. eauto. }
      apply (find_none _ _ E) in Hr1. subst i. rewrite Z.eqb_refl in Hr1.
      destruct (assign_frame svs r0) as (Hid & _). rewrite Hid, Z.eqb_refl in Hr1.
      discriminate.
  - intros limit s c l r Hl Hr Hid. apply Hrow; [|assumption].
    exact (get_articles_In limit s c _ l r Hl Hr).
  - intros limit l r Hl Hr Hid. apply Hrow; [|assumption].
    exact (get_unprocessed_In limit _ l r Hl Hr).
Qed.

End RoundTrip.

(** The same run, spelled out on the demo platform. *)
Lemma demo_round_trip :
  let w' :=
    fst (update_article (Demo.platform EmptyString) 1
           [("bubble_indicators"%string, PList [PStr "x"; PStr "y"])] Demo.fetched) in
  exists r,
    get_article 1 w' = (w', Ok (Some r)) /\
    lookup "bubble_indicators" (dict_row r) = Some (PStr Demo.text_x_y).
Proof. eexists. split; vm_compute; reflexivity. Qed.

(** C2 on the demo platform: the sequence of the scenario, on article 1. *)
Lemma stored_sequence_reads_back_as_text_witness :
  exists w',
    update_article (Demo.platform EmptyString) 1
      [("bubble_indicators"%string, PList [PStr "x"; PStr "y"])] Demo.fetched = (w', Ok tt) /\
    exists r, get_article 1 w' = (w', Ok (Some r)) /\ id r = 1 /\
      lookup "bubble_indicators" (dict_row r)
      = Some (PStr (encoded (Demo.platform EmptyString) ["x"; "y"]%string)).
Proof.
  destruct (stored_sequence_reads_back_as_text (Demo.platform EmptyString) Demo.fetched 1
              ["x"; "y"]%string eq_refl) as [w' [Hu [Hg _]]].
  - rewrite demo_fetched_rows. simpl. now left.
  - exists w'. split; assumption.
Defined.

(** C2 as stated fails: what [get_article] returns for bubble_indicators
    after the sequence of the scenario was stored is the string
    ["x", "y"] (with its brackets and quotes), not the sequence. *)
Lemma sequence_reads_back_as_string :
  get_article 1
    (fst (update_article (Demo.platform EmptyString) 1
            [("bubble_indicators"%string, PList [PStr "x"; PStr "y"])] Demo.fetched))
  = (fst (update_article (Demo.platform EmptyString) 1
            [("bubble_indicators"%string, PList [PStr "x"; PStr "y"])] Demo.fetched),
     Ok (Some (set_field Bubble_indicators (Some (VText Demo.text_x_y)) Demo.article1))) /\
  lookup "bubble_indicators"
    (dict_row (set_field Bubble_indicators (Some (VText Demo.text_x_y)) Demo.article1))
  = Some (PStr Demo.text_x_y) /\
  PStr Demo.text_x_y <> PList [PStr "x"; PStr "y"].
Proof. split; [vm_compute; reflexivity | split; [reflexivity | discriminate]]. Qed.

(** ** Enriching one article *)

Section EnrichOne.

Variable P : Platform.

Lemma analyze_article_db article w : db (fst (analyze_article P article w)) = db w.
Proof.
  unfold analyze_article.
  destruct (_ || _); [reflexivity|].
  destruct (Anthropic P (API_KEY w)); [reflexivity|].
  destruct (content article); [|reflexivity].
  destruct (messages_create P (ticks w) _); reflexivity.
Qed.

Lemma stored_encoded k v :
  stored P k (if isinstance_list v then PStr (dumps (float_repr P) v) else v) = stored P k v.
Proof. destruct v; reflexivity. Qed.

Lemma stored_null k v sv :
  stored P k v = Ok sv -> (sv = None <-> held_null v = true).
Proof.
  unfold stored. destruct v as [|b|z|f|s|l|kv]; simpl.
  - intros [= <-]. tauto.
  - intros [= <-]. destruct (field_affinity k); split; discriminate.
  - destruct (int64 z); [|discriminate]. intros [= <-].
    destruct (field_affinity k); split; discriminate.
  - destruct (PrimFloat.is_nan f); intros [= <-]; simpl; [tauto|].
    destruct (field_affinity k); split; discriminate.
  - intros [= <-]. destruct (field_affinity k); split; discriminate.
  - intros [= <-]. destruct (field_affinity k); split; discriminate.
  - discriminate.
Qed.

Lemma analysis_fields_dict result updates :
  analysis_fields P result = Ok updates ->
  (exists kv, result = PDict kv) /\
  exists fields,
    updates = named fields /\
    stored_all P fields = stored_all P (held_updates result).
Proof.
  destruct result; try discriminate. simpl. intros [= <-].
  split; [eauto|].
  eexists [ (Summary, _); (Category, _); (Sentiment, _); (Sentiment_score, _);
            (Bubble_indicators, _) ].
  split; [reflexivity|]. unfold held_updates, held. simpl.
  destruct (lookup "bubble_indicators" kv) as [b|]; [|reflexivity].
  now rewrite (stored_encoded Bubble_indicators b).
Qed.

(** The stored values of an enrichment, column by column. *)
Lemma stored_all_held result svs :
  stored_all P (held_updates result) = Ok svs ->
  exists s c se sc b,
    svs = [ (Summary, s); (Category, c); (Sentiment, se); (Sentiment_score, sc);
            (Bubble_indicators, b) ] /\
    stored P Summary (held result Summary) = Ok s /\
    stored P Category (held result Category) = Ok c /\
    stored P Sentiment (held result Sentiment) = Ok se /\
    stored P Sentiment_score (held result Sentiment_score) = Ok sc /\
    stored P Bubble_indicators (held result Bubble_indicators) = Ok b.
Proof.
  unfold held_updates. simpl.
  destruct (stored P Summary _) as [s|]; [|discriminate].
  destruct (stored P Category _) as [c|]; [|discriminate].
  destruct (stored P Sentiment _) as [se|]; [|discriminate].
  destruct (stored P Sentiment_score _) as [sc|]; [|discriminate].
  destruct (stored P Bubble_indicators _) as [b|]; [|discriminate].
  intros [= <-]. exists s, c, se, sc, b. repeat split.
Qed.

(** One turn of the loop of [process_unanalyzed]: either the article is
    processed, and the rows of its id take the stored values of what the
    result holds, or the store is as it was. *)
Lemma process_one_cases article w :
  (exists result svs,
     snd (analyze_article P article w) = Ok result /\ truthy result = true /\
     stored_all P (held_updates result) = Ok svs /\
     snd (process_one P article w) = Ok true /\
     db (fst (process_one P article w)) =
       mkStore (assign_where (id article) svs (rows (db w))) (last_id (db w))) \/
  (snd (process_one P article w) <> Ok true /\
   db (fst (process_one P article w)) = db w).
Proof.
  unfold process_one, bind, ret, lift.
  pose proof (analyze_article_db article w) as Hdb.
  destruct (analyze_article P article w) as [w1 [result|e]]; simpl in Hdb;
    [|right; split; [discriminate | assumption]].
  destruct (truthy result) eqn:Ht; [|right; split; [discriminate | assumption]].
  destruct (analysis_fields P result) as [updates|e] eqn:Ea;
    [|right; split; [discriminate | assumption]].
  destruct (analysis_fields_dict result updates Ea) as [_ [fields [-> Hs]]].
  destruct (update_article_cases P (id article) fields w1) as [[svs [Hsvs ->]] | [e ->]];
    [|right; split; [discriminate | assumption]].
  left. exists result, svs. rewrite <- Hs. simpl. rewrite Hdb. repeat split; assumption.
Qed.

(** C1, as the code has it.  When a turn of the loop of
    [process_unanalyzed] processes an article, every row of that id keeps
    its other columns, and each of its five analysis columns is null
    exactly when the result holds, under the key of the column, None or a
    NaN (or lacks the key, bubble_indicators apart, which is then stored as
    the text of the empty list): so all five are non-null when the result
    holds a value for each, and otherwise some are set and the others
    null.  When the article is not processed, the store is as it was. *)
Theorem enrichment_writes_what_the_result_holds (article : Row) (w : World) :
  match snd (process_one P article w) with
  | Ok true =>
      exists result f,
        snd (analyze_article P article w) = Ok result /\ truthy result = true /\
        rows (db (fst (process_one P article w))) =
          map (fun r => if id r =? id article then f r else r) (rows (db w)) /\
        forall r,
          same_article r (f r) /\
          (forall k, In k analysis_columns ->
             (get_field k (f r) = None <-> held_null (held result k) = true)) /\
          ((forall k, In k analysis_columns -> held_null (held result k) = false) ->
           enriched (f r))
  | _ => db (fst (process_one P article w)) = db w
  end.
Proof.
  destruct (process_one_cases article w)
    as [(result & svs & Han & Ht & Hs & Hr & Hdb) | [Hr Hdb]].
  - rewrite Hr. exists result, (assign svs).
    split; [assumption|]. split; [assumption|]. split; [now rewrite Hdb|].
    destruct (stored_all_held result svs Hs)
      as (s & c & se & sc & b & -> & Hs1 & Hs2 & Hs3 & Hs4 & Hs5).
    intros r.
    assert (Hnull : forall k, In k analysis_columns ->
              (get_field k (assign [(Summary, s); (Category, c); (Sentiment, se);
                                    (Sentiment_score, sc); (Bubble_indicators, b)] r) = None
               <-> held_null (held result k) = true)).
    { intros k [<- | [<- | [<- | [<- | [<- | []]]]]]; simpl;
        eapply stored_null; eassumption. }
    split; [|split].
    + repeat split.
    + exact Hnull.
    + intros Hall k Hk Hnone. apply (Hnull k Hk) in Hnone.
      rewrite (Hall k Hk) in Hnone. discriminate.
  - destruct (snd (process_one P article w)) as [[|]|e]; [congruence | assumption..].
Qed.

End EnrichOne.

(** ** What the pipelines keep true of every row *)

Lemma substring_0_length n : forall s, (String.length (substring 0 n s) <= n)%nat.
Proof.
  induction n as [|n IH]; intros [|c s]; simpl; try lia.
  specialize (IH s). lia.
Qed.

Lemma substring_0_all n : forall s, (String.length s <= n)%nat -> substring 0 n s = s.
Proof.
  induction n as [|n IH]; intros [|c s]; simpl; intros H; try reflexivity; try lia.
  f_equal. apply IH. lia.
Qed.

Section Fetched.

Variable P : Platform.

Lemma clean_html_length content out :
  clean_html P content = Some out -> (String.length out <= 3000)%nat.
Proof.
  unfold clean_html. destruct (soup_strings P content); [|discriminate].
  intros [= <-]. apply substring_0_length.
Qed.

Lemma article_of_entry_fetched feed e w w' a :
  article_of_entry P feed e w = (w', Some a) -> fetched_article a /\ db w' = db w.
Proof.
  unfold article_of_entry. destruct (published_of P e) as [published|]; [|discriminate].
  destruct (String.eqb (raw_content e) EmptyString) eqn:E.
  - intros [= <- <-]. split; [|now destruct (nonempty published)].
    exists (raw_content e). split; [reflexivity|].
    apply String.eqb_eq in E. rewrite E. simpl. lia.
  - destruct (clean_html P (raw_content e)) as [c|] eqn:Ec; [|discriminate].
    intros [= <- <-]. split; [|now destruct (nonempty published)].
    exists c. split; [reflexivity|]. now apply clean_html_length with (raw_content e).
Qed.

Lemma article_of_entry_db feed e w :
  db (fst (article_of_entry P feed e w)) = db w.
Proof.
  unfold article_of_entry. destruct (published_of P e) as [published|]; [|reflexivity].
  destruct (if String.eqb _ _ then _ else _); [|reflexivity].
  now destruct (nonempty published).
Qed.

Lemma articles_of_entries_fetched feed es : forall w,
  db (fst (articles_of_entries P feed es w)) = db w /\
  forall l, snd (articles_of_entries P feed es w) = Some l -> Forall fetched_article l.
Proof.
  induction es as [|e es IH]; intros w; simpl.
  - split; [reflexivity|]. intros l [= <-]. constructor.
  - pose proof (article_of_entry_db feed e w) as Hdb.
    destruct (article_of_entry P feed e w) as [w1 [a|]] eqn:E; simpl in Hdb;
      [|split; [assumption | discriminate]].
    destruct (IH w1) as [Hdb1 Hl].
    destruct (articles_of_entries P feed es w1) as [w2 [l'|]]; simpl in *;
      [|split; [congruence | discriminate]].
    split; [congruence|]. intros l [= <-]. constructor; [|now apply Hl].
    now destruct (article_of_entry_fetched feed e w w1 a E).
Qed.

Lemma fetch_feed_fetched feed w :
  db (fst (fetch_feed P feed w)) = db w /\
  exists l, snd (fetch_feed P feed w) = Ok l /\ Forall fetched_article l.
Proof.
  unfold fetch_feed. destruct (feedparser_parse P (ticks w) (feed_url feed)) as [entries|].
  - destruct (articles_of_entries_fetched feed (firstn MAX_ARTICLES_PER_FEED entries) (tick w))
      as [Hdb Hl].
    destruct (articles_of_entries P feed _ (tick w)) as [w' [l|]]; simpl in *.
    + split; [assumption|]. exists l. split; [reflexivity | now apply Hl].
    + split; [assumption|]. exists []. split; [reflexivity | constructor].
  - split; [reflexivity|]. exists []. split; [reflexivity | constructor].
Qed.

Lemma fetch_feeds_fetched feeds : forall w,
  db (fst (fetch_feeds P feeds w)) = db w /\
  exists l, snd (fetch_feeds P feeds w) = Ok l /\ Forall fetched_article l.
Proof.
  induction feeds as [|feed rest IH]; intros w; simpl.
  - split; [reflexivity|]. exists []. split; [reflexivity | constructor].
  - unfold bind, ret. destruct (fetch_feed_fetched feed w) as [Hdb [l [Hl Hf]]].
    destruct (fetch_feed P feed w) as [w1 r1]. simpl in *. subst r1.
    destruct (IH w1) as [Hdb1 [l1 [Hl1 Hf1]]].
    destruct (fetch_feeds P rest w1) as [w2 r2]. simpl in *. subst r2. simpl.
    split; [congruence|]. exists (l ++ l1). split; [reflexivity|].
    apply Forall_app. split; assumption.
Qed.

End Fetched.

Section RowInvariant.

Variable P : Platform.

(** A property of rows ... *)
Variable I : Row -> Prop.

(** ... that holds of a fetched article when it is inserted, *)
Hypothesis I_insert :
  forall a i t u s fetched,
    fetched_article a ->
    I (mkRow i t u s (a_published_date a) fetched (a_content a)
         None None None None None (Some (VInt 0))).

(** ... is kept when the article is marked as read, *)
Hypothesis I_read : forall r, I r -> I (set_field Is_read (Some (VInt 1)) r).

(** ... and when the analysis of a reply of the service is written to it. *)
Hypothesis I_enrich :
  forall r n prompt response svs,
    I r -> messages_create P n prompt = Some response ->
    stored_all P (held_updates (parse_reply P response)) = Ok svs ->
    I (assign svs r).

Lemma assign_where_inv i svs rs :
  (forall r, I r -> I (assign svs r)) ->
  Forall I rs -> Forall I (assign_where i svs rs).
Proof.
  intros Hf Hrs. unfold assign_where. apply Forall_map.
  eapply Forall_impl; [|exact Hrs]. intros r Hr. destruct (id r =? i); auto.
Qed.

Lemma add_article_inv a w :
  fetched_article a ->
  Forall I (rows (db w)) -> Forall I (rows (db (fst (add_article P a w)))).
Proof.
  intros Ha Hw. rewrite add_article_run. unfold insert_article.
  destruct (a_title a) as [t|]; [|exact Hw].
  destruct (a_url a) as [u|]; [|exact Hw].
  destruct (a_source a) as [s|]; [|exact Hw].
  destruct (existsb _ (rows (db w))); [exact Hw|].
  simpl. apply Forall_app. split; [exact Hw|]. constructor; [|constructor].
  now apply I_insert.
Qed.

Lemma add_new_inv articles : forall n w,
  Forall fetched_article articles ->
  Forall I (rows (db w)) -> Forall I (rows (db (fst (add_new P articles n w)))).
Proof.
  induction articles as [|a rest IH]; intros n w Ha Hw; simpl; [exact Hw|].
  inversion Ha as [|x l Hx Hl]; subst.
  destruct (nonempty (a_url a)); [|now apply IH].
  unfold bind. pose proof (add_article_inv a w Hx Hw) as H1.
  rewrite add_article_run in *.
  destruct (insert_article a _ (db w)) as [[d i]|]; simpl in *; now apply IH.
Qed.

Lemma refresh_feeds_inv w :
  Forall I (rows (db w)) -> Forall I (rows (db (fst (refresh_feeds P w)))).
Proof.
  intros Hw. unfold refresh_feeds, fetch_all_feeds, bind.
  destruct (fetch_feeds_fetched P FEEDS w) as [Hdb [l [Hl Hf]]].
  destruct (fetch_feeds P FEEDS w) as [w1 r1]. simpl in *. subst r1.
  apply add_new_inv; [assumption | now rewrite Hdb].
Qed.

Lemma analyze_article_result article w result :
  snd (analyze_article P article w) = Ok result ->
  result = PNone \/
  exists n prompt response,
    messages_create P n prompt = Some response /\ result = parse_reply P response.
Proof.
  unfold analyze_article. destruct (_ || _); [intros [= <-]; now left|].
  destruct (Anthropic P (API_KEY w)); [discriminate|].
  destruct (content article); [|discriminate].
  destruct (messages_create P (ticks w) _) as [response|] eqn:E; intros [= <-]; eauto 6.
Qed.

Lemma process_one_inv article w :
  Forall I (rows (db w)) -> Forall I (rows (db (fst (process_one P article w)))).
Proof.
  intros Hw.
  destruct (process_one_cases P article w)
    as [(result & svs & Han & Ht & Hs & _ & ->) | [_ ->]]; [|exact Hw].
  simpl. apply assign_where_inv; [|exact Hw].
  destruct (analyze_article_result article w result Han)
    as [-> | (n & prompt & response & Hreply & ->)]; [discriminate|].
  intros r Hr. now apply I_enrich with n prompt response.
Qed.

Lemma process_each_inv articles : forall n w,
  Forall I (rows (db w)) -> Forall I (rows (db (fst (process_each P articles n w)))).
Proof.
  induction articles as [|a rest IH]; intros n w Hw; simpl; [exact Hw|].
  unfold bind. pose proof (process_one_inv a w Hw) as H1.
  destruct (process_one P a w) as [w1 [done|e]]; simpl in *; [now apply IH | exact H1].
Qed.

Lemma handle_inv req w :
  Forall I (rows (db w)) -> Forall I (rows (db (fst (handle P req w)))).
Proof.
  intros Hw. destruct req as [limit s c | i | | | [key|]]; simpl.
  - unfold get_articles, bind, lift, ret. now destruct (bind_int limit).
  - unfold get_article, bind, lift, ret. destruct (bind_int i) as [i'|e]; [|exact Hw].
    destruct (select_id i' (rows (db w))); [|exact Hw].
    change [("is_read"%string, PInt 1)] with (named [(Is_read, PInt 1)]).
    destruct (update_article_cases P i [(Is_read, PInt 1)] w) as [[svs [Hs ->]] | [e ->]];
      [|exact Hw].
    simpl. apply assign_where_inv; [|exact Hw].
    injection Hs as <-. intros r0 Hr0. now apply I_read.
  - unfold bind, ret. pose proof (refresh_feeds_inv w Hw) as H1.
    now destruct (refresh_feeds P w) as [w1 [n|e]].
  - destruct (String.eqb (API_KEY w) EmptyString); [exact Hw|].
    unfold process_unanalyzed, bind, ret.
    destruct (get_unprocessed_5 w) as [l ->].
    pose proof (process_each_inv l 0 w Hw) as H1.
    now destruct (process_each P l 0 w) as [w1 [n|e]].
  - exact Hw.
  - exact Hw.
Qed.

Lemma reachable_inv w : reachable P w -> Forall I (rows (db w)).
Proof.
  induction 1 as [key | w req _ IH]; [constructor | now apply handle_inv].
Qed.

End RowInvariant.

(** ** The labels of the analysis *)

Section Labels.

Variable P : Platform.

Lemma stored_label labels k v sv :
  field_affinity k = TEXT ->
  label_value labels v -> stored P k v = Ok sv -> label_or_null labels sv.
Proof.
  intros Hk [-> | [s [-> Hs]]]; unfold stored; simpl; try rewrite Hk; intros [= <-].
  - now left.
  - right. eauto.
Qed.

Lemma stored_score v sv :
  score_value v -> stored P Sentiment_score v = Ok sv -> score_or_null sv.
Proof.
  intros [-> | [[f [-> Hf]] | [z [-> Hz]]]]; unfold stored; simpl.
  - intros [= <-]. now left.
  - destruct (PrimFloat.is_nan f); intros [= <-]; [now left|]. right.
    eexists. split; [reflexivity|].
    destruct (PrimFloat.eqb f 0); [reflexivity | exact Hf].
  - destruct (int64 z); [|discriminate]. intros [= <-]. right.
    exists (real_of_int z). split; [reflexivity|].
    assert (Hc : z = -1 \/ z = 0 \/ z = 1) by lia.
    destruct Hc as [-> | [-> | ->]]; reflexivity.
Qed.

(** C4, as the code has it.  The program stores what a reply holds without
    checking it.  Provided what the client parses out of every reply of
    the service holds a sentiment of the three labels, a category of the
    seven labels and a score from -1 to 1 (or None, or nothing, under any
    of these keys), every stored article, at every state the process
    reaches, has a sentiment of the three labels or null, a category of the
    seven or null, and, when its sentiment is not null, a score in
    [-1.0, 1.0] or null. *)
Theorem labels_hold_for_conforming_replies :
  (forall n prompt response,
     messages_create P n prompt = Some response -> conforming (parse_reply P response)) ->
  forall w, reachable P w -> Forall labelled (rows (db w)).
Proof.
  intros Hconf w Hw. apply (reachable_inv P labelled); [| | |exact Hw].
  - intros a i t u s fetched _. repeat split; now left.
  - intros r Hr. exact Hr.
  - intros r n prompt response svs _ Hreply Hs.
    destruct (Hconf n prompt response Hreply) as (Hse & Hc & Hsc).
    destruct (stored_all_held P _ svs Hs)
      as (s & c & se & sc & b & -> & _ & Hs2 & Hs3 & Hs4 & _).
    repeat split; simpl.
    + exact (stored_label SENTIMENTS Sentiment _ se eq_refl Hse Hs3).
    + exact (stored_label CATEGORIES Category _ c eq_refl Hc Hs2).
    + intros _. exact (stored_score _ sc Hsc Hs4).
Qed.

End Labels.

Lemma demo_scenario_conforming n prompt response :
  messages_create (Demo.platform Demo.reply_scenario) n prompt = Some response ->
  conforming (parse_reply (Demo.platform Demo.reply_scenario) response).
Proof.
  intros [= <-]. repeat split.
  - right. exists "Bullish"%string. split; [reflexivity | simpl; tauto].
  - right. exists "AI Market"%string. split; [reflexivity | simpl; tauto].
  - right. left. exists 0.5%float. split; reflexivity.
Qed.

Lemma demo_analyzed_reachable P : reachable P (Demo.analyzed P).
Proof. unfold Demo.analyzed. repeat apply reach_step. apply reach_start. Qed.

(** C4 on the demo platform: the service sends the reply of the scenario,
    and the article it enriches is labelled. *)
Lemma labels_hold_for_conforming_replies_witness :
  Forall labelled
    (rows (db (Demo.analyzed (Demo.platform Demo.reply_scenario)))).
Proof.
  apply (labels_hold_for_conforming_replies
           (Demo.platform Demo.reply_scenario)
           demo_scenario_conforming).
  apply demo_analyzed_reachable.
Defined.

(** That run, spelled out. *)
Lemma demo_scenario_rows :
  rows (db (Demo.analyzed (Demo.platform Demo.reply_scenario)))
  = [ Demo.analyzed1 (Some (VText "s")) (Some (VText "AI Market"))
        (Some (VText "Bullish")) (Some (VReal 0.5))
        (Some (VText (append "[" (append (quoted "x") "]")))) ].
Proof. vm_compute. reflexivity. Qed.

(** C4 as stated fails: when the reply holds the sentiment Happy, the
    category Crypto and the score 5, that is what the stored article
    holds, at a state the process reaches. *)
Lemma off_label_reply_is_stored :
  reachable (Demo.platform Demo.reply_off_label)
    (Demo.analyzed (Demo.platform Demo.reply_off_label)) /\
  rows (db (Demo.analyzed (Demo.platform Demo.reply_off_label)))
  = [ Demo.analyzed1 (Some (VText "s")) (Some (VText "Crypto")) (Some (VText "Happy"))
        (Some (VReal 5)) (Some (VText "[]")) ] /\
  ~ In "Happy"%string SENTIMENTS /\
  ~ In "Crypto"%string CATEGORIES /\
  in_unit_range 5 = false.
Proof.
  split; [apply demo_analyzed_reachable|].
  split; [vm_compute; reflexivity|].
  split; [|split; [|reflexivity]]; simpl; intros H;
    repeat (destruct H as [H | H]; [discriminate|]); exact H.
Qed.

(** C1 as stated fails: a reply that holds a summary and nothing else is
    written as it is.  Article 1 is processed; afterwards its summary and
    its bubble_indicators are set and the three other columns are null, so
    the row is neither enriched nor what it was. *)
Lemma summary_only_reply_sets_two_columns :
  snd (process_unanalyzed (Demo.platform Demo.reply_summary_only) Demo.keyed) = Ok 1 /\
  rows (db Demo.keyed) = [ Demo.article1 ] /\
  rows (db (fst (process_unanalyzed (Demo.platform Demo.reply_summary_only) Demo.keyed)))
  = [ Demo.analyzed1 (Some (VText "s")) None None None (Some (VText "[]")) ] /\
  ~ enriched (Demo.analyzed1 (Some (VText "s")) None None None (Some (VText "[]"))) /\
  Demo.analyzed1 (Some (VText "s")) None None None (Some (VText "[]")) <> Demo.article1.
Proof.
  split; [vm_compute; reflexivity|].
  split; [vm_compute; reflexivity|].
  split; [vm_compute; reflexivity|].
  split.
  - intros H. apply (H Category); [simpl; tauto | reflexivity].
  - discriminate.
Qed.

(** ** Strings: finding, slicing, stripping *)

Lemma append_assoc (a b c : string) : append (append a b) c = append a (append b c).
Proof. induction a as [|x a IH]; simpl; [reflexivity | now rewrite IH]. Qed.

Lemma append_empty_r (a : string) : append a EmptyString = a.
Proof. induction a as [|x a IH]; simpl; [reflexivity | now rewrite IH]. Qed.

Lemma length_append (a b : string) :
  String.length (append a b) = (String.length a + String.length b)%nat.
Proof. induction a as [|x a IH]; simpl; [reflexivity | now rewrite IH]. Qed.

Lemma len_append (a b : string) : len (append a b) = len a + len b.
Proof. unfold len. rewrite length_append. lia. Qed.

Lemma len_nonneg (a : string) : 0 <= len a.
Proof. unfold len. lia. Qed.

Lemma len_String c (a : string) : len (String c a) = len a + 1.
Proof. unfold len. simpl. lia. Qed.

Lemma find_range c s : find c s = -1 \/ 0 <= find c s < len s.
Proof.
  induction s as [|a s IH]; simpl; [now left|].
  rewrite len_String. destruct (Ascii.eqb a c); [right; pose proof (len_nonneg s); lia|].
  destruct (Z.ltb_spec (find c s) 0); [now left | right; lia].
Qed.

Lemma find_absent c s : contains c s = false -> find c s = -1.
Proof.
  induction s as [|a s IH]; simpl; [reflexivity|].
  intros H. apply orb_false_elim in H. destruct H as [Ha Hs].
  rewrite Ha, (IH Hs). reflexivity.
Qed.

Lemma find_append c pre rest :
  contains c pre = false -> find c (append pre (String c rest)) = len pre.
Proof.
  induction pre as [|a pre IH]; simpl; intros H.
  - now rewrite Ascii.eqb_refl.
  - apply orb_false_elim in H. destruct H as [Ha Hp].
    rewrite Ha, (IH Hp), len_String. pose proof (len_nonneg pre).
    destruct (Z.ltb_spec (len pre) 0); lia.
Qed.

Lemma find_split c s :
  0 <= find c s ->
  exists pre rest, s = append pre (String c rest) /\ contains c pre = false.
Proof.
  induction s as [|a s IH]; simpl; [lia|].
  destruct (Ascii.eqb_spec a c) as [-> | Hne].
  - intros _. exists EmptyString, s. split; reflexivity.
  - destruct (Z.ltb_spec (find c s) 0) as [Hlt | Hge]; [lia|]. intros _.
    destruct (IH Hge) as [pre [rest [-> Hp]]].
    exists (String a pre), rest. split; [reflexivity|]. simpl. rewrite Hp.
    apply Ascii.eqb_neq in Hne. now rewrite Hne.
Qed.

Lemma rfind_range c s : rfind c s = -1 \/ 0 <= rfind c s < len s.
Proof.
  induction s as [|a s IH]; simpl; [now left|].
  rewrite len_String. destruct (Z.leb_spec 0 (rfind c s)); [right; lia|].
  destruct (Ascii.eqb a c); [right; pose proof (len_nonneg s); lia | now left].
Qed.

Lemma rfind_absent c s : contains c s = false -> rfind c s = -1.
Proof.
  induction s as [|a s IH]; simpl; [reflexivity|].
  intros H. apply orb_false_elim in H. destruct H as [Ha Hs].
  rewrite Ha, (IH Hs). reflexivity.
Qed.

Lemma rfind_append c a post :
  contains c post = false -> rfind c (append a (String c post)) = len a.
Proof.
  intros H. induction a as [|x a IH]; simpl.
  - now rewrite (rfind_absent c post H), Ascii.eqb_refl.
  - rewrite IH, len_String. pose proof (len_nonneg a).
    destruct (Z.leb_spec 0 (len a)); lia.
Qed.

Lemma rfind_split c s :
  0 <= rfind c s ->
  exists a post, s = append a (String c post) /\ contains c post = false.
Proof.
  induction s as [|x s IH]; simpl; [lia|].
  destruct (Z.leb_spec 0 (rfind c s)) as [Hge | Hlt].
  - intros _. destruct (IH Hge) as [a [post [-> Hp]]].
    exists (String x a), post. split; [reflexivity | assumption].
  - destruct (Ascii.eqb_spec x c) as [-> | Hne]; [|lia]. intros _.
    exists EmptyString, s. split; [reflexivity|].
    destruct (contains c s) eqn:E; [|reflexivity]. exfalso.
    assert (Hex : forall t, contains c t = true -> 0 <= rfind c t).
    { induction t as [|y t IHt]; simpl; [discriminate|].
      destruct (Z.leb_spec 0 (rfind c t)); [lia|].
      destruct (Ascii.eqb y c); simpl; [lia|]. intros Ht. specialize (IHt Ht). lia. }
    specialize (Hex s E). lia.
Qed.

Lemma append_split (pre : string) : forall x a y,
  append pre x = append a y -> (String.length pre <= String.length a)%nat ->
  exists m, a = append pre m /\ x = append m y.
Proof.
  induction pre as [|c pre IH]; simpl; intros x a y H Hl.
  - exists a. split; [reflexivity | assumption].
  - destruct a as [|d a]; simpl in *; [lia|].
    injection H as -> H. destruct (IH x a y H ltac:(lia)) as [m [-> ->]].
    exists m. split; reflexivity.
Qed.

Lemma substring_append (pre : string) : forall x post,
  substring (String.length pre) (String.length x) (append pre (append x post)) = x.
Proof.
  induction pre as [|c pre IH]; simpl; intros x post.
  - revert post. induction x as [|d x IHx]; simpl; intros post.
    + now destruct post.
    + now rewrite IHx.
  - apply IH.
Qed.

Lemma slice_append pre x post :
  slice (append pre (append x post)) (len pre) (len pre + len x) = x.
Proof.
  unfold slice, clamp. rewrite !len_append.
  pose proof (len_nonneg pre). pose proof (len_nonneg x). pose proof (len_nonneg post).
  destruct (Z.ltb_spec (len pre) 0); [lia|].
  destruct (Z.ltb_spec (len pre + len x) 0); [lia|].
  replace (Z.max 0 (Z.min (len pre + (len x + len post)) (len pre))) with (len pre) by lia.
  replace (Z.max 0 (Z.min (len pre + (len x + len post)) (len pre + len x)) - len pre)
    with (len x) by lia.
  unfold len. rewrite !Nat2Z.id. apply substring_append.
Qed.

(** ** The reply of the service *)

Lemma braces_span pre mid post :
  braces pre mid post = append pre (append (span_of mid) post).
Proof. unfold braces, span_of. simpl. now rewrite append_assoc. Qed.

Lemma braces_last pre mid post :
  braces pre mid post = append (append pre (String "{" mid)) (String "}" post).
Proof. unfold braces. now rewrite append_assoc. Qed.

Lemma json_span_found pre mid post :
  contains "{" pre = false -> contains "}" post = false ->
  json_span (braces pre mid post) = Some (span_of mid).
Proof.
  intros Hpre Hpost. unfold json_span.
  assert (Hf : find "{" (braces pre mid post) = len pre)
    by (unfold braces; now apply find_append).
  assert (Hr : rfind "}" (braces pre mid post) = len pre + len mid + 1).
  { rewrite braces_last, (rfind_append "}" _ post Hpost), len_append, len_String. lia. }
  rewrite Hf, Hr. pose proof (len_nonneg pre). pose proof (len_nonneg mid).
  destruct (Z.leb_spec 0 (len pre)); [|lia].
  destruct (Z.ltb_spec (len pre) (len pre + len mid + 1 + 1)); [|lia].
  simpl. f_equal. rewrite braces_span.
  replace (len pre + len mid + 1 + 1) with (len pre + len (span_of mid)).
  - apply slice_append.
  - unfold span_of. rewrite len_String, len_append, len_String. unfold len. simpl. lia.
Qed.

Lemma json_span_inv response span :
  json_span response = Some span ->
  exists pre mid post,
    response = braces pre mid post /\
    contains "{" pre = false /\ contains "}" post = false /\ span = span_of mid.
Proof.
  unfold json_span.
  destruct (Z.leb_spec 0 (find "{" response)) as [Hs|]; [|discriminate].
  destruct (Z.ltb_spec (find "{" response) (rfind "}" response + 1)) as [Hlt|];
    [|discriminate].
  intros Hspan.
  destruct (find_split "{" response Hs) as [pre [rest [E1 Hpre]]].
  destruct (rfind_split "}" response ltac:(lia)) as [a [post [E2 Hpost]]].
  assert (Hf : find "{" response = len pre) by (rewrite E1; now apply find_append).
  assert (Hr : rfind "}" response = len a) by (rewrite E2; now apply rfind_append).
  assert (Hle : (String.length pre <= String.length a)%nat) by (unfold len in *; lia).
  assert (E3 : append pre (String "{" rest) = append a (String "}" post)) by congruence.
  destruct (append_split pre _ a _ E3 Hle) as [m [-> Hm]].
  destruct m as [|c mid]; simpl in Hm; [discriminate|].
  injection Hm as <- ->.
  assert (Eb : response = braces pre mid post) by exact E1.
  exists pre, mid, post. repeat split; try assumption.
  unfold json_span in *.
  pose proof (json_span_found pre mid post Hpre Hpost) as Hfound.
  unfold json_span in Hfound. rewrite <- Eb in Hfound.
  destruct (Z.leb_spec 0 (find "{" response)); [|lia].
  destruct (Z.ltb_spec (find "{" response) (rfind "}" response + 1)); [|lia].
  simpl in *. congruence.
Qed.

Section Reply.

Variable P : Platform.

(** C6.  The client parses the text from the first opening brace of the
    reply to its last closing brace, and nothing else of the reply: a
    reply that is prose, an object in braces, prose, gives what
    [json.loads] makes of the object.  A reply without such a span, or with
    a span that [json.loads] rejects, gives None.  Whatever the service
    replies, and also when the call fails, [analyze_article] returns and
    does not raise (the call is made once the client is made and the
    prompt is built, so the content of the article is a text; an exception
    of the constructor of the client, before any reply, escapes). *)
Theorem reply_is_parsed_between_braces :
  (forall pre mid post,
     contains "{" pre = false -> contains "}" post = false ->
     json_span (braces pre mid post) = Some (span_of mid) /\
     parse_reply P (braces pre mid post)
     = match json_loads P (span_of mid) with Some v => v | None => PNone end) /\
  (forall response,
     (forall pre mid post, response <> braces pre mid post) ->
     parse_reply P response = PNone) /\
  (forall response span,
     json_span response = Some span -> json_loads P span = None ->
     parse_reply P response = PNone) /\
  (forall article w c,
     API_KEY w <> EmptyString -> HAS_ANTHROPIC P = true -> content article = Some c ->
     snd (analyze_article P article w)
     = match Anthropic P (API_KEY w) with
       | Some e => Raise e
       | None =>
           Ok match messages_create P (ticks w)
                      (build_prompt (title article) (prefix_to 2500 c)) with
              | Some response => parse_reply P response
              | None => PNone
              end
       end).
Proof.
  split; [|split; [|split]].
  - intros pre mid post Hpre Hpost.
    pose proof (json_span_found pre mid post Hpre Hpost) as H.
    split; [exact H|]. unfold parse_reply. now rewrite H.
  - intros response Hno. unfold parse_reply.
    destruct (json_span response) as [span|] eqn:E; [|reflexivity].
    destruct (json_span_inv response span E) as (pre & mid & post & Hb & _).
    now elim (Hno pre mid post).
  - intros response span Hs Hl. unfold parse_reply. now rewrite Hs, Hl.
  - intros article w c Hkey Hlib Hc. unfold analyze_article.
    apply String.eqb_neq in Hkey. rewrite Hkey, Hlib, Hc. simpl.
    destruct (Anthropic P (API_KEY w)); [reflexivity|].
    now destruct (messages_create P (ticks w) _).
Qed.

End Reply.

(** C6 on the demo platform: the reply of the scenario of the
    specification, with its prose before and after. *)
Lemma reply_is_parsed_between_braces_witness :
  parse_reply (Demo.platform EmptyString)
    (append "Here you go: " (append Demo.reply_scenario " thanks"))
  = Demo.decoded_scenario.
Proof.
  change (append "Here you go: " (append Demo.reply_scenario " thanks"))
    with (braces "Here you go: " Demo.scenario_members " thanks").
  destruct (proj1 (reply_is_parsed_between_braces (Demo.platform EmptyString))
              "Here you go: "%string Demo.scenario_members " thanks"%string
              eq_refl eq_refl) as [_ ->].
  reflexivity.
Defined.

(** ** Sanitized content *)

Lemma lstrip_head_ok s : head_ok (lstrip s) = true.
Proof.
  induction s as [|a s IH]; simpl; [reflexivity|].
  destruct (isspace a) eqn:E; [assumption|]. simpl. now rewrite E.
Qed.

Lemma lstrip_fixed s : head_ok s = true -> lstrip s = s.
Proof. destruct s as [|a s]; simpl; [reflexivity|]. now destruct (isspace a). Qed.

Lemma rstrip_head_ok s : head_ok s = true -> head_ok (rstrip s) = true.
Proof.
  destruct s as [|a s]; simpl; [reflexivity|]. intros H.
  destruct (rstrip s); simpl; [|assumption].
  destruct (isspace a) eqn:E; simpl in *; [discriminate | now rewrite E].
Qed.

Lemma rstrip_last_ok s : last_ok (rstrip s) = true.
Proof.
  induction s as [|a s IH]; simpl; [reflexivity|].
  destruct (rstrip s) as [|b r] eqn:E.
  - destruct (isspace a) eqn:Ea; simpl; [reflexivity | now rewrite Ea].
  - exact IH.
Qed.

Lemma rstrip_fixed s : last_ok s = true -> rstrip s = s.
Proof.
  induction s as [|a s IH]; simpl; [reflexivity|].
  destruct s as [|b s].
  - simpl. intros H. now destruct (isspace a).
  - intros H. rewrite (IH H). reflexivity.
Qed.

Lemma strip_fixed s : head_ok s = true -> last_ok s = true -> strip s = s.
Proof. intros Hh Hl. unfold strip. now rewrite (lstrip_fixed s Hh), (rstrip_fixed s Hl). Qed.

Lemma strip_ok s : head_ok (strip s) = true /\ last_ok (strip s) = true.
Proof.
  unfold strip. split; [apply rstrip_head_ok, lstrip_head_ok | apply rstrip_last_ok].
Qed.

Lemma head_ok_append x t :
  x <> EmptyString -> head_ok x = true -> head_ok (append x t) = true.
Proof. destruct x; simpl; congruence. Qed.

Lemma last_ok_append x t :
  t <> EmptyString -> last_ok t = true -> last_ok (append x t) = true.
Proof.
  intros Hne Ht. induction x as [|a x IH]; simpl; [assumption|].
  destruct (append x t) eqn:E; [|assumption].
  destruct x; simpl in E; [congruence | discriminate].
Qed.

Lemma stripped_clean strings :
  Forall clean
    (filter (fun s => negb (String.eqb s EmptyString)) (map strip strings)).
Proof.
  apply Forall_forall. intros s Hs. apply filter_In in Hs. destruct Hs as [Hin Hne].
  apply in_map_iff in Hin. destruct Hin as [t [<- _]].
  destruct (strip_ok t) as [Hh Hl]. repeat split; try assumption.
  intros E. rewrite E in Hne. discriminate.
Qed.

Lemma concat_clean l :
  Forall clean l ->
  head_ok (concat " " l) = true /\ last_ok (concat " " l) = true /\
  (l <> [] -> concat " " l <> EmptyString).
Proof.
  induction 1 as [|x l (Hne & Hh & Hl) Hrest (IHh & IHl & IHne)].
  - repeat split. congruence.
  - destruct l as [|y l].
    + simpl. repeat split; auto.
    + assert (Ht : concat " " (y :: l) <> EmptyString) by (apply IHne; discriminate).
      change (concat " " (x :: y :: l))
        with (append x (String " " (concat " " (y :: l)))).
      set (t := concat " " (y :: l)) in *.
      repeat split.
      * now apply head_ok_append.
      * apply last_ok_append; [discriminate|].
        destruct t as [|a s]; [congruence | exact IHl].
      * intros _. destruct x; simpl; [congruence | discriminate].
Qed.

Lemma get_text_ok strings :
  head_ok (get_text strings) = true /\ last_ok (get_text strings) = true.
Proof.
  unfold get_text. destruct (concat_clean _ (stripped_clean strings)) as (H1 & H2 & _).
  split; assumption.
Qed.

Lemma prefix_head_ok n s : head_ok s = true -> head_ok (prefix_to n s) = true.
Proof. unfold prefix_to. destruct n, s; simpl; auto. Qed.

Section Sanitizer.

Variable P : Platform.

(** C8, as the code has it.  The sanitized content is the first 3000
    characters of the text [get_text] makes of the strings of the parsed
    document (each stripped, the empty ones dropped, one space between
    them).  It has at most 3000 characters and no whitespace at its start;
    when the text has at most 3000 characters the content is the whole
    text and has no whitespace at its end either.  When the parser finds
    the strings "Hello " and "world" in the content of the scenario, it is
    sanitized to "Hello world".  And at every state the process reaches,
    every stored content has at most 3000 characters. *)
Theorem sanitized_content_is_bounded_text :
  (forall content out,
     clean_html P content = Some out ->
     exists strings,
       soup_strings P content = Some strings /\
       out = prefix_to 3000 (get_text strings) /\
       (String.length out <= 3000)%nat /\
       lstrip out = out /\
       ((String.length (get_text strings) <= 3000)%nat ->
        out = get_text strings /\ strip out = out)) /\
  (soup_strings P "<p>Hello <b>world</b></p>" = Some [ "Hello "; "world" ]%string ->
   clean_html P "<p>Hello <b>world</b></p>" = Some "Hello world"%string) /\
  (forall w, reachable P w -> Forall content_bounded (rows (db w))).
Proof.
  split; [|split].
  - intros content out H. unfold clean_html in H.
    destruct (soup_strings P content) as [strings|]; [|discriminate].
    injection H as <-. exists strings.
    destruct (get_text_ok strings) as [Hh Hl].
    split; [reflexivity|]. split; [reflexivity|].
    split; [apply substring_0_length|].
    split; [apply lstrip_fixed, prefix_head_ok, Hh|].
    intros Hlen. unfold prefix_to. rewrite (substring_0_all 3000 _ Hlen).
    split; [reflexivity | now apply strip_fixed].
  - intros H. unfold clean_html. rewrite H. reflexivity.
  - intros w Hw. apply (reachable_inv P content_bounded); [| | |exact Hw].
    + intros a i t u s fetched [c [Hc Hlen]] c'. simpl. congruence.
    + intros r Hr c. destruct (set_field_frame Is_read (Some (VInt 1)) r) as (_&_&_&_&_&_&E).
      rewrite E. apply Hr.
    + intros r n prompt response svs Hr _ _ c.
      destruct (assign_frame svs r) as (_&_&_&_&_&_&E).
      rewrite E. apply Hr.
Qed.

End Sanitizer.

(** C8 on the demo platform: the content of the scenario. *)
Lemma sanitized_content_is_bounded_text_witness :
  clean_html (Demo.platform EmptyString) "<p>Hello <b>world</b></p>"
  = Some "Hello world"%string.
Proof.
  apply (proj1 (proj2 (sanitized_content_is_bounded_text (Demo.platform EmptyString)))).
  reflexivity.
Defined.

(** C8 as stated fails at the cut: a text of 2999 letters and then a tag
    with one more gives 3001 characters, and its first 3000 end in the
    space that separated the two strings. *)
Lemma truncated_content_ends_in_space :
  clean_html (Demo.platform EmptyString)
    (append (Demo.replicate 2999 "a") "<b>b</b>")
  = Some (append (Demo.replicate 2999 "a") " ") /\
  strip (append (Demo.replicate 2999 "a") " ") = Demo.replicate 2999 "a" /\
  String.length (append (Demo.replicate 2999 "a") " ") = 3000%nat /\
  String.length (strip (append (Demo.replicate 2999 "a") " ")) = 2999%nat.
Proof. repeat split; vm_compute; reflexivity. Qed.

(** ** The urls of the store stay distinct *)

Section UniqueUrls.

Variable P : Platform.

Lemma assign_where_urls i svs rs : map url (assign_where i svs rs) = map url rs.
Proof.
  unfold assign_where. rewrite map_map. apply map_ext. intros r.
  destruct (id r =? i); [|reflexivity]. now destruct (assign_frame svs r) as (_&_&E&_).
Qed.

Lemma update_article_urls i updates w :
  map url (rows (db (fst (update_article P i (named updates) w)))) = map url (rows (db w)).
Proof.
  destruct (update_article_cases P i updates w) as [[svs [_ ->]] | [e ->]];
    [apply assign_where_urls | reflexivity].
Qed.

Lemma add_new_unique articles : forall n w,
  urls_unique (db w) -> urls_unique (db (fst (add_new P articles n w))).
Proof.
  induction articles as [|a rest IH]; intros n w Hw; simpl; [exact Hw|].
  destruct (nonempty (a_url a)); [|now apply IH].
  unfold bind. pose proof (add_article_keeps_unique P a w Hw) as H1.
  destruct (add_article P a w) as [w1 [r|e]]; simpl in *; [now apply IH | exact H1].
Qed.

Lemma process_each_urls articles : forall n w,
  map url (rows (db (fst (process_each P articles n w)))) = map url (rows (db w)).
Proof.
  induction articles as [|a rest IH]; intros n w; simpl; [reflexivity|].
  unfold bind.
  assert (H1 : map url (rows (db (fst (process_one P a w)))) = map url (rows (db w))).
  { destruct (process_one_cases P a w) as [(result & svs & _ & _ & _ & _ & ->) | [_ ->]];
      [apply assign_where_urls | reflexivity]. }
  destruct (process_one P a w) as [w1 [done|e]]; simpl in *; [|exact H1].
  now rewrite IH.
Qed.

(** At every state the process reaches the urls are distinct, which is
    what C3 asks of the store. *)
Lemma reachable_urls_unique w : reachable P w -> urls_unique (db w).
Proof.
  induction 1 as [key | w req _ IH]; [constructor|].
  destruct req as [limit s c | i | | | [key|]]; simpl.
  - unfold get_articles, bind, lift, ret. now destruct (bind_int limit).
  - unfold get_article, bind, lift, ret. destruct (bind_int i) as [i'|e]; [|exact IH].
    destruct (select_id i' (rows (db w))); [|exact IH].
    change [("is_read"%string, PInt 1)] with (named [(Is_read, PInt 1)]).
    unfold urls_unique. now rewrite update_article_urls.
  - unfold bind, ret, refresh_feeds, fetch_all_feeds, bind.
    destruct (fetch_feeds_fetched P FEEDS w) as [Hdb [l [Hl _]]].
    destruct (fetch_feeds P FEEDS w) as [w1 r1]. simpl in *. subst r1.
    assert (H1 : urls_unique (db (fst (add_new P l 0 w1))))
      by (apply add_new_unique; now rewrite Hdb).
    now destruct (add_new P l 0 w1) as [w2 [n|e]].
  - destruct (String.eqb (API_KEY w) EmptyString); [exact IH|].
    unfold process_unanalyzed, bind, ret.
    destruct (get_unprocessed_5 w) as [l ->].
    pose proof (process_each_urls l 0 w) as H1.
    unfold urls_unique.
    destruct (process_each P l 0 w) as [w1 [n|e]]; simpl in *; now rewrite H1.
  - exact IH.
  - exact IH.
Qed.

End UniqueUrls.

(* ================================================================== *)
(** * More properties of the code *)
(* ================================================================== *)

(** ** The store only grows and is only updated in place *)

Lemma evolves_trans d1 d2 d3 : evolves d1 d2 -> evolves d2 d3 -> evolves d1 d3.
Proof.
  intros H12 H23. induction H23 as [d | d d' t u s pd fd c _ IH Hu | d d' i svs _ IH].
  - exact H12.
  - apply evolves_insert; [now apply IH | exact Hu].
  - apply evolves_update. now apply IH.
Qed.

Lemma store_eta d : mkStore (rows d) (last_id d) = d.
Proof. now destruct d. Qed.

Section Evolution.

Variable P : Platform.

Lemma add_article_evolves a w : evolves (db w) (db (fst (add_article P a w))).
Proof.
  rewrite add_article_run. unfold insert_article.
  destruct (a_title a) as [t|]; [|apply evolves_refl].
  destruct (a_url a) as [u|]; [|apply evolves_refl].
  destruct (a_source a) as [s|]; [|apply evolves_refl].
  destruct (existsb _ (rows (db w))) eqn:E; [apply evolves_refl|].
  apply existsb_url_false in E. simpl.
  apply (evolves_insert (db w) (db w) t u s (a_published_date a) (clock P (ticks w))
           (a_content a) (evolves_refl _) E).
Qed.

Lemma add_new_evolves articles : forall n w,
  evolves (db w) (db (fst (add_new P articles n w))).
Proof.
  induction articles as [|a rest IH]; intros n w; simpl; [apply evolves_refl|].
  destruct (nonempty (a_url a)); [|apply IH].
  unfold bind. pose proof (add_article_evolves a w) as H1.
  destruct (add_article P a w) as [w1 [r|e]]; simpl in *; [|exact H1].
  eapply evolves_trans; [exact H1 | apply IH].
Qed.

Lemma refresh_feeds_evolves w : evolves (db w) (db (fst (refresh_feeds P w))).
Proof.
  unfold refresh_feeds, fetch_all_feeds, bind.
  destruct (fetch_feeds_fetched P FEEDS w) as [Hdb [l [Hl _]]].
  destruct (fetch_feeds P FEEDS w) as [w1 r1]. simpl in *. subst r1.
  rewrite <- Hdb. apply add_new_evolves.
Qed.

Lemma update_article_evolves i updates w :
  evolves (db w) (db (fst (update_article P i (named updates) w))).
Proof.
  destruct (update_article_cases P i updates w) as [[svs [_ ->]] | [e ->]];
    [|apply evolves_refl].
  simpl. apply evolves_update, evolves_refl.
Qed.

Lemma process_one_evolves article w :
  evolves (db w) (db (fst (process_one P article w))).
Proof.
  destruct (process_one_cases P article w)
    as [(result & svs & _ & _ & _ & _ & ->) | [_ ->]]; [|apply evolves_refl].
  apply evolves_update, evolves_refl.
Qed.

Lemma process_each_evolves articles : forall n w,
  evolves (db w) (db (fst (process_each P articles n w))).
Proof.
  induction articles as [|a rest IH]; intros n w; simpl; [apply evolves_refl|].
  unfold bind. pose proof (process_one_evolves a w) as H1.
  destruct (process_one P a w) as [w1 [done|e]]; simpl in *; [|exact H1].
  eapply evolves_trans; [exact H1 | apply IH].
Qed.

Lemma process_unanalyzed_evolves w :
  evolves (db w) (db (fst (process_unanalyzed P w))).
Proof.
  unfold process_unanalyzed, bind. destruct (get_unprocessed_5 w) as [l ->].
  apply process_each_evolves.
Qed.

Lemma handle_evolves req w : evolves (db w) (db (fst (handle P req w))).
Proof.
  destruct req as [limit s c | i | | | [key|]]; simpl; try apply evolves_refl.
  - unfold get_articles, bind, lift, ret. destruct (bind_int limit); apply evolves_refl.
  - unfold get_article, bind, lift, ret.
    destruct (bind_int i) as [i'|e]; [|apply evolves_refl].
    destruct (select_id i' (rows (db w))); [|apply evolves_refl].
    apply (update_article_evolves i [(Is_read, PInt 1)]).
  - unfold bind, ret. pose proof (refresh_feeds_evolves w) as H1.
    now destruct (refresh_feeds P w) as [w1 [n|e]].
  - destruct (String.eqb (API_KEY w) EmptyString); [apply evolves_refl|].
    unfold bind, ret. pose proof (process_unanalyzed_evolves w) as H1.
    now destruct (process_unanalyzed P w) as [w1 [n|e]].
Qed.

Lemma reachable_evolves w : reachable P w -> evolves Sql.empty (db w).
Proof.
  induction 1 as [key | w req _ IH]; [apply evolves_refl|].
  eapply evolves_trans; [exact IH | apply handle_evolves].
Qed.

End Evolution.

Lemma assign_where_ids i svs rs : map id (assign_where i svs rs) = map id rs.
Proof.
  unfold assign_where. rewrite map_map. apply map_ext. intros r.
  destruct (id r =? i); [|reflexivity]. now destruct (assign_frame svs r) as (E&_).
Qed.

Lemma assign_where_length i svs rs :
  List.length (assign_where i svs rs) = List.length rs.
Proof. unfold assign_where. apply length_map. Qed.

Lemma assign_where_identity i svs rs :
  Forall2 same_identity rs (assign_where i svs rs).
Proof.
  induction rs as [|r rs IH]; simpl; constructor; [|exact IH].
  destruct (id r =? i); [apply assign_frame | repeat split].
Qed.

Lemma ids_ok_insert d t u s pd fd c :
  ids_ok d -> 0 <= last_id d ->
  ids_ok (mkStore (rows d ++ [new_row (last_id d + 1) t u s pd fd c]) (last_id d + 1)).
Proof.
  intros [Hs Hb] Hl. unfold ids_ok. simpl. rewrite map_app. simpl. split.
  - clear Hl. induction (map id (rows d)) as [|x l IH]; simpl.
    + repeat constructor.
    + inversion Hs as [|y l' Hs' Hall]; subst. inversion Hb as [|y l' Hx Hb']; subst.
      constructor; [now apply IH|].
      apply Forall_app. split; [exact Hall|]. constructor; [lia | constructor].
  - apply Forall_app. split.
    + eapply Forall_impl; [|exact Hb]. simpl. intros. lia.
    + constructor; [lia | constructor].
Qed.

Lemma evolves_ids_ok d d' :
  evolves d d' -> ids_ok d -> 0 <= last_id d -> ids_ok d' /\ 0 <= last_id d'.
Proof.
  induction 1 as [d | d d' t u s pd fd c _ IH Hu | d d' i svs _ IH]; intros Hok Hl.
  - now split.
  - destruct (IH Hok Hl) as [Hok' Hl']. split; [now apply ids_ok_insert | simpl; lia].
  - destruct (IH Hok Hl) as [Hok' Hl']. split; [|exact Hl'].
    unfold ids_ok in *. simpl. now rewrite assign_where_ids.
Qed.

Lemma sorted_lt_NoDup l : StronglySorted Z.lt l -> NoDup l.
Proof.
  induction 1 as [|x l _ IH Hall]; constructor; [|exact IH].
  intros Hin. rewrite Forall_forall in Hall. specialize (Hall x Hin). lia.
Qed.

Lemma reachable_ids (P : Platform) (w : World) :
  reachable P w -> ids_ok (db w) /\ 0 <= last_id (db w).
Proof.
  intros Hw. apply (evolves_ids_ok Sql.empty (db w) (reachable_evolves P w Hw)).
  - split; constructor.
  - simpl. lia.
Qed.

Lemma demo_fetched_reachable :
  reachable (Demo.platform EmptyString) Demo.fetched.
Proof. unfold Demo.fetched. apply reach_step, reach_start. Qed.

(** X1.  At every state the process reaches, the ids of the stored
    articles increase along the rows, lie between 1 and the counter of the
    table, and so are distinct; an id is never given out twice. *)
Theorem reachable_ids_increase (P : Platform) (w : World) :
  reachable P w ->
  ids_ok (db w) /\ NoDup (map id (rows (db w))) /\ 0 <= last_id (db w).
Proof.
  intros Hw. destruct (reachable_ids P w Hw) as [Hok Hl].
  split; [exact Hok|]. split; [|exact Hl]. apply sorted_lt_NoDup, Hok.
Qed.

(** X1 on the demo platform. *)
Lemma reachable_ids_increase_witness :
  NoDup (map id (rows (db (Demo.analyzed (Demo.platform Demo.reply_scenario))))).
Proof.
  apply (reachable_ids_increase (Demo.platform Demo.reply_scenario)
           (Demo.analyzed (Demo.platform Demo.reply_scenario))).
  apply demo_analyzed_reachable.
Defined.

Lemma evolves_keeps d d' :
  evolves d d' ->
  (List.length (rows d) <= List.length (rows d'))%nat /\
  Forall2 same_identity (rows d) (firstn (List.length (rows d)) (rows d')).
Proof.
  induction 1 as [d | d d' t u s pd fd c _ [IHl IH] Hu | d d' i svs _ [IHl IH]].
  - split; [lia|]. rewrite firstn_all.
    induction (rows d) as [|r rs IHr]; constructor; [repeat split | exact IHr].
  - simpl. rewrite length_app. split; [lia|].
    rewrite firstn_app. replace (_ - _)%nat with 0%nat by lia.
    simpl. now rewrite app_nil_r.
  - simpl. rewrite assign_where_length. split; [exact IHl|].
    unfold assign_where. rewrite firstn_map. fold (assign_where i svs (firstn (List.length (rows d)) (rows d'))).
    remember (firstn (List.length (rows d)) (rows d')) as l eqn:El. clear El.
    revert IH. generalize (rows d). intros l0 H0.
    induction H0 as [|r r' l0 l Hr _ IH0]; simpl; constructor; [|exact IH0].
    destruct (id r' =? i); [|exact Hr].
    destruct (assign_frame svs r') as (E1 & E2 & E3 & E4 & E5 & E6 & E7).
    destruct Hr as (F1 & F2 & F3 & F4 & F5 & F6 & F7).
    repeat split; congruence.
Qed.

(** X2.  Whatever request is served, in whatever state, no stored article
    is removed or moved, and none has its id, title, url, source, dates or
    content changed: the rows of before are the first rows of after, up to
    the analysis columns and the read flag. *)
Theorem requests_keep_articles (P : Platform) (req : request) (w : World) :
  (List.length (rows (db w)) <= List.length (rows (db (fst (handle P req w)))))%nat /\
  Forall2 same_identity (rows (db w))
    (firstn (List.length (rows (db w))) (rows (db (fst (handle P req w))))).
Proof. apply evolves_keeps, handle_evolves. Qed.

(** ** Looking an article up *)

Lemma select_id_absent i rs : ~ In i (map id rs) -> select_id i rs = None.
Proof.
  intros H. unfold select_id. destruct (List.find _ rs) as [r|] eqn:E; [|reflexivity].
  apply find_some in E. destruct E as [Hr Hid]. apply Z.eqb_eq in Hid.
  exfalso. apply H. apply in_map_iff. eauto.
Qed.

Lemma select_id_present i rs :
  In i (map id rs) -> exists r, select_id i rs = Some r /\ In r rs /\ id r = i.
Proof.
  intros H. unfold select_id. destruct (List.find _ rs) as [r|] eqn:E.
  - apply find_some in E. destruct E as [Hr Hid]. apply Z.eqb_eq in Hid. eauto.
  - exfalso. apply in_map_iff in H. destruct H as [r [Hid Hr]].
    apply (find_none _ _ E) in Hr. apply Z.eqb_neq in Hr. contradiction.
Qed.

Lemma select_id_unique i rs r :
  NoDup (map id rs) -> In r rs -> id r = i -> select_id i rs = Some r.
Proof.
  intros Hnd Hr Hid. induction rs as [|x rs IH]; simpl in *; [contradiction|].
  inversion Hnd as [|y l Hnotin Hnd']; subst.
  destruct (Z.eqb_spec (id x) (id r)) as [E | Hne].
  - destruct Hr as [-> | Hr]; [reflexivity|].
    exfalso. apply Hnotin. rewrite E. apply in_map_iff. eauto.
  - destruct Hr as [-> | Hr]; [congruence | now apply IH].
Qed.

Lemma select_id_app_new i rs r :
  ~ In i (map id rs) -> id r = i -> select_id i (rs ++ [r]) = Some r.
Proof.
  intros Habs Hid. unfold select_id. induction rs as [|x rs IH]; simpl in *.
  - subst i. now rewrite Z.eqb_refl.
  - destruct (Z.eqb_spec (id x) i) as [E | _]; [exfalso; apply Habs; now left|].
    apply IH. intros H. apply Habs. now right.
Qed.

Lemma get_article_cases (w : World) (i : Z) :
  (int64 i = false -> get_article i w = (w, Raise OverflowError)) /\
  (int64 i = true -> ~ In i (map id (rows (db w))) -> get_article i w = (w, Ok None)) /\
  (int64 i = true -> In i (map id (rows (db w))) ->
   exists r, get_article i w = (w, Ok (Some r)) /\ In r (rows (db w)) /\ id r = i) /\
  (int64 i = true -> NoDup (map id (rows (db w))) ->
   forall r, In r (rows (db w)) -> id r = i -> get_article i w = (w, Ok (Some r))).
Proof.
  unfold get_article, bind, lift, bind_int. repeat split.
  - intros ->. reflexivity.
  - intros -> H. simpl. now rewrite (select_id_absent i _ H).
  - intros -> H. simpl. destruct (select_id_present i _ H) as [r [-> [Hr Hid]]]. eauto.
  - intros -> Hnd r Hr Hid. simpl. now rewrite (select_id_unique i _ r Hnd Hr Hid).
Qed.

(** X3.  [get_article] tells a missing article from a stored one: for an
    id that no row has it returns None, for an id that a row has it returns
    a row of that id (the only one, when the ids are distinct), and in
    both cases it leaves the state as it was.  An id beyond 64 bits is
    refused by the driver with OverflowError. *)
Theorem get_article_found_or_none (w : World) (i : Z) :
  (int64 i = false -> get_article i w = (w, Raise OverflowError)) /\
  (int64 i = true -> ~ In i (map id (rows (db w))) -> get_article i w = (w, Ok None)) /\
  (int64 i = true -> In i (map id (rows (db w))) ->
   exists r, get_article i w = (w, Ok (Some r)) /\ In r (rows (db w)) /\ id r = i) /\
  (int64 i = true -> NoDup (map id (rows (db w))) ->
   forall r, In r (rows (db w)) -> id r = i -> get_article i w = (w, Ok (Some r))).
Proof. exact (get_article_cases w i). Qed.

(** X3 on the demo platform: article 1 is there, article 2 is not. *)
Lemma get_article_found_or_none_witness :
  get_article 2 Demo.fetched = (Demo.fetched, Ok None) /\
  exists r, get_article 1 Demo.fetched = (Demo.fetched, Ok (Some r)) /\
            In r (rows (db Demo.fetched)) /\ id r = 1.
Proof.
  destruct (get_article_found_or_none Demo.fetched 2) as (_ & H2 & _).
  destruct (get_article_found_or_none Demo.fetched 1) as (_ & _ & H1 & _).
  split.
  - apply H2; [reflexivity|]. rewrite demo_fetched_rows. simpl. intros [H | []]. discriminate.
  - apply H1; [reflexivity|]. rewrite demo_fetched_rows. simpl. now left.
Defined.

Section InsertLookup.

Variable P : Platform.

(** X4.  An article that was inserted can be read back.  On a store with
    ids as [ids_ok] describes, inserting a payload with a title, a source
    and a url that is not stored yet returns the next id, and [get_article]
    of that id then returns the payload as a row: its five values, the time
    of the insert as fetched_date, null analysis columns and the read flag
    0. *)
Theorem inserted_article_is_read_back (w : World) (a : Article) (t u s : string) :
  ids_ok (db w) ->
  int64 (last_id (db w) + 1) = true ->
  a_title a = Some t -> a_url a = Some u -> a_source a = Some s ->
  ~ In u (map url (rows (db w))) ->
  snd (add_article P a w) = Ok (Some (last_id (db w) + 1)) /\
  get_article (last_id (db w) + 1) (fst (add_article P a w))
  = (fst (add_article P a w),
     Ok (Some (new_row (last_id (db w) + 1) t u s (a_published_date a)
                 (clock P (ticks w)) (a_content a)))).
Proof.
  intros [_ Hb] Hi Ht Hu Hs Hfresh.
  rewrite (add_article_fresh P a w t u s Ht Hu Hs Hfresh). split; [reflexivity|].
  unfold get_article, bind, lift, bind_int. rewrite Hi. simpl.
  rewrite select_id_app_new; [reflexivity | | reflexivity].
  intros Hin. rewrite Forall_forall in Hb. specialize (Hb _ Hin). lia.
Qed.

End InsertLookup.

(** X4 on the demo platform: a second article after article 1. *)
Lemma inserted_article_is_read_back_witness :
  snd (add_article (Demo.platform EmptyString)
         (mkArticle (Some "T2") (Some "http://a/2") (Some "S") None None)%string
         Demo.fetched) = Ok (Some 2).
Proof.
  apply (inserted_article_is_read_back (Demo.platform EmptyString) Demo.fetched
           (mkArticle (Some "T2") (Some "http://a/2") (Some "S") None None)%string
           "T2" "http://a/2" "S").
  - apply (reachable_ids (Demo.platform EmptyString)), demo_fetched_reachable.
  - reflexivity.
  - reflexivity.
  - reflexivity.
  - reflexivity.
  - rewrite demo_fetched_rows. simpl. intros [H | []]. discriminate.
Defined.

Section DetailView.

Variable P : Platform.

(** X5.  The detail view of an article marks it as read and answers with
    the article as it was read before the mark: for a stored id (within 64
    bits, ids distinct) the response is the stored row, read flag as it
    was, and afterwards the row of that id has the read flag 1 and every
    other row and column is as before.  For an id that is not stored the
    response is None and nothing changes. *)
Theorem detail_view_marks_read (w : World) (i : Z) :
  int64 i = true ->
  (~ In i (map id (rows (db w))) -> api_article P i w = (w, Ok None)) /\
  (NoDup (map id (rows (db w))) ->
   forall r, In r (rows (db w)) -> id r = i ->
     snd (api_article P i w) = Ok (Some r) /\
     rows (db (fst (api_article P i w))) = mark_read i (rows (db w)) /\
     fst (api_article P i w) = fst (handle P (ApiArticle i) w)).
Proof.
  intros Hi. split.
  - intros Habs. unfold api_article.
    destruct (get_article_cases w i) as (_ & H & _).
    rewrite (bind_ok _ (H Hi Habs)). reflexivity.
  - intros Hnd r Hr Hid. unfold api_article. simpl handle.
    destruct (get_article_cases w i) as (_ & _ & _ & H).
    rewrite !(bind_ok _ (H Hi Hnd r Hr Hid)).
    assert (Hs : stored_all P [(Is_read, PInt 1)] = Ok [(Is_read, Some (VInt 1))])
      by reflexivity.
    assert (Hu : update_article P i [("is_read"%string, PInt 1)] w
                 = (set_db (mkStore (mark_read i (rows (db w))) (last_id (db w))) w, Ok tt)).
    { change [("is_read"%string, PInt 1)] with (named [(Is_read, PInt 1)]).
      unfold update_article. rewrite (update_all_run P i _ _ _ Hi Hs). reflexivity. }
    rewrite (bind_ok _ Hu). rewrite Hu. repeat split.
Qed.

End DetailView.

(** X5 on the demo platform: the first view of article 1. *)
Lemma detail_view_marks_read_witness :
  snd (api_article (Demo.platform EmptyString) 1 Demo.fetched) = Ok (Some Demo.article1) /\
  rows (db (fst (api_article (Demo.platform EmptyString) 1 Demo.fetched)))
  = mark_read 1 (rows (db Demo.fetched)).
Proof.
  destruct (detail_view_marks_read (Demo.platform EmptyString) Demo.fetched 1 eq_refl)
    as [_ H].
  destruct (H (sorted_lt_NoDup _
                 (proj1 (proj1 (reachable_ids (Demo.platform EmptyString) Demo.fetched
                                  demo_fetched_reachable))))
              Demo.article1) as (H1 & H2 & _).
  - rewrite demo_fetched_rows. now left.
  - reflexivity.
  - split; assumption.
Defined.

(** ** Listing articles *)

Lemma equals_text_spec v x : equals_text v x = true <-> v = Some (VText x).
Proof.
  unfold equals_text. destruct v as [[z|f|t]|]; try (split; [discriminate | congruence]).
  rewrite String.eqb_eq. split; congruence.
Qed.

Lemma matches_passes s c r : matches s c r = true <-> passes s c r.
Proof.
  unfold matches, passes. rewrite andb_true_iff. split.
  - intros [Hs Hc]. split; intros x -> Hx; apply String.eqb_neq in Hx;
      rewrite Hx in *; now apply equals_text_spec.
  - intros [Hs Hc]. split.
    + destruct s as [x|]; [|reflexivity].
      destruct (String.eqb_spec x EmptyString) as [|Hx]; [reflexivity|].
      apply equals_text_spec. now apply Hs.
    + destruct c as [x|]; [|reflexivity].
      destruct (String.eqb_spec x EmptyString) as [|Hx]; [reflexivity|].
      apply equals_text_spec. now apply Hc.
Qed.

Lemma nullable_desc_total a b : nullable_desc a b = true \/ nullable_desc b a = true.
Proof.
  destruct a as [x|], b as [y|]; simpl; auto.
  destruct (String.leb_total x y); auto.
Qed.

Lemma nullable_desc_trans a b c :
  nullable_desc a b = true -> nullable_desc b c = true -> nullable_desc a c = true.
Proof.
  destruct a as [x|], b as [y|], c as [z|]; simpl; try congruence.
  intros Hab Hbc. now apply string_leb_trans with y.
Qed.

Lemma listed_sorted s c d :
  published_descending
    (order_by (fun a b => nullable_desc (published_date a) (published_date b))
       (filter (matches s c) (rows d))).
Proof.
  apply (order_by_sorted Row
           (fun a b => nullable_desc (published_date a) (published_date b))).
  - intros a b. apply nullable_desc_total.
  - intros a b c0. apply nullable_desc_trans.
Qed.

Lemma get_articles_run limit s c w :
  int64 limit = true ->
  get_articles limit s c w
  = (w, Ok (limit_rows limit
              (order_by (fun a b => nullable_desc (published_date a) (published_date b))
                 (filter (matches s c) (rows (db w)))))).
Proof. intros H. unfold get_articles, bind, lift, bind_int. rewrite H. reflexivity. Qed.

Lemma int64_range z : int64 z = true <-> -9223372036854775808 <= z <= 9223372036854775807.
Proof. unfold int64. rewrite andb_true_iff, !Z.leb_le. tauto. Qed.

(** X6.  For a limit from 0 up to the largest 64-bit integer
    [get_articles] returns, without touching the state, at most [limit]
    rows of the store; each of them passes the filters that were given (an
    empty filter counts as none), and they come latest published first,
    those without a date last. *)
Theorem listing_is_bounded_filtered_sorted (w : World) (limit : Z) (s c : option string) :
  0 <= limit ->
  (limit <= 9223372036854775807 -> exists l, get_articles limit s c w = (w, Ok l)) /\
  (forall l, snd (get_articles limit s c w) = Ok l ->
     Z.of_nat (List.length l) <= limit /\
     (forall r, In r l -> In r (rows (db w)) /\ passes s c r) /\
     published_descending l).
Proof.
  intros Hpos. split.
  - intros Hmax. eexists. apply get_articles_run, int64_range. lia.
  - intros l Hl. destruct (int64 limit) eqn:E.
    + rewrite (get_articles_run limit s c w E) in Hl. simpl in Hl. injection Hl as <-.
      split; [|split].
      * apply limit_rows_length, Hpos.
      * intros r Hr. apply limit_rows_In, order_by_In, filter_In in Hr.
        split; [tauto | apply matches_passes; tauto].
      * apply limit_rows_sorted, listed_sorted.
    + unfold get_articles, bind, lift, bind_int in Hl. rewrite E in Hl. discriminate.
Qed.

(** X6 on the demo platform, with the default limit of the route. *)
Lemma listing_is_bounded_filtered_sorted_witness :
  0 <= 50 /\
  exists l, get_articles 50 (Some "Bullish"%string) None Demo.fetched = (Demo.fetched, Ok l).
Proof.
  split; [lia|].
  apply (listing_is_bounded_filtered_sorted Demo.fetched 50 (Some "Bullish"%string) None); lia.
Defined.

(** X7.  When the limit is negative, or not smaller than the number of
    rows that pass the filters, [get_articles] returns every row that
    passes them, once each: nothing that matches is left out. *)
Theorem listing_is_complete (w : World) (limit : Z) (s c : option string) :
  int64 limit = true ->
  limit < 0 \/ Z.of_nat (List.length (filter (matches s c) (rows (db w)))) <= limit ->
  exists l,
    get_articles limit s c w = (w, Ok l) /\
    Permutation (filter (matches s c) (rows (db w))) l /\
    (forall r, In r l <-> In r (rows (db w)) /\ passes s c r).
Proof.
  intros Hi Hlim. rewrite (get_articles_run limit s c w Hi). eexists. split; [reflexivity|].
  assert (Hall : limit_rows limit
                   (order_by (fun a b => nullable_desc (published_date a) (published_date b))
                      (filter (matches s c) (rows (db w))))
                 = order_by (fun a b => nullable_desc (published_date a) (published_date b))
                     (filter (matches s c) (rows (db w)))).
  { unfold limit_rows. destruct (Z.ltb_spec limit 0) as [|Hge]; [reflexivity|].
    destruct Hlim as [|Hlim]; [lia|]. apply firstn_all2.
    rewrite <- (Permutation_length (order_by_perm Row _ _)). lia. }
  rewrite Hall. split; [apply order_by_perm|].
  intros r. rewrite <- matches_passes, <- filter_In. split.
  - apply order_by_In.
  - intros H. exact (Permutation_in r (order_by_perm Row _ _) H).
Qed.

(** X7 on the demo platform: no filter, no limit. *)
Lemma listing_is_complete_witness :
  exists l, get_articles (-1) None None Demo.fetched = (Demo.fetched, Ok l) /\
            Permutation (filter (matches None None) (rows (db Demo.fetched))) l.
Proof.
  destruct (listing_is_complete Demo.fetched (-1) None None eq_refl) as [l [H1 [H2 _]]].
  - left. lia.
  - exists l. split; assumption.
Defined.

(** ** Updating is all or nothing *)

Lemma field_eqb_eq a b : field_eqb a b = true <-> a = b.
Proof. destruct a, b; simpl; split; congruence. Qed.

Lemma get_assign_other svs : forall k r,
  ~ In k (map fst svs) -> get_field k (assign svs r) = get_field k r.
Proof.
  induction svs as [|[k' v] rest IH]; intros k r Hk; simpl in *; [reflexivity|].
  rewrite IH by tauto. rewrite get_set_field.
  destruct (field_eqb k' k) eqn:E; [|reflexivity].
  apply field_eqb_eq in E. tauto.
Qed.

Lemma get_assign_in svs : forall k v r,
  NoDup (map fst svs) -> In (k, v) svs -> get_field k (assign svs r) = v.
Proof.
  induction svs as [|[k' v'] rest IH]; intros k v r Hnd Hin; simpl in *; [contradiction|].
  inversion Hnd as [|x l Hnotin Hnd']; subst.
  destruct Hin as [[= -> ->] | Hin].
  - rewrite get_assign_other by assumption. rewrite get_set_field.
    now replace (field_eqb k k) with true by (symmetry; now apply field_eqb_eq).
  - now apply IH.
Qed.

Section AllOrNothing.

Variable P : Platform.

Lemma stored_unbindable k v : bindable v = false -> exists e, stored P k v = Raise e.
Proof.
  unfold stored. destruct v; simpl; try discriminate.
  - intros ->. eauto.
  - eauto.
Qed.

Lemma update_all_unbindable i updates : forall d,
  Exists (fun kv => bindable (snd kv) = false) updates ->
  exists e, update_all P i (named updates) d = Raise e.
Proof.
  induction updates as [|[k v] rest IH]; intros d H; [inversion H|]. simpl.
  destruct (update_one P i (key_of k, v) d) as [d'|e] eqn:E; [|eauto].
  inversion H as [x l Hv | x l Hrest]; subst; [|now apply IH].
  exfalso. simpl in Hv. destruct (stored_unbindable k v Hv) as [e He].
  unfold update_one, stored in *. cbn [fst snd] in *. rewrite column_of_key_of in E.
  destruct (bind_param _); [discriminate|]. discriminate.
Qed.

Lemma stored_all_keys updates : forall svs,
  stored_all P updates = Ok svs ->
  map fst svs = map fst updates /\
  forall k v, In (k, v) updates -> exists sv, In (k, sv) svs /\ stored P k v = Ok sv.
Proof.
  induction updates as [|[k v] rest IH]; simpl; intros svs H.
  - injection H as <-. split; [reflexivity | contradiction].
  - destruct (stored P k v) as [sv|e] eqn:E; [|discriminate].
    destruct (stored_all P rest) as [svs'|e]; [|discriminate].
    injection H as <-. destruct (IH svs' eq_refl) as [Hk Hv]. split.
    + simpl. now rewrite Hk.
    + intros k0 v0 [[= <- <-] | Hin].
      * exists sv. split; [now left | assumption].
      * destruct (Hv k0 v0 Hin) as [sv0 [Hin0 Hs0]]. exists sv0. split; [now right | assumption].
Qed.

Lemma key_of_inj k k' : key_of k = key_of k' -> k = k'.
Proof.
  intros H. pose proof (column_of_key_of k) as E. rewrite H, column_of_key_of in E.
  congruence.
Qed.

Lemma named_In k v fields : In (key_of k, v) (named fields) -> In (k, v) fields.
Proof.
  unfold named. intros H. apply in_map_iff in H. destruct H as [[k' v'] [E Hin]].
  cbn in E. injection E as Ek ->. apply key_of_inj in Ek. now subst.
Qed.

(** X8.  [update_article] commits all of a field map or nothing.  Whatever
    the keys, when it raises nothing of the call is in the database: the
    store is as before, also for the keys that came before the bad one.
    For a map whose keys are names of the six columns: when some value
    cannot be bound (a dict, an int beyond 64 bits) it raises; when the id
    fits 64 bits and every value can be bound (the keys being distinct), it
    returns normally, only the store changes, every row of another id is as
    before, and a row of that id keeps its identity, holds in each column
    named by the map the stored form of the value given for it, and keeps
    its other columns. *)
Theorem update_is_all_or_nothing (w : World) (i : Z) (updates : list (string * value)) :
  (forall e, snd (update_article P i updates w) = Raise e ->
             db (fst (update_article P i updates w)) = db w) /\
  (Forall (fun kv => In (fst kv) column_names) updates ->
   (Exists (fun kv => bindable (snd kv) = false) updates ->
    exists e, snd (update_article P i updates w) = Raise e) /\
   (int64 i = true ->
    Forall (fun kv => bindable (snd kv) = true) updates ->
    NoDup (map fst updates) ->
    exists rs,
      update_article P i updates w = (set_db (mkStore rs (last_id (db w))) w, Ok tt) /\
      Forall2
        (fun r r' =>
           (id r <> i -> r' = r) /\
           (id r = i ->
            same_identity r r' /\
            (forall k v, In (key_of k, v) updates -> stored P k v = Ok (get_field k r')) /\
            (forall k, ~ In (key_of k) (map fst updates) -> get_field k r' = get_field k r)))
        (rows (db w)) rs)).
Proof.
  split.
  { intros e He. now rewrite (update_article_raise P i updates w e He). }
  intros Hkeys. destruct (named_of_columns updates Hkeys) as [fields ->]. split.
  - intros H. unfold update_article.
    assert (H' : Exists (fun kv => bindable (snd kv) = false) fields).
    { unfold named in H. apply Exists_map in H. exact H. }
    destruct (update_all_unbindable i fields (db w) H') as [e ->]. cbn. eauto.
  - intros Hi Hb Hnd. apply named_values in Hb.
    rewrite named_keys in Hnd. apply NoDup_map_inv in Hnd.
    destruct (stored_all_bindable P fields Hb) as [svs Hs].
    exists (assign_where i svs (rows (db w))). split.
    + unfold update_article. now rewrite (update_all_run P i fields _ svs Hi Hs).
    + destruct (stored_all_keys fields svs Hs) as [Hk Hv].
      unfold assign_where. induction (rows (db w)) as [|r rs IH]; simpl; constructor;
        [|exact IH].
      destruct (Z.eqb_spec (id r) i) as [E | Hne]; split; try congruence; intros _.
      split; [apply assign_frame|]. split.
      * intros k v Hin. apply named_In in Hin.
        destruct (Hv k v Hin) as [sv [Hin' Hst]]. rewrite Hst. f_equal.
        symmetry. apply get_assign_in; [now rewrite Hk | assumption].
      * intros k Hk'. apply get_assign_other. rewrite Hk. intros Hin. apply Hk'.
        rewrite named_keys. now apply in_map.
Qed.

End AllOrNothing.

(** X8 on the demo platform: a good summary before a category that is a
    dict; the update raises and nothing is written. *)
Lemma update_is_all_or_nothing_witness :
  (exists e,
     snd (update_article (Demo.platform EmptyString) 1
            [("summary", PStr "s"); ("category", PDict [])]%string Demo.fetched) = Raise e) /\
  db (fst (update_article (Demo.platform EmptyString) 1
             [("summary", PStr "s"); ("category", PDict [])]%string Demo.fetched))
  = db Demo.fetched.
Proof.
  destruct (update_is_all_or_nothing (Demo.platform EmptyString) Demo.fetched 1
              [("summary", PStr "s"); ("category", PDict [])]%string) as [Hraise Hkeys].
  destruct Hkeys as [Hbad _].
  { constructor; [cbn; auto 10 | constructor; [cbn; auto 10 | constructor]]. }
  destruct Hbad as [e He]; [right; left; reflexivity|].
  split; [exists e; exact He | exact (Hraise e He)].
Defined.

(** ** Fetching a feed *)

Section FetchOne.

Variable P : Platform.

Lemma article_of_entry_some feed e w w' a :
  article_of_entry P feed e w = (w', Some a) ->
  feed_article feed a /\ describes P feed e a /\ ~ entry_raises P e.
Proof.
  intros H. destruct (article_of_entry_fetched P feed e w w' a H) as [Hf _].
  unfold article_of_entry in H.
  destruct (published_of P e) as [published|] eqn:Ep; [|discriminate].
  assert (Hraw : forall c,
            (if String.eqb (raw_content e) EmptyString then Some (raw_content e)
             else clean_html P (raw_content e)) = Some c ->
            (raw_content e = EmptyString -> Some c = Some EmptyString) /\
            (raw_content e <> EmptyString -> Some c = clean_html P (raw_content e)) /\
            ~ entry_raises P e).
  { intros c Hc. destruct (String.eqb_spec (raw_content e) EmptyString) as [E | Hne].
    - injection Hc as <-. repeat split; try congruence.
      intros [Hr | [Hr _]]; congruence.
    - repeat split; try congruence. intros [Hr | [_ Hr]]; congruence. }
  destruct (if String.eqb _ _ then _ else _) as [c|]; [|discriminate].
  destruct (Hraw c eq_refl) as (Hc1 & Hc2 & Hnr).
  injection H as _ <-. split; [|split; [|exact Hnr]].
  - repeat split; simpl; try discriminate; [|exact Hf].
    destruct (nonempty published) eqn:En; simpl; [|discriminate].
    destruct published; [discriminate | discriminate En].
  - repeat split; simpl; try assumption.
    intros iso Hp Hiso. rewrite Ep in Hp. injection Hp as ->.
    apply String.eqb_neq in Hiso. unfold nonempty. now rewrite Hiso.
Qed.

Lemma article_of_entry_none feed e w w' :
  article_of_entry P feed e w = (w', None) -> entry_raises P e.
Proof.
  unfold article_of_entry, entry_raises.
  destruct (published_of P e) as [published|]; [|now left].
  destruct (String.eqb_spec (raw_content e) EmptyString) as [E | Hne]; [discriminate|].
  destruct (clean_html P (raw_content e)); [discriminate|]. intros _. now right.
Qed.

Lemma articles_of_entries_some feed es : forall w w' l,
  articles_of_entries P feed es w = (w', Some l) ->
  Forall2 (fun e a => feed_article feed a /\ describes P feed e a) es l /\
  Forall (fun e => ~ entry_raises P e) es.
Proof.
  induction es as [|e es IH]; intros w w' l; simpl.
  - intros [= <- <-]. split; constructor.
  - destruct (article_of_entry P feed e w) as [w1 [a|]] eqn:E; [|discriminate].
    destruct (articles_of_entries P feed es w1) as [w2 [l'|]] eqn:E'; [|discriminate].
    intros [= <- <-]. destruct (IH _ _ _ E') as [H1 H2].
    destruct (article_of_entry_some feed e w w1 a E) as (Hf & Hd & Hn).
    split; constructor; auto.
Qed.

Lemma articles_of_entries_none feed es : forall w w',
  articles_of_entries P feed es w = (w', None) -> Exists (entry_raises P) es.
Proof.
  induction es as [|e es IH]; intros w w'; simpl; [discriminate|].
  destruct (article_of_entry P feed e w) as [w1 [a|]] eqn:E.
  - destruct (articles_of_entries P feed es w1) as [w2 [l'|]] eqn:E'; [discriminate|].
    intros _. right. now apply IH with w1 w2.
  - intros _. left. now apply article_of_entry_none with feed w w1.
Qed.

Lemma fetch_feed_shape (feed : Feed) (w : World) :
  exists l,
    snd (fetch_feed P feed w) = Ok l /\
    db (fst (fetch_feed P feed w)) = db w /\
    API_KEY (fst (fetch_feed P feed w)) = API_KEY w /\
    outbound (fst (fetch_feed P feed w)) = outbound w /\
    (List.length l <= MAX_ARTICLES_PER_FEED)%nat /\
    Forall (feed_article feed) l.
Proof.
  assert (Hw : forall e w0, API_KEY (fst (article_of_entry P feed e w0)) = API_KEY w0 /\
                            outbound (fst (article_of_entry P feed e w0)) = outbound w0).
  { intros e w0. unfold article_of_entry.
    destruct (published_of P e) as [published|]; [|now split].
    destruct (if String.eqb _ _ then _ else _); [|now split].
    now destruct (nonempty published). }
  assert (Hws : forall es w0,
            API_KEY (fst (articles_of_entries P feed es w0)) = API_KEY w0 /\
            outbound (fst (articles_of_entries P feed es w0)) = outbound w0).
  { induction es as [|e es IH]; intros w0; simpl; [now split|].
    destruct (Hw e w0) as [H1 H2].
    destruct (article_of_entry P feed e w0) as [w1 [a|]]; simpl in *; [|now split].
    destruct (IH w1) as [H3 H4].
    destruct (articles_of_entries P feed es w1) as [w2 [l'|]]; simpl in *; split; congruence. }
  destruct (fetch_feed_fetched P feed w) as [Hdb _].
  unfold fetch_feed in *.
  destruct (feedparser_parse P (ticks w) (feed_url feed)) as [entries|];
    [|exists []; cbn; repeat split; [lia | constructor]].
  pose proof (firstn_le_length MAX_ARTICLES_PER_FEED entries) as Hlen.
  remember (firstn MAX_ARTICLES_PER_FEED entries) as es eqn:Ees. clear Ees.
  destruct (Hws es (tick w)) as [Hk Ho].
  destruct (articles_of_entries P feed es (tick w)) as [w' [l|]] eqn:E; cbn in *;
    [|exists []; cbn; repeat split; try assumption; [lia | constructor]].
  destruct (articles_of_entries_some feed _ _ _ _ E) as [H2 _].
  exists l. repeat split; try assumption.
  - now rewrite <- (Forall2_length H2).
  - clear E Hlen. induction H2 as [|e a es0 l0 [Hf _] _ IH]; constructor; auto.
Qed.

(** X9.  [fetch_feed] never raises and never touches the store, the key or
    the log of outbound calls; it returns at most 15 articles, and each of
    them has a title, a url, a date, the name of the feed as its source,
    and a content of at most 3000 characters. *)
Theorem fetched_articles_are_well_formed (feed : Feed) (w : World) :
  exists l,
    snd (fetch_feed P feed w) = Ok l /\
    db (fst (fetch_feed P feed w)) = db w /\
    API_KEY (fst (fetch_feed P feed w)) = API_KEY w /\
    outbound (fst (fetch_feed P feed w)) = outbound w /\
    (List.length l <= MAX_ARTICLES_PER_FEED)%nat /\
    Forall (feed_article feed) l.
Proof. exact (fetch_feed_shape feed w). Qed.

(** X10.  One bad entry voids its feed.  When the feed cannot be parsed, or
    when among its first 15 entries there is one on which the loop raises
    (a date that [datetime] refuses, a content that the HTML parser
    refuses), [fetch_feed] returns the empty list: the articles of the
    entries before the bad one are dropped with it. *)
Theorem bad_entry_voids_the_feed (feed : Feed) (w : World) :
  (feedparser_parse P (ticks w) (feed_url feed) = None ->
   snd (fetch_feed P feed w) = Ok []) /\
  (forall entries,
     feedparser_parse P (ticks w) (feed_url feed) = Some entries ->
     Exists (entry_raises P) (firstn MAX_ARTICLES_PER_FEED entries) ->
     snd (fetch_feed P feed w) = Ok []).
Proof.
  unfold fetch_feed. split.
  - intros ->. reflexivity.
  - intros entries -> Hex.
    destruct (articles_of_entries P feed _ (tick w)) as [w' [l|]] eqn:E; [|reflexivity].
    destruct (articles_of_entries_some feed _ _ _ _ E) as [_ Hall].
    exfalso. rewrite Forall_forall in Hall. apply Exists_exists in Hex.
    destruct Hex as [e [Hin Hr]]. exact (Hall e Hin Hr).
Qed.

(** X11.  When the feed is parsed and the loop raises on none of its first
    15 entries, [fetch_feed] returns one article for each of them, in their
    order: with the title of the entry or "Untitled", its link or the
    empty string, the name of the feed, its parsed date when it has one,
    and its content, cleaned unless it is empty.  The entries after the
    fifteenth are not looked at. *)
Theorem one_article_per_entry (feed : Feed) (w : World) (entries : list Entry) :
  feedparser_parse P (ticks w) (feed_url feed) = Some entries ->
  Forall (fun e => ~ entry_raises P e) (firstn MAX_ARTICLES_PER_FEED entries) ->
  exists l,
    snd (fetch_feed P feed w) = Ok l /\
    Forall2 (describes P feed) (firstn MAX_ARTICLES_PER_FEED entries) l.
Proof.
  intros Hp Hall. unfold fetch_feed. rewrite Hp.
  destruct (articles_of_entries P feed _ (tick w)) as [w' [l|]] eqn:E.
  - exists l. split; [reflexivity|].
    destruct (articles_of_entries_some feed _ _ _ _ E) as [H2 _].
    clear E Hall. induction H2 as [|e a es l0 [_ Hd] _ IH]; constructor; auto.
  - exfalso. apply articles_of_entries_none in E. apply Exists_exists in E.
    destruct E as [e [Hin Hr]]. rewrite Forall_forall in Hall. exact (Hall e Hin Hr).
Qed.

End FetchOne.

(** ** Refreshing *)

Lemma evolves_urls d d' u :
  evolves d d' -> In u (map url (rows d)) -> In u (map url (rows d')).
Proof.
  induction 1 as [d | d d' t u' s pd fd c _ IH Hu | d d' i svs _ IH]; intros Hin.
  - exact Hin.
  - simpl. rewrite map_app. apply in_or_app. left. now apply IH.
  - simpl. rewrite assign_where_urls. now apply IH.
Qed.

Section Refresh.

Variable P : Platform.

Lemma fetch_feeds_shape feeds : forall w,
  exists l,
    snd (fetch_feeds P feeds w) = Ok l /\
    db (fst (fetch_feeds P feeds w)) = db w /\
    (List.length l <= MAX_ARTICLES_PER_FEED * List.length feeds)%nat /\
    Forall (fun a => exists feed, In feed feeds /\ feed_article feed a) l.
Proof.
  induction feeds as [|feed rest IH]; intros w; simpl fetch_feeds.
  - exists []. repeat split; [simpl; lia | constructor].
  - unfold bind, ret.
    destruct (fetch_feed_shape P feed w) as (l & Hl & Hdb & _ & _ & Hlen & Hf).
    destruct (fetch_feed P feed w) as [w1 r1]. cbn in Hl, Hdb. subst r1.
    destruct (IH w1) as (l1 & Hl1 & Hdb1 & Hlen1 & Hf1).
    destruct (fetch_feeds P rest w1) as [w2 r2]. cbn in Hl1, Hdb1. subst r2.
    cbn [fst snd].
    exists (l ++ l1). repeat split.
    + congruence.
    + rewrite length_app. cbn [List.length]. rewrite Nat.mul_succ_r. lia.
    + apply Forall_app. split.
      * eapply Forall_impl; [|exact Hf]. intros a Ha. exists feed. split; [now left | exact Ha].
      * eapply Forall_impl; [|exact Hf1]. intros a [f [Hin Ha]]. exists f.
        split; [now right | exact Ha].
Qed.

Lemma add_new_count articles : forall n w,
  0 <= last_id (db w) ->
  exists news,
    rows (db (fst (add_new P articles n w))) = rows (db w) ++ news /\
    snd (add_new P articles n w) = Ok (n + Z.of_nat (List.length news)) /\
    (List.length news <= List.length articles)%nat.
Proof.
  induction articles as [|a rest IH]; intros n w Hl; simpl add_new.
  - exists []. cbn. rewrite app_nil_r, Z.add_0_r. repeat split. lia.
  - destruct (nonempty (a_url a)).
    + unfold bind. rewrite add_article_run. unfold insert_article.
      destruct (a_title a) as [t|], (a_url a) as [u|], (a_source a) as [s|];
        try (destruct (IH n (tick w) Hl) as (news & H1 & H2 & H3);
             exists news; repeat split; [exact H1 | exact H2 | cbn; lia]).
      destruct (existsb _ (rows (db w))).
      * destruct (IH n (tick w) Hl) as (news & H1 & H2 & H3).
        exists news. repeat split; [exact H1 | exact H2 | cbn; lia].
      * cbn [truthy_id].
        replace (negb (last_id (db w) + 1 =? 0)) with true
          by (symmetry; apply negb_true_iff, Z.eqb_neq; lia).
        match goal with
        | |- context [add_new P rest (n + 1) ?w1] =>
            destruct (IH (n + 1) w1 ltac:(cbn; lia)) as (news & H1 & H2 & H3);
            cbn in H1
        end.
        eexists (_ :: news). rewrite H1, H2, <- app_assoc. cbn [List.length app].
        repeat split; [f_equal; lia | lia].
    + destruct (IH n w Hl) as (news & H1 & H2 & H3).
      exists news. repeat split; [exact H1 | exact H2 | cbn; lia].
Qed.

(** X12.  The count [refresh_feeds] returns is the number of rows it
    added.  On a store whose counter is not negative it does not raise; the
    rows of before are the first rows of after, unchanged, and the rows
    after them are as many as the count says, which is at most 15 for each
    of the configured feeds, 90 in all. *)
Theorem refresh_counts_the_rows_it_adds (w : World) :
  0 <= last_id (db w) ->
  exists news,
    rows (db (fst (refresh_feeds P w))) = rows (db w) ++ news /\
    snd (refresh_feeds P w) = Ok (Z.of_nat (List.length news)) /\
    (List.length news <= 90)%nat.
Proof.
  intros Hl. unfold refresh_feeds, fetch_all_feeds, bind.
  destruct (fetch_feeds_shape FEEDS w) as (l & Hr & Hdb & Hlen & _).
  destruct (fetch_feeds P FEEDS w) as [w1 r1]. cbn in Hr, Hdb. subst r1.
  destruct (add_new_count l 0 w1 ltac:(now rewrite Hdb)) as (news & H1 & H2 & H3).
  exists news. rewrite H1, H2, Hdb. repeat split.
  change (MAX_ARTICLES_PER_FEED * List.length FEEDS)%nat with 90%nat in Hlen. lia.
Qed.

Lemma add_new_all_stored articles : forall n w,
  (forall a u, In a articles -> a_url a = Some u -> u <> EmptyString ->
               In u (map url (rows (db w)))) ->
  db (fst (add_new P articles n w)) = db w /\ snd (add_new P articles n w) = Ok n.
Proof.
  induction articles as [|a rest IH]; intros n w H; simpl add_new; [now split|].
  destruct (nonempty (a_url a)) eqn:E.
  - assert (Hv : violates (db w) a).
    { right. right. right. unfold nonempty in E.
      destruct (a_url a) as [u|] eqn:Eu; [|discriminate].
      exists u. split; [reflexivity|]. apply (H a u); [now left | exact Eu|].
      apply negb_true_iff, String.eqb_neq in E. exact E. }
    rewrite (bind_ok _ (add_article_violates P a w Hv)). cbn [truthy_id].
    apply (IH n (tick w)). intros a0 u0 Hin. apply H. now right.
  - apply IH. intros a0 u0 Hin. apply H. now right.
Qed.

(** X13.  A refresh that brings nothing new changes nothing: when every
    fetched article with a url has a url that is already stored,
    [refresh_feeds] returns 0 and the store is as it was. *)
Theorem refresh_of_known_urls_adds_nothing (w : World) (l : list Article) :
  snd (fetch_all_feeds P w) = Ok l ->
  (forall a u, In a l -> a_url a = Some u -> u <> EmptyString ->
               In u (map url (rows (db w)))) ->
  snd (refresh_feeds P w) = Ok 0 /\ db (fst (refresh_feeds P w)) = db w.
Proof.
  intros Hl Hknown. unfold refresh_feeds, bind. unfold fetch_all_feeds in *.
  destruct (fetch_feeds_shape FEEDS w) as (l' & Hr & Hdb & _).
  destruct (fetch_feeds P FEEDS w) as [w1 r1]. cbn in Hl, Hr, Hdb. subst r1.
  injection Hr as <-.
  destruct (add_new_all_stored l 0 w1) as [H1 H2].
  - intros a u Hin Hu Hne. rewrite Hdb. now apply Hknown with a.
  - split; [exact H2 | congruence].
Qed.

Lemma add_new_stores articles : forall n w,
  Forall (fun a => a_title a <> None /\ a_source a <> None) articles ->
  forall a u, In a articles -> a_url a = Some u -> u <> EmptyString ->
    In u (map url (rows (db (fst (add_new P articles n w))))).
Proof.
  induction articles as [|a0 rest IH]; intros n w Hall a u Hin Hu Hne; [contradiction|].
  inversion Hall as [|x l [Ht Hs] Hrest]; subst. simpl add_new.
  destruct Hin as [-> | Hin].
  - unfold nonempty. rewrite Hu. apply String.eqb_neq in Hne. rewrite Hne. cbn [negb].
    unfold bind.
    assert (H1 : In u (map url (rows (db (fst (add_article P a w)))))).
    { destruct (in_dec string_dec u (map url (rows (db w)))) as [Hold | Hfresh].
      - exact (evolves_urls _ _ u (add_article_evolves P a w) Hold).
      - destruct (a_title a) as [t|] eqn:Et; [|congruence].
        destruct (a_source a) as [s|] eqn:Es; [|congruence].
        rewrite (add_article_fresh P a w t u s Et Hu Es Hfresh). cbn.
        rewrite map_app. apply in_or_app. right. now left. }
    destruct (add_article P a w) as [w1 [r|e]]; cbn in H1 |- *; [|exact H1].
    exact (evolves_urls _ _ u (add_new_evolves P rest _ w1) H1).
  - destruct (nonempty (a_url a0)); [|now apply IH with a].
    unfold bind. pose proof (add_article_run P a0 w) as Hrun.
    destruct (add_article P a0 w) as [w1 [r|e]]; cbn.
    + now apply IH with a.
    + exfalso. destruct (insert_article a0 _ (db w)) as [[d i]|]; discriminate.
Qed.

(** X14.  A refresh loses no article: every fetched article with a url
    that is not empty has its url in the store afterwards, because it was
    there already or because the article was inserted. *)
Theorem refresh_stores_every_fetched_url (w : World) (l : list Article) :
  snd (fetch_all_feeds P w) = Ok l ->
  forall a u, In a l -> a_url a = Some u -> u <> EmptyString ->
    In u (map url (rows (db (fst (refresh_feeds P w))))).
Proof.
  intros Hl a u Hin Hu Hne. unfold refresh_feeds, bind. unfold fetch_all_feeds in *.
  destruct (fetch_feeds_shape FEEDS w) as (l' & Hr & Hdb & _ & Hf).
  destruct (fetch_feeds P FEEDS w) as [w1 r1]. cbn in Hl, Hr, Hdb. subst r1.
  injection Hr as <-.
  apply add_new_stores with a; try assumption.
  eapply Forall_impl; [|exact Hf]. intros a0 [feed [_ (Ht & _ & Hs & _)]].
  split; [exact Ht | congruence].
Qed.

End Refresh.

(** ** Enriching in batches *)

Section Batch.

Variable P : Platform.

(** X15.  At every state the process reaches every stored article has a
    content and a read flag of 0 or 1.  On such an article, in whatever
    state it is called, [analyze_article] returns normally unless the
    constructor of the client raises, and then it is that exception that
    escapes, with nothing changed: the slice of the content, the other step
    outside the [try], never raises on a stored article. *)
Theorem stored_articles_can_be_analyzed (w : World) :
  reachable P w ->
  Forall (fun r =>
            content r <> None /\
            (is_read r = Some (VInt 0) \/ is_read r = Some (VInt 1)) /\
            forall w',
              (exists v, snd (analyze_article P r w') = Ok v) \/
              (exists e, API_KEY w' <> EmptyString /\ HAS_ANTHROPIC P = true /\
                         Anthropic P (API_KEY w') = Some e /\
                         analyze_article P r w' = (w', Raise e)))
    (rows (db w)).
Proof.
  intros Hw.
  assert (Hinv : Forall (fun r => content r <> None /\
                                  (is_read r = Some (VInt 0) \/ is_read r = Some (VInt 1)))
                   (rows (db w))).
  { apply (reachable_inv P); [| | |exact Hw].
    - intros a i t u s fetched [c [Hc _]]. simpl. split; [congruence | now left].
    - intros r [Hc _]. destruct (set_field_frame Is_read (Some (VInt 1)) r) as (_&_&_&_&_&_&E).
      rewrite E. split; [exact Hc | now right].
    - intros r n prompt response svs [Hc Hr] _ Hs.
      destruct (stored_all_held P _ svs Hs) as (s & c & se & sc & b & -> & _).
      split; [exact Hc | exact Hr]. }
  eapply Forall_impl; [|exact Hinv]. intros r [Hc Hr]. split; [exact Hc|]. split; [exact Hr|].
  intros w'. unfold analyze_article.
  destruct (String.eqb_spec (API_KEY w') EmptyString) as [Hk | Hk]; [left; cbn; eauto|].
  destruct (HAS_ANTHROPIC P) eqn:Hlib; cbn [negb orb]; [|left; cbn; eauto].
  destruct (Anthropic P (API_KEY w')) as [e|] eqn:Hclient.
  { right. exists e. repeat split; trivial. }
  left. destruct (content r) as [c|]; [|congruence]. cbv zeta.
  match goal with
  | |- context [messages_create ?a ?b ?c] => destruct (messages_create a b c)
  end; cbn; eauto.
Qed.

Lemma analyze_article_calls article w :
  (outbound (fst (analyze_article P article w)) = outbound w /\
   (snd (analyze_article P article w) = Ok PNone \/
    exists e, snd (analyze_article P article w) = Raise e)) \/
  (exists prompt, outbound (fst (analyze_article P article w)) = prompt :: outbound w).
Proof.
  unfold analyze_article. destruct (_ || _); [left; split; [reflexivity | now left]|].
  destruct (Anthropic P (API_KEY w)) as [e|];
    [left; split; [reflexivity | right; cbn; eauto]|].
  destruct (content article) as [c|]; [|left; split; [reflexivity | right; cbn; eauto]].
  cbv zeta.
  match goal with
  | |- context [messages_create ?a ?b ?c] => destruct (messages_create a b c)
  end; right; cbn; eauto.
Qed.

Lemma update_article_outbound i updates w :
  outbound (fst (update_article P i updates w)) = outbound w.
Proof.
  unfold update_article. now destruct (update_all P i updates (db w)).
Qed.

Lemma process_one_outbound article w :
  outbound (fst (process_one P article w)) = outbound (fst (analyze_article P article w)) /\
  (snd (process_one P article w) = Ok true ->
   exists result, snd (analyze_article P article w) = Ok result /\ truthy result = true).
Proof.
  unfold process_one, bind, ret, lift.
  destruct (analyze_article P article w) as [w1 [result|e]]; cbn [fst snd];
    [|split; [reflexivity | discriminate]].
  destruct (truthy result) eqn:Ht; [|split; [reflexivity | discriminate]].
  destruct (analysis_fields P result) as [updates|e];
    [|split; [reflexivity | discriminate]].
  pose proof (update_article_outbound (id article) updates w1) as Hu.
  destruct (update_article P (id article) updates w1) as [w2 [u|e]]; cbn [fst snd] in *.
  - split; [exact Hu | eauto].
  - split; [exact Hu | discriminate].
Qed.

(** One turn of the loop sends at most one prompt, and sends one when it
    processes its article. *)
Lemma process_one_calls article w :
  exists calls,
    outbound (fst (process_one P article w)) = calls ++ outbound w /\
    (List.length calls <= 1)%nat /\
    (snd (process_one P article w) = Ok true -> List.length calls = 1%nat).
Proof.
  destruct (process_one_outbound article w) as [Ho Ht]. rewrite Ho.
  destruct (analyze_article_calls article w) as [[Hsame Hr] | [prompt Hcall]].
  - exists []. rewrite Hsame. split; [reflexivity|]. split; [cbn; lia|].
    intros Hp. destruct (Ht Hp) as [result [Hres Htr]]. exfalso.
    destruct Hr as [Hn | [e He]]; rewrite Hres in *; [|discriminate].
    injection Hn as ->. discriminate.
  - exists [prompt]. rewrite Hcall. split; [reflexivity|]. split; [cbn; lia | reflexivity].
Qed.

Lemma process_each_calls articles : forall n w,
  exists calls,
    outbound (fst (process_each P articles n w)) = calls ++ outbound w /\
    (List.length calls <= List.length articles)%nat /\
    forall m, snd (process_each P articles n w) = Ok m ->
              n <= m <= n + Z.of_nat (List.length calls).
Proof.
  induction articles as [|a rest IH]; intros n w; simpl process_each.
  - exists []. split; [reflexivity|]. split; [cbn; lia|].
    intros m [= <-]. cbn. lia.
  - unfold bind. destruct (process_one_calls a w) as (c1 & Ho1 & Hl1 & Hd1).
    destruct (process_one P a w) as [w1 [done|e]]; cbn [fst snd] in *.
    + destruct (IH (if done then n + 1 else n) w1) as (c2 & Ho2 & Hl2 & Hm2).
      exists (c2 ++ c1). rewrite Ho2, Ho1, app_assoc, length_app.
      split; [reflexivity|]. split; [cbn [List.length]; lia|].
      intros m Hm. specialize (Hm2 m Hm). destruct done.
      * rewrite (Hd1 eq_refl). lia.
      * lia.
    + exists c1. split; [exact Ho1|]. split; [cbn [List.length]; lia | discriminate].
Qed.

(** X16.  A batch is bounded.  [process_unanalyzed] sends at most five
    prompts, and the count it returns lies between 0 and the number of
    prompts it sent: no article is counted without an outbound call. *)
Theorem batch_is_bounded (w : World) :
  exists calls,
    outbound (fst (process_unanalyzed P w)) = calls ++ outbound w /\
    (List.length calls <= 5)%nat /\
    forall n, snd (process_unanalyzed P w) = Ok n ->
              0 <= n <= Z.of_nat (List.length calls).
Proof.
  unfold process_unanalyzed, bind.
  rewrite (get_unprocessed_run 5 w eq_refl).
  pose proof (limit_rows_length Row 5 (unprocessed (db w)) ltac:(lia)) as Hlen.
  destruct (process_each_calls (limit_rows 5 (unprocessed (db w))) 0 w)
    as (calls & Ho & Hl & Hm).
  exists calls. split; [exact Ho|]. split; [lia|].
  intros n Hn. specialize (Hm n Hn). lia.
Qed.

Lemma Forall2_compose (A : Type) (R1 R2 R3 : A -> A -> Prop) l1 l2 :
  Forall2 R1 l1 l2 -> forall l3, Forall2 R2 l2 l3 ->
  (forall a b c, R1 a b -> R2 b c -> R3 a c) -> Forall2 R3 l1 l3.
Proof.
  induction 1 as [|a b l1 l2 Hab _ IH]; intros l3 H23 Hc; inversion H23; subst;
    constructor; eauto.
Qed.

Lemma process_one_others article w :
  Forall2 (fun r r' => id r' = id r /\ (id r <> id article -> r' = r))
    (rows (db w)) (rows (db (fst (process_one P article w)))).
Proof.
  destruct (process_one_cases P article w)
    as [(result & svs & _ & _ & _ & _ & ->) | [_ ->]].
  - cbn [rows]. unfold assign_where.
    induction (rows (db w)) as [|r rs IH]; cbn [map]; constructor; [|exact IH].
    destruct (Z.eqb_spec (id r) (id article)) as [E | Hne].
    + split; [now destruct (assign_frame svs r) | congruence].
    + split; trivial.
  - induction (rows (db w)) as [|r rs IH]; constructor; [split; trivial | exact IH].
Qed.

Lemma process_each_others articles : forall n w,
  Forall2 (fun r r' => (forall a, In a articles -> id r <> id a) -> r' = r)
    (rows (db w)) (rows (db (fst (process_each P articles n w)))).
Proof.
  induction articles as [|a rest IH]; intros n w; simpl process_each.
  - cbn. induction (rows (db w)); constructor; auto.
  - unfold bind. pose proof (process_one_others a w) as H1.
    destruct (process_one P a w) as [w1 [done|e]]; cbn [fst snd] in *.
    + apply (Forall2_compose Row _ _ _ _ _ H1 _ (IH _ w1)).
      intros r r1 r2 [Hid Hr1] Hr2 Hskip.
      rewrite Hr2.
      * apply Hr1. apply Hskip. now left.
      * intros a' Ha'. rewrite Hid. apply Hskip. now right.
    + eapply Forall2_impl; [|exact H1]. intros r r1 [_ Hr1] Hskip.
      apply Hr1, Hskip. now left.
Qed.

Lemma NoDup_map_inj (A B : Type) (f : A -> B) l a b :
  NoDup (map f l) -> In a l -> In b l -> f a = f b -> a = b.
Proof.
  induction l as [|x l IH]; cbn; intros Hnd Ha Hb Hf; [contradiction|].
  inversion Hnd as [|y l' Hnotin Hnd']; subst.
  destruct Ha as [-> | Ha], Hb as [-> | Hb]; trivial.
  - exfalso. apply Hnotin. rewrite Hf. now apply in_map.
  - exfalso. apply Hnotin. rewrite <- Hf. now apply in_map.
  - now apply IH.
Qed.

Lemma Forall2_with_In (A : Type) (R : A -> A -> Prop) (Q : A -> Prop) l l' :
  Forall2 (fun a b => Q a -> R a b) l l' -> Forall Q l -> Forall2 R l l'.
Proof.
  induction 1 as [|a b l l' H _ IH]; intros HQ; inversion HQ; subst; constructor; auto.
Qed.

(** X17.  A batch leaves the processed articles alone.  On a store with
    distinct ids, every row whose summary is not null is, after
    [process_unanalyzed], the same row at the same place, whatever the
    service replies and also when the batch raises. *)
Theorem batch_leaves_processed_articles (w : World) :
  NoDup (map id (rows (db w))) ->
  Forall2 (fun r r' => summary r <> None -> r' = r)
    (rows (db w)) (rows (db (fst (process_unanalyzed P w)))).
Proof.
  intros Hnd. unfold process_unanalyzed, bind.
  rewrite (get_unprocessed_run 5 w eq_refl).
  pose proof (process_each_others (limit_rows 5 (unprocessed (db w))) 0 w) as H.
  apply (Forall2_with_In Row _ (fun r => In r (rows (db w)))).
  - eapply Forall2_impl; [|exact H]. intros r r' Hskip Hr Hs. apply Hskip.
    intros a Ha Hid. apply limit_rows_In, unprocessed_In in Ha. destruct Ha as [Ha Hsa].
    assert (r = a) by (exact (NoDup_map_inj Row Z id _ r a Hnd Hr Ha Hid)). congruence.
  - apply Forall_forall. auto.
Qed.

(** A turn of the loop on a result that is a non-empty object whose held
    values can be bound: the article is processed. *)
Lemma process_one_run article w kv svs :
  int64 (id article) = true ->
  snd (analyze_article P article w) = Ok (PDict kv) -> kv <> [] ->
  stored_all P (held_updates (PDict kv)) = Ok svs ->
  snd (process_one P article w) = Ok true /\
  db (fst (process_one P article w))
  = mkStore (assign_where (id article) svs (rows (db w))) (last_id (db w)).
Proof.
  intros Hi Hres Hkv Hs. unfold process_one, bind, ret, lift.
  pose proof (analyze_article_db P article w) as Hdb.
  destruct (analyze_article P article w) as [w1 [result|e]]; cbn [fst snd] in *;
    [|discriminate].
  injection Hres as ->.
  assert (Ht : truthy (PDict kv) = true) by (destruct kv; [congruence | reflexivity]).
  rewrite Ht.
  destruct (analysis_fields P (PDict kv)) as [updates|e] eqn:Ea; [|cbn in Ea; discriminate].
  destruct (analysis_fields_dict P _ _ Ea) as [_ [fields [-> Hs']]].
  rewrite Hs in Hs'. unfold update_article.
  rewrite (update_all_run P (id article) fields (db w1) svs Hi Hs').
  cbn. rewrite Hdb. split; reflexivity.
Qed.

(** X18.  An article can be counted and stay unprocessed.  When the
    result of the analysis of a stored article is a non-empty object that
    holds no summary (the key is missing, or holds None) and whose other
    held values can be bound, the turn of the loop counts the article as
    processed, and the rows of its id, of which there is one, still have a
    null summary: they are again among the rows that
    [get_unprocessed_articles] selects from. *)
Theorem counted_without_summary_stays_unprocessed
  (article : Row) (w : World) (kv : list (string * value)) :
  In article (rows (db w)) ->
  int64 (id article) = true ->
  snd (analyze_article P article w) = Ok (PDict kv) ->
  kv <> [] ->
  held_null (held (PDict kv) Summary) = true ->
  Forall (fun fv => bindable (snd fv) = true) (held_updates (PDict kv)) ->
  snd (process_one P article w) = Ok true /\
  (exists r, In r (rows (db (fst (process_one P article w)))) /\ id r = id article) /\
  (forall r, In r (rows (db (fst (process_one P article w)))) -> id r = id article ->
             summary r = None /\
             In r (unprocessed (db (fst (process_one P article w))))).
Proof.
  intros Hin Hi Hres Hkv Hnull Hb.
  destruct (stored_all_bindable P _ Hb) as [svs Hs].
  destruct (process_one_run article w kv svs Hi Hres Hkv Hs) as [Hdone Hdb].
  split; [exact Hdone|].
  destruct (stored_all_held P _ svs Hs) as (s & c & se & sc & b & -> & Hs1 & _).
  apply (stored_null P Summary _ s Hs1) in Hnull. subst s.
  rewrite Hdb. cbn [rows]. split.
  - eexists. split.
    + unfold assign_where. apply in_map. exact Hin.
    + cbn beta. rewrite Z.eqb_refl. reflexivity.
  - intros r Hr Hid.
    assert (Hsum : summary r = None).
    { unfold assign_where in Hr. apply in_map_iff in Hr. destruct Hr as [r0 [<- _]].
      destruct (Z.eqb_spec (id r0) (id article)) as [E | Hne]; [reflexivity|].
      contradiction. }
    split; [exact Hsum|]. apply unprocessed_In. split; [exact Hr | exact Hsum].
Qed.

End Batch.

(** X11 on the demo platform: the one entry of the feed. *)
Lemma one_article_per_entry_witness :
  exists l,
    snd (fetch_feed (Demo.platform EmptyString) demo_feed Demo.start) = Ok l /\
    Forall2 (describes (Demo.platform EmptyString) demo_feed)
      (firstn MAX_ARTICLES_PER_FEED [Demo.entry1]) l.
Proof.
  apply (one_article_per_entry (Demo.platform EmptyString) demo_feed Demo.start
           [Demo.entry1]).
  - reflexivity.
  - constructor; [|constructor]. intros [H | [_ H]]; vm_compute in H; discriminate.
Defined.

(** X10 on the demo platform: a feed that cannot be parsed. *)
Lemma bad_entry_voids_the_feed_witness :
  snd (fetch_feed (Demo.platform EmptyString) dead_feed Demo.start) = Ok [].
Proof.
  apply (bad_entry_voids_the_feed (Demo.platform EmptyString) dead_feed Demo.start).
  reflexivity.
Defined.

(** X12 on the demo platform: the first refresh adds article 1. *)
Lemma refresh_counts_the_rows_it_adds_witness :
  exists news,
    rows (db (fst (refresh_feeds (Demo.platform EmptyString) Demo.start)))
    = rows (db Demo.start) ++ news /\
    snd (refresh_feeds (Demo.platform EmptyString) Demo.start)
    = Ok (Z.of_nat (List.length news)) /\
    (List.length news <= 90)%nat.
Proof.
  apply (refresh_counts_the_rows_it_adds (Demo.platform EmptyString) Demo.start).
  cbn. lia.
Defined.

(** What the feeds of the demo platform give at the second refresh. *)
Definition demo_second_fetch : list Article :=
  match snd (fetch_all_feeds (Demo.platform EmptyString) Demo.fetched) with
  | Ok l => l
  | Raise _ => []
  end.

(** X13 on the demo platform: the second refresh finds article 1 again. *)
Lemma refresh_of_known_urls_adds_nothing_witness :
  snd (refresh_feeds (Demo.platform EmptyString) Demo.fetched) = Ok 0 /\
  db (fst (refresh_feeds (Demo.platform EmptyString) Demo.fetched)) = db Demo.fetched.
Proof.
  apply (refresh_of_known_urls_adds_nothing (Demo.platform EmptyString) Demo.fetched
           demo_second_fetch).
  - vm_compute. reflexivity.
  - intros a u Hin Hu _. vm_compute in Hin. destruct Hin as [<- | []].
    injection Hu as <-. rewrite demo_fetched_rows. now left.
Defined.

(** X14 on the demo platform: the url of the entry is stored by the
    first refresh. *)
Lemma refresh_stores_every_fetched_url_witness :
  In "http://a/1"%string
    (map url (rows (db (fst (refresh_feeds (Demo.platform EmptyString) Demo.start))))).
Proof.
  apply (refresh_stores_every_fetched_url (Demo.platform EmptyString) Demo.start
           (match snd (fetch_all_feeds (Demo.platform EmptyString) Demo.start) with
            | Ok l => l
            | Raise _ => []
            end)
           eq_refl
           (mkArticle (Some "T1") (Some "http://a/1") (Some "MIT Technology Review")
              (Some "2026-01-01T00:00:00.000002") (Some "Hello world"))%string).
  - vm_compute. now left.
  - reflexivity.
  - discriminate.
Defined.

(** X15 on the demo platform. *)
Lemma stored_articles_can_be_analyzed_witness :
  Forall (fun r =>
            content r <> None /\
            (is_read r = Some (VInt 0) \/ is_read r = Some (VInt 1)) /\
            forall w',
              (exists v, snd (analyze_article (Demo.platform Demo.reply_scenario) r w') = Ok v) \/
              (exists e, API_KEY w' <> EmptyString /\
                         HAS_ANTHROPIC (Demo.platform Demo.reply_scenario) = true /\
                         Anthropic (Demo.platform Demo.reply_scenario) (API_KEY w') = Some e /\
                         analyze_article (Demo.platform Demo.reply_scenario) r w'
                         = (w', Raise e)))
    (rows (db (Demo.analyzed (Demo.platform Demo.reply_scenario)))).
Proof.
  apply (stored_articles_can_be_analyzed (Demo.platform Demo.reply_scenario)).
  apply demo_analyzed_reachable.
Defined.

(** X17 on the demo platform: a second batch after the first. *)
Lemma batch_leaves_processed_articles_witness :
  Forall2 (fun r r' => summary r <> None -> r' = r)
    (rows (db (Demo.analyzed (Demo.platform Demo.reply_scenario))))
    (rows (db (fst (process_unanalyzed (Demo.platform Demo.reply_scenario)
                      (Demo.analyzed (Demo.platform Demo.reply_scenario)))))).
Proof.
  apply (batch_leaves_processed_articles (Demo.platform Demo.reply_scenario)).
  apply sorted_lt_NoDup.
  apply (reachable_ids (Demo.platform Demo.reply_scenario)), demo_analyzed_reachable.
Defined.

(** X18 on the second platform: article 1 gets a category and no
    summary. *)
Lemma counted_without_summary_stays_unprocessed_witness :
  snd (process_one category_only Demo.article1 Demo.keyed) = Ok true /\
  exists r, In r (rows (db (fst (process_one category_only Demo.article1 Demo.keyed)))) /\
            id r = 1 /\ summary r = None.
Proof.
  destruct (counted_without_summary_stays_unprocessed category_only Demo.article1 Demo.keyed
              [ ("category", PStr "AI Market") ]%string) as (Hdone & [r [Hr Hid]] & Hall).
  - vm_compute. now left.
  - reflexivity.
  - vm_compute. reflexivity.
  - discriminate.
  - reflexivity.
  - repeat constructor.
  - split; [exact Hdone|]. exists r. split; [exact Hr|]. split; [exact Hid|].
    exact (proj1 (Hall r Hr Hid)).
Defined.

(* ------------------------------------------------------------------ *)
(** ** Statistics *)
(* ------------------------------------------------------------------ *)

Section Statistics.

Variable column : Row -> sqlval.

Lemma sum_counts_cons (A : Type) (e : A * Z) l :
  sum_counts A (e :: l) = snd e + sum_counts A l.
Proof. reflexivity. Qed.

Lemma sum_counts_count_in k : forall g,
  sum_counts storage (count_in k g) = sum_counts storage g + 1.
Proof.
  induction g as [|[k' n] g IH]; cbn [count_in]; [reflexivity|].
  destruct (compare_storage k k'); rewrite !sum_counts_cons; cbn [snd]; lia.
Qed.

Lemma sum_counts_groups rs :
  sum_counts storage (group_counts column rs) = nonnull_rows column rs.
Proof.
  unfold nonnull_rows.
  induction rs as [|r rs IH]; cbn [group_counts filter]; [reflexivity|].
  destruct (column r) as [k|]; [|exact IH].
  rewrite sum_counts_count_in, IH. cbn [List.length]. lia.
Qed.

Lemma positive_count_in k : forall g,
  Forall (fun e : storage * Z => 0 < snd e) g ->
  Forall (fun e : storage * Z => 0 < snd e) (count_in k g).
Proof.
  induction g as [|[k' n] g IH]; cbn; intros H.
  - constructor; [cbn; lia | constructor].
  - inversion H as [|e g' Hn Hg]; subst. cbn in Hn.
    destruct (compare_storage k k'); constructor; cbn; auto; lia.
Qed.

Lemma positive_groups rs :
  Forall (fun e : storage * Z => 0 < snd e) (group_counts column rs).
Proof.
  induction rs as [|r rs IH]; cbn; [constructor|].
  destruct (column r); [now apply positive_count_in | exact IH].
Qed.

Lemma compare_text_l s k :
  compare_storage (VText s) k = Eq -> k = VText s.
Proof.
  destruct k as [z|f|t]; cbn; try discriminate.
  intros H. apply String.compare_eq_iff in H. now subst.
Qed.

Lemma compare_text_r s k :
  compare_storage k (VText s) = Eq -> k = VText s.
Proof.
  destruct k as [z|f|t]; cbn; try discriminate.
  intros H. apply String.compare_eq_iff in H. now subst.
Qed.

Lemma text_sum_cons s k n g :
  text_sum s ((k, n) :: g) = adds s k * n + text_sum s g.
Proof.
  destruct k as [z|f|t]; cbn; trivial. destruct (String.eqb t s); lia.
Qed.

Lemma adds_eq s k k' : compare_storage k k' = Eq -> adds s k = adds s k'.
Proof.
  intros E. destruct k as [z|f|t].
  - destruct k' as [z'|f'|t']; cbn in *; trivial; discriminate.
  - destruct k' as [z'|f'|t']; cbn in *; trivial; discriminate.
  - now rewrite (compare_text_l t k' E).
Qed.

Lemma text_sum_count_in s k : forall g,
  text_sum s (count_in k g) = text_sum s g + adds s k.
Proof.
  induction g as [|[k' n] g IH]; cbn [count_in].
  - rewrite text_sum_cons. cbn. lia.
  - destruct (compare_storage k k') eqn:E; rewrite !text_sum_cons.
    + rewrite (adds_eq s k k' E). lia.
    + lia.
    + rewrite IH. lia.
Qed.

Lemma text_sum_groups s rs :
  text_sum s (group_counts column rs) = labelled_rows column s rs.
Proof.
  unfold labelled_rows.
  induction rs as [|r rs IH]; cbn [group_counts filter]; [reflexivity|].
  destruct (column r) as [k|]; [|exact IH].
  rewrite text_sum_count_in, IH.
  destruct k as [z|f|t]; cbn [adds]; try lia.
  destruct (String.eqb t s); cbn [List.length]; lia.
Qed.

Lemma string_lt_trans a b c :
  String.compare a b = Lt -> String.compare b c = Lt -> String.compare a c = Lt.
Proof.
  intros Hab Hbc.
  destruct (String.compare a c) eqn:Hac; trivial.
  - apply String.compare_eq_iff in Hac. subst c.
    rewrite String.compare_antisym, Hab in Hbc. discriminate.
  - exfalso.
    assert (L1 : String.leb c a = true).
    { unfold String.leb. rewrite String.compare_antisym, Hac. reflexivity. }
    assert (L2 : String.leb a b = true) by (unfold String.leb; now rewrite Hab).
    pose proof (string_leb_trans c a b L1 L2) as L3.
    unfold String.leb in L3. rewrite String.compare_antisym, Hbc in L3. discriminate.
Qed.

Lemma string_compare_irrefl s : String.compare s s <> Lt.
Proof.
  intros H. pose proof (String.compare_antisym s s) as A. rewrite H in A. discriminate.
Qed.

Lemma above_count_in t k : forall g,
  above t (k, 1) -> Forall (above t) g -> Forall (above t) (count_in k g).
Proof.
  induction g as [|[k' n] g IH]; cbn [count_in]; intros Hk Hg.
  - now constructor.
  - inversion Hg as [|e g' He Hg']; subst.
    destruct (compare_storage k k').
    + constructor; [exact He | exact Hg'].
    + constructor; [exact Hk | exact Hg].
    + constructor; [exact He | now apply IH].
Qed.

Lemma texts_ascend_count_in k : forall g,
  texts_ascend g -> texts_ascend (count_in k g).
Proof.
  induction g as [|[k' n] g IH]; cbn [count_in]; intros H.
  - cbn. split; [intros; constructor | trivial].
  - destruct H as [Hhead Hrest].
    destruct (compare_storage k k') eqn:E.
    + split; assumption.
    + split; [|split; assumption].
      intros t ->. destruct k' as [z|f|u]; cbn in E; try discriminate.
      constructor; [exists u; split; trivial|].
      eapply Forall_impl; [|exact (Hhead u eq_refl)].
      intros e (v & Hv & Huv). exists v. split; [exact Hv|].
      now apply string_lt_trans with u.
    + split; [|now apply IH].
      intros t ->. apply above_count_in; [|now apply Hhead].
      destruct k as [z|f|u]; cbn in E; try discriminate.
      exists u. split; trivial.
      rewrite String.compare_antisym, E. reflexivity.
Qed.

Lemma texts_ascend_groups rs : texts_ascend (group_counts column rs).
Proof.
  induction rs as [|r rs IH]; cbn [group_counts]; [exact I|].
  destruct (column r); [now apply texts_ascend_count_in | exact IH].
Qed.

Lemma above_text_sum s : forall g, Forall (above s) g -> text_sum s g = 0.
Proof.
  induction g as [|[k n] g IH]; intros H; [reflexivity|].
  inversion H as [|e g' (u & Hu & Hlt) Hg]; subst. cbn in Hu. subst k.
  cbn. rewrite (IH Hg).
  destruct (String.eqb_spec u s) as [-> | _]; [|reflexivity].
  now apply string_compare_irrefl in Hlt.
Qed.

Lemma above_not_in s n : forall g, Forall (above s) g -> ~ In (VText s, n) g.
Proof.
  intros g H Hin. rewrite Forall_forall in H.
  destruct (H _ Hin) as (u & Hu & Hlt). cbn in Hu. injection Hu as <-.
  now apply string_compare_irrefl in Hlt.
Qed.

Lemma text_entry_is_sum s n : forall g,
  texts_ascend g -> In (VText s, n) g -> text_sum s g = n.
Proof.
  induction g as [|[k m] g IH]; intros Hasc Hin; [contradiction|].
  destruct Hasc as [Hhead Hrest]. rewrite text_sum_cons.
  destruct Hin as [E | Hin].
  - injection E as -> ->. rewrite (above_text_sum s g (Hhead s eq_refl)).
    cbn. rewrite String.eqb_refl. lia.
  - rewrite (IH Hrest Hin).
    destruct k as [z|f|t]; cbn [adds]; try lia.
    destruct (String.eqb_spec t s) as [-> | _]; [|lia].
    exfalso. exact (above_not_in s n g (Hhead s eq_refl) Hin).
Qed.

Lemma text_sum_entry s : forall g,
  Forall (fun e : storage * Z => 0 < snd e) g ->
  0 < text_sum s g -> exists n, In (VText s, n) g.
Proof.
  induction g as [|[k m] g IH]; intros Hpos H; [cbn in H; lia|].
  inversion Hpos as [|e g' _ Hg]; subst.
  rewrite text_sum_cons in H.
  destruct k as [z|f|t]; cbn [adds] in H;
    try (destruct (IH Hg ltac:(lia)) as [n Hn]; exists n; now right).
  destruct (String.eqb_spec t s) as [-> | _].
  - exists m. now left.
  - destruct (IH Hg ltac:(lia)) as [n Hn]. exists n. now right.
Qed.

Lemma group_of_text s n rs :
  In (VText s, n) (group_counts column rs) <->
  0 < n /\ n = labelled_rows column s rs.
Proof.
  rewrite <- text_sum_groups. split.
  - intros Hin. split.
    + pose proof (positive_groups rs) as Hpos. rewrite Forall_forall in Hpos.
      exact (Hpos _ Hin).
    + symmetry. apply text_entry_is_sum; [apply texts_ascend_groups | exact Hin].
  - intros [Hpos ->].
    destruct (text_sum_entry s _ (positive_groups rs) Hpos) as [m Hm].
    now rewrite (text_entry_is_sum s m _ (texts_ascend_groups rs) Hm).
Qed.

End Statistics.

Lemma stats_dict_text s n g :
  In (PStr s, n) (stats_dict g) <-> In (VText s, n) g.
Proof.
  unfold stats_dict. rewrite in_map_iff. split.
  - intros ([k m] & E & Hin). cbn in E.
    destruct k as [z|f|t]; cbn in E; try discriminate.
    injection E as -> ->. exact Hin.
  - intros Hin. exists (VText s, n). split; [reflexivity | exact Hin].
Qed.

Lemma sum_counts_perm (A : Type) (l l' : list (A * Z)) :
  Permutation l l' -> sum_counts A l = sum_counts A l'.
Proof.
  induction 1; rewrite ?sum_counts_cons; lia.
Qed.

Lemma sum_counts_dict g : sum_counts value (stats_dict g) = sum_counts storage g.
Proof.
  induction g as [|e g IH]; [reflexivity|].
  cbn [stats_dict map]. rewrite !sum_counts_cons. cbn [snd].
  unfold stats_dict in IH. now rewrite IH.
Qed.

Lemma by_count_desc_perm g : Permutation g (by_count_desc g).
Proof.
  unfold by_count_desc. etransitivity; [apply Permutation_rev|].
  apply (order_by_perm (storage * Z) (fun a b => snd b <=? snd a)).
Qed.

Lemma by_count_desc_sorted g :
  StronglySorted (fun a b : storage * Z => (snd b <=? snd a) = true) (by_count_desc g).
Proof.
  apply (order_by_sorted (storage * Z) (fun a b => snd b <=? snd a)).
  - intros a b. destruct (Z.leb_spec (snd b) (snd a)); [now left | right].
    apply Z.leb_le. lia.
  - intros a b c H1 H2. apply Z.leb_le in H1, H2. apply Z.leb_le. lia.
Qed.

Lemma counts_descending_dict g :
  StronglySorted (fun a b : storage * Z => (snd b <=? snd a) = true) g ->
  counts_descending value (stats_dict g).
Proof.
  unfold counts_descending.
  induction 1 as [|e g Hs IH Hall]; cbn; constructor; [exact IH|].
  apply Forall_map. eapply Forall_impl; [|exact Hall].
  intros x Hx. cbn. now apply Z.leb_le.
Qed.

(** X19.  [get_stats] accounts for every row.  It changes nothing; its
    total is the number of rows; the counts of its sentiment dict add up to
    the number of rows with a sentiment, those of its category dict to the
    number of rows with a category; every listed count is at least 1; and
    the categories come by count, largest first. *)
Theorem stats_account_for_every_row (w : World) :
  exists st,
    get_stats w = (w, Ok st) /\
    stats_total st = Z.of_nat (List.length (rows (db w))) /\
    sum_counts value (stats_sentiment st) = nonnull_rows sentiment (rows (db w)) /\
    sum_counts value (stats_categories st) = nonnull_rows category (rows (db w)) /\
    Forall (fun item => 1 <= snd item) (stats_sentiment st ++ stats_categories st) /\
    counts_descending value (stats_categories st).
Proof.
  eexists. split; [reflexivity|]. cbn [stats_total stats_sentiment stats_categories].
  split; [reflexivity|].
  split; [now rewrite sum_counts_dict, sum_counts_groups|].
  split.
  { rewrite sum_counts_dict, <- (sum_counts_groups category).
    symmetry. apply sum_counts_perm, by_count_desc_perm. }
  split.
  - apply Forall_app. split; unfold stats_dict; apply Forall_map.
    + eapply Forall_impl; [|apply (positive_groups sentiment)]. cbn. intros; lia.
    + eapply Permutation_Forall; [apply by_count_desc_perm|].
      eapply Forall_impl; [|apply (positive_groups category)]. cbn. intros; lia.
  - apply counts_descending_dict, by_count_desc_sorted.
Qed.

(** X20.  [get_stats] counts each label.  A text [s] is a key of the
    sentiment dict with the count [n] exactly when [n] rows hold the
    sentiment [s] and [n] is not 0, and likewise for the categories: a
    label no row holds is not a key, and no label is listed with two
    counts. *)
Theorem stats_count_each_label (w : World) :
  exists st,
    snd (get_stats w) = Ok st /\
    forall s n,
      (In (PStr s, n) (stats_sentiment st) <->
       0 < n /\ n = labelled_rows sentiment s (rows (db w))) /\
      (In (PStr s, n) (stats_categories st) <->
       0 < n /\ n = labelled_rows category s (rows (db w))).
Proof.
  eexists. split; [reflexivity|]. cbn [stats_sentiment stats_categories].
  intros s n. split.
  - rewrite stats_dict_text. apply group_of_text.
  - rewrite stats_dict_text, <- group_of_text. split; intros H.
    + eapply Permutation_in; [symmetry; apply by_count_desc_perm | exact H].
    + eapply Permutation_in; [apply by_count_desc_perm | exact H].
Qed.

(* ------------------------------------------------------------------ *)
(** ** Where the rows come from *)
(* ------------------------------------------------------------------ *)

Section Provenance.

Variable P : Platform.

Lemma assign_from_the_feeds svs r : from_the_feeds r -> from_the_feeds (assign svs r).
Proof.
  unfold from_the_feeds.
  destruct (assign_frame svs r) as (_ & _ & -> & -> & -> & _). trivial.
Qed.

Lemma assign_where_from_the_feeds i svs rs :
  Forall from_the_feeds rs -> Forall from_the_feeds (assign_where i svs rs).
Proof.
  intros H. unfold assign_where. apply Forall_map.
  eapply Forall_impl; [|exact H]. intros r Hr.
  destruct (id r =? i); [now apply assign_from_the_feeds | exact Hr].
Qed.

Lemma add_new_from_the_feeds articles : forall n w,
  Forall (fun a => exists feed, In feed FEEDS /\ feed_article feed a) articles ->
  Forall from_the_feeds (rows (db w)) ->
  Forall from_the_feeds (rows (db (fst (add_new P articles n w)))).
Proof.
  induction articles as [|a rest IH]; intros n w Ha Hw; simpl add_new; [exact Hw|].
  inversion Ha as [|x l (feed & Hfeed & _ & _ & Hs & Hp & _) Hl]; subst.
  destruct (nonempty (a_url a)) eqn:E; [|now apply IH].
  unfold bind. rewrite add_article_run. unfold insert_article.
  unfold nonempty in E. rewrite Hs.
  destruct (a_url a) as [u|]; [|discriminate].
  destruct (a_title a) as [t|]; [|now apply IH].
  destruct (existsb _ (rows (db w))); [now apply IH|].
  cbn [fst snd]. apply IH; [exact Hl|].
  cbn [db set_db tick rows]. apply Forall_app. split; [exact Hw|].
  constructor; [|constructor]. unfold from_the_feeds. cbn [url source published_date].
  split; [|split].
  - intros ->. discriminate.
  - apply in_map. exact Hfeed.
  - exact Hp.
Qed.

Lemma refresh_feeds_from_the_feeds w :
  Forall from_the_feeds (rows (db w)) ->
  Forall from_the_feeds (rows (db (fst (refresh_feeds P w)))).
Proof.
  intros Hw. unfold refresh_feeds, fetch_all_feeds, bind.
  destruct (fetch_feeds_shape P FEEDS w) as (l & Hl & Hdb & _ & Hf).
  destruct (fetch_feeds P FEEDS w) as [w1 r1]. cbn [fst snd] in *. subst r1.
  apply add_new_from_the_feeds; [exact Hf | now rewrite Hdb].
Qed.

Lemma update_article_from_the_feeds i updates w :
  Forall from_the_feeds (rows (db w)) ->
  Forall from_the_feeds (rows (db (fst (update_article P i (named updates) w)))).
Proof.
  intros Hw.
  destruct (update_article_cases P i updates w) as [[svs [_ ->]] | [e ->]]; [|exact Hw].
  cbn. now apply assign_where_from_the_feeds.
Qed.

Lemma process_each_from_the_feeds articles : forall n w,
  Forall from_the_feeds (rows (db w)) ->
  Forall from_the_feeds (rows (db (fst (process_each P articles n w)))).
Proof.
  induction articles as [|a rest IH]; intros n w Hw; simpl process_each; [exact Hw|].
  unfold bind.
  assert (H1 : Forall from_the_feeds (rows (db (fst (process_one P a w))))).
  { destruct (process_one_cases P a w) as [(result & svs & _ & _ & _ & _ & ->) | [_ ->]];
      [|exact Hw].
    cbn. now apply assign_where_from_the_feeds. }
  destruct (process_one P a w) as [w1 [done|e]]; cbn [fst snd] in *;
    [now apply IH | exact H1].
Qed.

Lemma handle_from_the_feeds req w :
  Forall from_the_feeds (rows (db w)) ->
  Forall from_the_feeds (rows (db (fst (handle P req w)))).
Proof.
  intros Hw. destruct req as [limit s c | i | | | [key|]]; simpl; try exact Hw.
  - unfold get_articles, bind, lift, ret. now destruct (bind_int limit).
  - unfold get_article, bind, lift, ret.
    destruct (bind_int i) as [i'|e]; [|exact Hw].
    destruct (select_id i' (rows (db w))); [|exact Hw].
    now apply (update_article_from_the_feeds i [(Is_read, PInt 1)]).
  - unfold bind, ret. pose proof (refresh_feeds_from_the_feeds w Hw) as H1.
    now destruct (refresh_feeds P w) as [w1 [n|e]].
  - destruct (String.eqb (API_KEY w) EmptyString); [exact Hw|].
    unfold bind, ret.
    assert (H1 : Forall from_the_feeds (rows (db (fst (process_unanalyzed P w))))).
    { unfold process_unanalyzed, bind. destruct (get_unprocessed_5 w) as [l ->].
      now apply process_each_from_the_feeds. }
    now destruct (process_unanalyzed P w) as [w1 [n|e]].
Qed.

(** X21.  Every stored article comes from a configured feed.  At every
    state the process reaches, the urls of the rows are pairwise distinct
    and none is empty, the source of every row is the name of one of the
    feeds of [FEEDS], and every row has a date of publication: the entries
    without a link are fetched and never stored. *)
Theorem stored_articles_come_from_the_feeds (w : World) :
  reachable P w ->
  urls_unique (db w) /\ Forall from_the_feeds (rows (db w)).
Proof.
  intros Hw. split; [now apply (reachable_urls_unique P)|].
  induction Hw as [key | w req _ IH]; [constructor | now apply handle_from_the_feeds].
Qed.

End Provenance.

(** X21 on the demo platform. *)
Lemma stored_articles_come_from_the_feeds_witness :
  urls_unique (db (Demo.analyzed (Demo.platform Demo.reply_scenario))) /\
  Forall from_the_feeds (rows (db (Demo.analyzed (Demo.platform Demo.reply_scenario)))).
Proof.
  apply (stored_articles_come_from_the_feeds (Demo.platform Demo.reply_scenario)).
  apply demo_analyzed_reachable.
Defined.
